(** * bolt-lattice-architect: the secure gateway and the adversarial harness

    A shallow embedding of [src/security/useSecureGateway.ts] (the gateway and
    its address normaliser [normalizeIp]), of the part of
    [src/security/quantum-safe.ts] the gateway calls, and of the harness
    [tests/adversarial_test.ts] ([RedTeamer], [AdversarialTestOrchestrator],
    [main]), of the vault and the error analysis of [quantum-safe.ts], and of
    the two stress tests of the gateway, followed by the properties of the
    specification stated over these definitions.

    The TypeScript runs on Node.js, so the first module fixes the fragment
    of ECMAScript the sources use: strings as sequences of UTF-16 code
    units, the numbers [parseInt] can produce, the products and differences
    of doubles, the conversions [ToUint32] and [ToInt32],
    [Number.prototype.toString], [String.prototype.trim], [split], [join],
    [slice], and abrupt completion ([throw]). *)

From Stdlib Require Import String Ascii.
From Stdlib Require Import ZArith List Bool Lia QArith Qround.

Set Warnings "-register-all".
Import ListNotations.
Open Scope Z_scope.

(* ================================================================== *)
(** ** The ECMAScript fragment *)
(* ================================================================== *)

Module JS.

(** A string value is a finite sequence of UTF-16 code units. *)
Definition jsstring := list Z.

(** An ASCII literal of the source, as code units. *)
Definition lit (s : string) : jsstring :=
  map (fun a => Z.of_N (N_of_ascii a)) (list_ascii_of_string s).

(** The text of a string of ASCII code units, for reading results. *)
Definition show (s : jsstring) : string :=
  string_of_list_ascii (map (fun c => ascii_of_N (Z.to_N c)) s).

Fixpoint str_eqb (s t : jsstring) : bool :=
  match s, t with
  | [], [] => true
  | c :: s', d :: t' => (c =? d) && str_eqb s' t'
  | _, _ => false
  end.

(** [Array.prototype.includes] on an array of strings: strict equality. *)
Definition includes (l : list jsstring) (x : jsstring) : bool :=
  existsb (str_eqb x) l.

(** WhiteSpace and LineTerminator code points (ECMA-262, 12.2 and 12.3):
    TAB, LF, VT, FF, CR, SP, NBSP, U+1680, U+2000..U+200A, LS, PS, U+202F,
    U+205F, U+3000 and the byte order mark. *)
Definition is_white_space (c : Z) : bool :=
  ((9 <=? c) && (c <=? 13)) || (c =? 32) || (c =? 160) || (c =? 5760)
  || ((8192 <=? c) && (c <=? 8202)) || (c =? 8232) || (c =? 8233)
  || (c =? 8239) || (c =? 8287) || (c =? 12288) || (c =? 65279).

Fixpoint trimStart (s : jsstring) : jsstring :=
  match s with
  | c :: r => if is_white_space c then trimStart r else s
  | [] => []
  end.

Definition trimEnd (s : jsstring) : jsstring := rev (trimStart (rev s)).

(** [String.prototype.trim]. *)
Definition trim (s : jsstring) : jsstring := trimEnd (trimStart s).

Fixpoint startsWith (s prefix : jsstring) : bool :=
  match prefix, s with
  | [], _ => true
  | p :: prefix', c :: s' => (c =? p) && startsWith s' prefix'
  | _ :: _, [] => false
  end.

(** [s.includes(sub)]: [sub] occurs in [s]. *)
Fixpoint contains (s sub : jsstring) : bool :=
  startsWith s sub
  || match s with
     | [] => false
     | _ :: r => contains r sub
     end.

(** [s.split(sep)] for a separator of one code unit: never the empty list,
    and [split_on sep [] = [[]]] as in JavaScript. *)
Fixpoint split_on (sep : Z) (s : jsstring) : list jsstring :=
  match s with
  | [] => [[]]
  | c :: r =>
      if c =? sep then [] :: split_on sep r
      else match split_on sep r with
           | p :: ps => (c :: p) :: ps
           | [] => [[c]]
           end
  end.

(** [Array.prototype.join] on strings. *)
Fixpoint join (sep : jsstring) (l : list jsstring) : jsstring :=
  match l with
  | [] => []
  | [x] => x
  | x :: r => x ++ sep ++ join sep r
  end.

(** [Array.prototype.slice(start, end)] for integer arguments: a negative
    index counts from the end of the array, and both are clamped to it. *)
Definition relative_index (len k : Z) : Z :=
  if k <? 0 then Z.max (len + k) 0 else Z.min k len.

Definition slice {A : Type} (l : list A) (start stop : Z) : list A :=
  let len := Z.of_nat (length l) in
  let k := relative_index len start in
  let final := relative_index len stop in
  firstn (Z.to_nat (final - k)) (skipn (Z.to_nat k) l).

(** *** Numbers

    Every number this code computes is an integer-valued double, NaN or an
    infinity.  [Num z] stands for the double whose value is the integer [z];
    the two zeros are identified, since [toString], [>>>] and [&] do not tell
    them apart. *)
Inductive number : Type :=
| NaN
| Infinity (negative : bool)
| Num (z : Z).

(** Rounding of a non-negative integer to the nearest double, ties to even
    (53 bits of significand); [None] when the result overflows. *)
Definition round_to_double (m : Z) : option Z :=
  if m <? 2 ^ 53 then Some m
  else
    let e := Z.log2 m - 52 in
    let q := m / 2 ^ e in
    let r := m mod 2 ^ e in
    let half := 2 ^ (e - 1) in
    let q' := if (half <? r) || ((r =? half) && Z.odd q) then q + 1 else q in
    let v := q' * 2 ^ e in
    if v <? 2 ^ 1024 then Some v else None.

(** The Number value of [sign * m], for [0 <= m]. *)
Definition to_double (negative : bool) (m : Z) : number :=
  match round_to_double m with
  | Some v => Num (if negative then - v else v)
  | None => Infinity negative
  end.

(** *** Doubles that are not integers

    Every finite double is an integer multiple of 2^-1074, and the doubles
    are the multiples whose integer has at most 53 significant bits.  A
    double [x] is held as the rational it is; [scaled x] is its integer
    [x * 2^1074], and the double nearest to an exact result is the rounding
    of the result's integer to 53 significant bits, ties to even. *)
Definition round_to_53_bits (m : Z) : Z :=
  if m <? 2 ^ 53 then m
  else
    let e := Z.log2 m - 52 in
    let q := m / 2 ^ e in
    let r := m mod 2 ^ e in
    let half := 2 ^ (e - 1) in
    (if (half <? r) || ((r =? half) && Z.odd q) then q + 1 else q) * 2 ^ e.

Definition scaled (x : Q) : Z := Qfloor (x * inject_Z (2 ^ 1074)).

Definition of_scaled (m : Z) : Q := Qmake m (2 ^ 1074).

(** [x * n] for a double [x >= 0] and an integer [n >= 0] below 2^53. *)
Definition double_times (x : Q) (n : Z) : Q :=
  of_scaled (round_to_53_bits (scaled x * n)).

(** [x - y] for two doubles. *)
Definition double_minus (x y : Q) : Q :=
  let d := scaled x - scaled y in
  of_scaled (if d <? 0 then - round_to_53_bits (- d) else round_to_53_bits d).

(** The value of a code unit as a digit: 0-9, a-z, A-Z. *)
Definition digit_value (c : Z) : option Z :=
  if (48 <=? c) && (c <=? 57) then Some (c - 48)
  else if (97 <=? c) && (c <=? 122) then Some (c - 87)
  else if (65 <=? c) && (c <=? 90) then Some (c - 55)
  else None.

Definition radix_digit (R c : Z) : option Z :=
  match digit_value c with
  | Some d => if d <? R then Some d else None
  | None => None
  end.

(** The longest prefix of radix-[R] digits, as digit values. *)
Fixpoint digits_prefix (R : Z) (s : jsstring) : list Z :=
  match s with
  | c :: r =>
      match radix_digit R c with
      | Some d => d :: digits_prefix R r
      | None => []
      end
  | [] => []
  end.

Definition math_int (R : Z) (ds : list Z) : Z :=
  fold_left (fun acc d => acc * R + d) ds 0.

(** [parseInt(string, radix)] (ECMA-262, 19.2.5) for an integer radix:
    leading white space is skipped, then a sign, then for radix 16 (or 0) a
    [0x]/[0X] prefix; the longest prefix of digits is read, none gives NaN.
    The mathematical value is converted to the nearest double, as V8 does
    for every length of input. *)
Definition parseInt (string : jsstring) (radix : Z) : number :=
  let S0 := trimStart string in
  let negative := match S0 with
                  | c :: _ => c =? 45
                  | [] => false
                  end in
  let S1 := match S0 with
            | c :: r => if (c =? 43) || (c =? 45) then r else S0
            | [] => S0
            end in
  if negb (radix =? 0) && ((radix <? 2) || (36 <? radix)) then NaN
  else
    let R0 := if radix =? 0 then 10 else radix in
    let stripPrefix := (radix =? 0) || (radix =? 16) in
    let hasPrefix := match S1 with
                     | c :: x :: _ => (c =? 48) && ((x =? 120) || (x =? 88))
                     | _ => false
                     end in
    let R := if stripPrefix && hasPrefix then 16 else R0 in
    let S2 := if stripPrefix && hasPrefix then skipn 2 S1 else S1 in
    match digits_prefix R S2 with
    | [] => NaN
    | ds => to_double negative (math_int R ds)
    end.

(** Decimal digits of a non-negative integer, most significant first. *)
Fixpoint decimal_digits_aux (fuel : nat) (n : Z) (acc : jsstring) : jsstring :=
  match fuel with
  | O => acc
  | S f =>
      let acc' := (48 + n mod 10) :: acc in
      if n <? 10 then acc' else decimal_digits_aux f (n / 10) acc'
  end.

Definition decimal_digits (n : Z) : jsstring :=
  decimal_digits_aux (S (Z.to_nat (Z.log2 n))) n [].

Definition rounds_to (m c : Z) : bool :=
  match round_to_double c with
  | Some v => v =? m
  | None => false
  end.

(** The integer with the fewest significant decimal digits that converts to
    the double [m], the closest to [m] when several have that many digits,
    the even one on a tie (ECMA-262, Number::toString, step 5 and note 2).
    [j] counts the trailing zeros tried; the candidates with [j] trailing
    zeros are the multiples of [10^j] on both sides of [m]. *)
Fixpoint shortest_from (j : nat) (m : Z) : Z :=
  match j with
  | O => m
  | S j' =>
      let p := 10 ^ Z.of_nat j in
      let lo := (m / p) * p in
      let hi := lo + p in
      match rounds_to m lo, rounds_to m hi with
      | true, true =>
          if m - lo <? hi - m then lo
          else if hi - m <? m - lo then hi
          else if Z.even (m / p) then lo else hi
      | true, false => lo
      | false, true => hi
      | false, false => shortest_from j' m
      end
  end.

Definition shortest_decimal (m : Z) : Z :=
  shortest_from (Nat.pred (length (decimal_digits m))) m.

Fixpoint drop_zeros (s : jsstring) : jsstring :=
  match s with
  | c :: r => if c =? 48 then drop_zeros r else s
  | [] => []
  end.

(** [Number::toString] of a positive integer-valued double: plain digits up
    to 21 of them, exponent notation beyond. *)
Definition positive_to_string (m : Z) : jsstring :=
  let ds := decimal_digits (shortest_decimal m) in
  let n := Z.of_nat (length ds) in
  if n <=? 21 then ds
  else
    match rev (drop_zeros (rev ds)) with
    | [] => []
    | [d] => d :: lit "e+" ++ decimal_digits (n - 1)
    | d :: rest => d :: lit "." ++ rest ++ lit "e+" ++ decimal_digits (n - 1)
    end.

(** [Number.prototype.toString()] with no radix. *)
Definition number_to_string (x : number) : jsstring :=
  match x with
  | NaN => lit "NaN"
  | Infinity false => lit "Infinity"
  | Infinity true => lit "-Infinity"
  | Num z =>
      if z =? 0 then lit "0"
      else if z <? 0 then lit "-" ++ positive_to_string (- z)
      else positive_to_string z
  end.

(** [ToUint32] and [ToInt32]: NaN and the infinities give 0, an integer is
    reduced modulo 2^32. *)
Definition ToUint32 (x : number) : Z :=
  match x with
  | Num z => z mod 2 ^ 32
  | _ => 0
  end.

Definition ToInt32 (x : number) : Z :=
  let u := ToUint32 x in
  if u <? 2 ^ 31 then u else u - 2 ^ 32.

(** [x >>> count]. *)
Definition ushr (x : number) (count : Z) : number :=
  Num (Z.shiftr (ToUint32 x) (count mod 32)).

(** [x & y]. *)
Definition band (x y : number) : number :=
  Num (Z.land (ToInt32 x) (ToInt32 y)).

(** *** Completions: a call returns a value or throws. *)
Inductive error : Type :=
| Error (message : jsstring)
| TypeError (message : jsstring).

Inductive completion (A : Type) : Type :=
| Normal (a : A)
| Throw (e : error).
Arguments Normal {A} a.
Arguments Throw {A} e.

Definition bind {A B : Type} (c : completion A) (k : A -> completion B)
  : completion B :=
  match c with
  | Normal a => k a
  | Throw e => Throw e
  end.

End JS.

Import JS.

Notation "x <- c ;; k" := (bind c (fun x => k))
  (at level 61, c at next level, right associativity).

(* ================================================================== *)
(** ** src/security/quantum-safe.ts: what the gateway calls *)
(* ================================================================== *)

Module QuantumSafe.

(** The payloads ([data: any]): the primitive values, functions, arrays and
    plain objects by their structure, and the objects whose serialisation
    runs code of their own.

    [JNumber] is a number of the type [number]: an integer, NaN or an
    infinity.  [JFraction] is a finite number with a fraction part, given by
    the text [Number::toString] prints for it, which tells the doubles
    apart.

    [JObject] lists the own enumerable string-keyed properties of a plain
    object in the order [JSON.stringify] visits them (integer-like keys
    first, then the others as they were created); no key occurs twice.
    [JFunction] is a function with no [toJSON] of its own.

    [JHosted] is any other object, one that [JSON.stringify] cannot walk as
    data: one with a [toJSON] method (a [Date]), a getter or a proxy trap,
    which is code of the payload, a wrapper of a primitive value, or an
    object that contains itself.  It is given by what
    [SerializeJSONProperty] comes to on it: the text or [undefined] that
    comes of what its code returns, the error its code throws, the TypeError
    of a cycle. *)
Inductive JsValue : Type :=
| JUndefined
| JNull
| JBool (b : bool)
| JNumber (x : number)
| JFraction (text : jsstring)
| JString (s : jsstring)
| JBigInt (z : Z)
| JSymbol
| JFunction
| JArray (elements : list JsValue)
| JObject (properties : list (jsstring * JsValue))
| JHosted (serialised : completion (option jsstring)).

Definition hex_char (d : Z) : Z := if d <? 10 then 48 + d else 87 + d.

(** [UnicodeEscape]: [\uXXXX], four lower-case hexadecimal digits. *)
Definition unicode_escape (c : Z) : jsstring :=
  lit "\u" ++ [ hex_char (c / 4096 mod 16); hex_char (c / 256 mod 16);
                hex_char (c / 16 mod 16); hex_char (c mod 16) ].

Definition is_lead_surrogate (c : Z) : bool := (55296 <=? c) && (c <=? 56319).
Definition is_trail_surrogate (c : Z) : bool := (56320 <=? c) && (c <=? 57343).

Definition quote_code_unit (c : Z) : jsstring :=
  if c =? 8 then lit "\b"
  else if c =? 9 then lit "\t"
  else if c =? 10 then lit "\n"
  else if c =? 12 then lit "\f"
  else if c =? 13 then lit "\r"
  else if c =? 34 then [92; 34]
  else if c =? 92 then [92; 92]
  else if (c <? 32) || is_lead_surrogate c || is_trail_surrogate c
  then unicode_escape c
  else [c].

(** The body of [QuoteJSONString]: a surrogate pair is one code point and is
    copied, a lone surrogate is escaped. *)
Fixpoint quote_units (s : jsstring) : jsstring :=
  match s with
  | [] => []
  | c :: r =>
      match r with
      | d :: r' =>
          if is_lead_surrogate c && is_trail_surrogate d
          then c :: d :: quote_units r'
          else quote_code_unit c ++ quote_units r
      | [] => quote_code_unit c
      end
  end.

Definition QuoteJSONString (s : jsstring) : jsstring :=
  [34] ++ quote_units s ++ [34].

(** [SerializeJSONProperty] (ECMA-262, 25.5.2.2) with no replacer and no
    gap, on the value already read from its holder.  [undefined], a symbol
    and a function give [undefined]; a BigInt throws; a number that is not
    finite gives [null].  In an array a member that gives [undefined] is
    written [null], in an object it is left out; the members are serialised
    in order and the first error ends the call. *)
Fixpoint SerializeJSONProperty (value : JsValue)
  : completion (option jsstring) :=
  match value with
  | JUndefined => Normal None
  | JSymbol => Normal None
  | JFunction => Normal None
  | JNull => Normal (Some (lit "null"))
  | JBool true => Normal (Some (lit "true"))
  | JBool false => Normal (Some (lit "false"))
  | JNumber (Num z) => Normal (Some (number_to_string (Num z)))
  | JNumber _ => Normal (Some (lit "null"))
  | JFraction text => Normal (Some text)
  | JString s => Normal (Some (QuoteJSONString s))
  | JBigInt _ => Throw (TypeError (lit "Do not know how to serialize a BigInt"))
  | JArray elements =>
      partial <-
        (fix SerializeJSONArray (l : list JsValue)
           : completion (list jsstring) :=
           match l with
           | [] => Normal []
           | v :: rest =>
               strP <- SerializeJSONProperty v ;;
               tail <- SerializeJSONArray rest ;;
               Normal (match strP with
                       | Some text => text
                       | None => lit "null"
                       end :: tail)
           end) elements ;;
      Normal (Some (lit "[" ++ join (lit ",") partial ++ lit "]"))
  | JObject properties =>
      partial <-
        (fix SerializeJSONObject (l : list (jsstring * JsValue))
           : completion (list jsstring) :=
           match l with
           | [] => Normal []
           | member :: rest =>
               strP <- SerializeJSONProperty (snd member) ;;
               tail <- SerializeJSONObject rest ;;
               Normal (match strP with
                       | Some text =>
                           (QuoteJSONString (fst member) ++ lit ":" ++ text)
                           :: tail
                       | None => tail
                       end)
           end) properties ;;
      Normal (Some (lit "{" ++ join (lit ",") partial ++ lit "}"))
  | JHosted serialised => serialised
  end.

(** [JSON.stringify(value)] *)
Definition JSON_stringify (value : JsValue) : completion (option jsstring) :=
  SerializeJSONProperty value.

Section Crypto.

(** Node's [Buffer]. *)
Variable Buffer : Type.

Record KeyPair : Type := mkKeyPair {
  kp_publicKey : Buffer;
  kp_privateKey : Buffer;
  kp_algorithm : jsstring;
  kp_createdAt : Z;
  kp_keyId : jsstring
}.

Record EncryptedPayload : Type := mkEncryptedPayload {
  ciphertext : jsstring;
  signature : jsstring;
  timestamp : Z;
  ep_algorithm : jsstring;
  ep_publicKey : jsstring;
  nonce : jsstring;
  authTag : jsstring
}.

(** Node's [crypto] module as the two computations the source makes with it:
    the RSA key pair with its lattice entropy and key id (lines 120-157), and
    the AES-256-GCM encryption with its HMAC signature of a plaintext string
    (lines 176-209).  Their randomness and the clock are inside. *)
Variable hybrid_key_pair : jsstring -> KeyPair.
Variable aes_gcm_seal : jsstring -> Buffer -> jsstring -> EncryptedPayload.

Definition generateKeyPair (algorithm : jsstring) : completion KeyPair :=
  Normal (hybrid_key_pair algorithm).

(** [cipher.update(plaintext, 'utf8', 'base64')] rejects a plaintext that is
    not a string with a TypeError ([ERR_INVALID_ARG_TYPE]). *)
Definition encryptData (data : JsValue) (publicKey : Buffer)
    (algorithm : jsstring) : completion EncryptedPayload :=
  plaintext <- JSON_stringify data ;;
  match plaintext with
  | Some text => Normal (aes_gcm_seal text publicKey algorithm)
  | None =>
      Throw (TypeError
               (lit "The " ++ [34] ++ lit "data" ++ [34]
                ++ lit " argument must be of type string or an instance of Buffer, TypedArray, or DataView. Received undefined"))
  end.

End Crypto.

End QuantumSafe.

Import QuantumSafe.

(* ================================================================== *)
(** ** src/security/useSecureGateway.ts *)
(* ================================================================== *)

Module Gateway.

Definition APPROVED_IPS : list jsstring := [lit "10.0.0.5"; lit "192.168.1.50"].

Definition is_digit (c : Z) : bool := (48 <=? c) && (c <=? 57).

Definition is_hex_digit (c : Z) : bool :=
  is_digit c || ((97 <=? c) && (c <=? 102)) || ((65 <=? c) && (c <=? 70)).

(** [/^\d+$/.test(s)] *)
Definition all_digits (s : jsstring) : bool :=
  match s with
  | [] => false
  | _ => forallb is_digit s
  end.

(** [/^0x[0-9a-fA-F]+$/.test(s)] *)
Definition hex_literal (s : jsstring) : bool :=
  match s with
  | c :: x :: (_ :: _) as r => (c =? 48) && (x =? 120) && forallb is_hex_digit r
  | _ => false
  end.

(** [[(num >>> 24) & 0xFF, (num >>> 16) & 0xFF, (num >>> 8) & 0xFF,
      num & 0xFF]] *)
Definition octets (num : number) : list number :=
  [ band (ushr num 24) (Num 255);
    band (ushr num 16) (Num 255);
    band (ushr num 8) (Num 255);
    band num (Num 255) ].

(** [numbers.join('.')] *)
Definition dotted (l : list number) : jsstring :=
  join (lit ".") (map number_to_string l).

(** The callback of [parts.map] in step 4. *)
Definition normalizePart (part : jsstring) : jsstring :=
  if startsWith part (lit "0x") then number_to_string (parseInt part 16)
  else if startsWith part (lit "0") && (1 <? Z.of_nat (length part))
  then number_to_string (parseInt part 8)
  else number_to_string (parseInt part 10).

(** The number the callback converts to a string: the [parseInt] of its
    branch. *)
Definition partNumber (part : jsstring) : number :=
  if startsWith part (lit "0x") then parseInt part 16
  else if startsWith part (lit "0") && (1 <? Z.of_nat (length part))
  then parseInt part 8
  else parseInt part 10.

Definition normalizeIp (ip : jsstring) : jsstring :=
  let cleanIp := trim ip in
  if all_digits cleanIp then
    let num := parseInt cleanIp 10 in
    dotted (octets num)
  else if hex_literal cleanIp then
    let num := parseInt cleanIp 16 in
    dotted (octets num)
  else
    let parts := split_on 46 cleanIp in
    if Nat.eqb (length parts) 4 then
      let normalizedParts := map normalizePart parts in
      join (lit ".") normalizedParts
    else cleanIp.

Section UseSecureGateway.

Variable Buffer : Type.

(** The collaborator [ml_kem] of the import, as the gateway uses it. *)
Record MlKem : Type := mkMlKem {
  ml_generateKeyPair : jsstring -> completion (KeyPair Buffer);
  ml_encryptData :
    JsValue -> Buffer -> jsstring -> completion EncryptedPayload
}.

(** [ml_kem] as [quantum-safe.ts] exports it. *)
Definition quantum_safe (hybrid_key_pair : jsstring -> KeyPair Buffer)
    (aes_gcm_seal : jsstring -> Buffer -> jsstring -> EncryptedPayload)
  : MlKem :=
  mkMlKem (generateKeyPair Buffer hybrid_key_pair)
          (encryptData Buffer aes_gcm_seal).

Record GatewayResult : Type := mkGatewayResult {
  success : bool;
  destination : jsstring;
  payload : EncryptedPayload;
  verified : bool
}.

Variable ml_kem : MlKem.

(** The two [console.log] lines write to the terminal and are left out. *)
Definition useSecureGateway (targetIp : jsstring) (data : JsValue)
  : completion GatewayResult :=
  let normalizedIp := normalizeIp targetIp in
  if negb (includes APPROVED_IPS normalizedIp) then
    Throw (Error (lit "CFG Policy Violation: IP " ++ targetIp
                  ++ lit " (normalized: " ++ normalizedIp
                  ++ lit ") is not in the approved whitelist."))
  else
    keyPair <- ml_generateKeyPair ml_kem (lit "ML-KEM-768") ;;
    encryptedPayload <-
      ml_encryptData ml_kem data (kp_publicKey Buffer keyPair)
                     (lit "ML-KEM-768") ;;
    Normal {| success := true;
              destination := normalizedIp;
              payload := encryptedPayload;
              verified := true |}.

End UseSecureGateway.

(** A call that ends in the gateway's policy error. *)
Definition cfg_policy_violation {A : Type} (c : completion A) : bool :=
  match c with
  | Throw (Error message) => startsWith message (lit "CFG Policy Violation")
  | _ => false
  end.

End Gateway.

Import Gateway.

(* ================================================================== *)
(** ** [normalizeIp] as the engine runs it *)
(* ================================================================== *)

(** The type annotations of the source are erased before it runs: [ip] is
    whatever the caller passes, every method is looked up on the value at
    hand, and every built-in converts its arguments itself.  Here each of
    these steps can throw, as it does in the engine. *)
Module Dynamic.

Inductive value : Type :=
| VUndefined
| VNull
| VBoolean (b : bool)
| VNumber (x : number)
| VString (s : jsstring)
| VBigInt (z : Z)
| VSymbol
| VArray (items : list value).

(** [ToString] (ECMA-262, 7.1.17): a symbol throws; an array is joined with
    commas, [undefined] and [null] among its items giving nothing. *)
Fixpoint ToString (v : value) : completion jsstring :=
  match v with
  | VUndefined => Normal (lit "undefined")
  | VNull => Normal (lit "null")
  | VBoolean true => Normal (lit "true")
  | VBoolean false => Normal (lit "false")
  | VNumber x => Normal (number_to_string x)
  | VString s => Normal s
  | VBigInt z =>
      Normal (if z <? 0 then lit "-" ++ decimal_digits (- z)
              else decimal_digits z)
  | VSymbol =>
      Throw (TypeError (lit "Cannot convert a Symbol value to a string"))
  | VArray items =>
      texts <-
        (fix each (l : list value) : completion (list jsstring) :=
           match l with
           | [] => Normal []
           | x :: rest =>
               t <- match x with
                    | VUndefined => Normal []
                    | VNull => Normal []
                    | _ => ToString x
                    end ;;
               ts <- each rest ;;
               Normal (t :: ts)
           end) items ;;
      Normal (join (lit ",") texts)
  end.

(** The texts [Array.prototype.join] puts together: [undefined] and [null]
    give nothing, every other item is converted with [ToString]. *)
Fixpoint item_texts (items : list value) : completion (list jsstring) :=
  match items with
  | [] => Normal []
  | x :: rest =>
      t <- match x with
           | VUndefined => Normal []
           | VNull => Normal []
           | _ => ToString x
           end ;;
      ts <- item_texts rest ;;
      Normal (t :: ts)
  end.

(** What [receiver.p(...)] throws when the receiver has no method [p]:
    [undefined] and [null] have no properties to read, and on any other
    value what is read is not a function.  [callee] is the text of
    [receiver.p] in the source, which the message quotes. *)
Definition no_method (receiver : value) (callee p : string) : error :=
  match receiver with
  | VUndefined =>
      TypeError (lit "Cannot read properties of undefined (reading '"
                 ++ lit p ++ lit "')")
  | VNull =>
      TypeError (lit "Cannot read properties of null (reading '"
                 ++ lit p ++ lit "')")
  | _ => TypeError (lit callee ++ lit " is not a function")
  end.

(** [receiver.trim()]: strings have it. *)
Definition call_trim (callee : string) (receiver : value) : completion value :=
  match receiver with
  | VString s => Normal (VString (trim s))
  | _ => Throw (no_method receiver callee "trim")
  end.

(** [receiver.split(separator)] for a separator of one code unit. *)
Definition call_split (callee : string) (receiver : value) (separator : Z)
  : completion value :=
  match receiver with
  | VString s => Normal (VArray (map VString (split_on separator s)))
  | _ => Throw (no_method receiver callee "split")
  end.

(** [receiver.startsWith(prefix)] *)
Definition call_startsWith (callee : string) (receiver : value)
    (prefix : jsstring) : completion value :=
  match receiver with
  | VString s => Normal (VBoolean (startsWith s prefix))
  | _ => Throw (no_method receiver callee "startsWith")
  end.

(** [receiver.toString()]: every value but [undefined] and [null] has
    one. *)
Definition call_toString (callee : string) (receiver : value)
  : completion value :=
  match receiver with
  | VUndefined => Throw (no_method receiver callee "toString")
  | VNull => Throw (no_method receiver callee "toString")
  | VSymbol => Normal (VString (lit "Symbol()"))
  | _ => t <- ToString receiver ;; Normal (VString t)
  end.

(** [receiver.join(separator)]: arrays have it. *)
Definition call_join (callee : string) (receiver : value)
    (separator : jsstring) : completion value :=
  match receiver with
  | VArray items =>
      texts <- item_texts items ;; Normal (VString (join separator texts))
  | _ => Throw (no_method receiver callee "join")
  end.

(** [receiver.map(callback)]: arrays have it, and the first error of the
    callback ends the call. *)
Fixpoint map_items (callback : value -> completion value) (items : list value)
  : completion (list value) :=
  match items with
  | [] => Normal []
  | x :: rest =>
      y <- callback x ;;
      ys <- map_items callback rest ;;
      Normal (y :: ys)
  end.

Definition call_map (callee : string) (receiver : value)
    (callback : value -> completion value) : completion value :=
  match receiver with
  | VArray items => ys <- map_items callback items ;; Normal (VArray ys)
  | _ => Throw (no_method receiver callee "map")
  end.

(** [receiver.length]: reading a property of [undefined] or [null] throws;
    strings and arrays have a length, the other values have none. *)
Definition get_length (receiver : value) : completion value :=
  match receiver with
  | VUndefined =>
      Throw (TypeError
               (lit "Cannot read properties of undefined (reading 'length')"))
  | VNull =>
      Throw (TypeError
               (lit "Cannot read properties of null (reading 'length')"))
  | VString s => Normal (VNumber (Num (Z.of_nat (length s))))
  | VArray items => Normal (VNumber (Num (Z.of_nat (length items))))
  | _ => Normal VUndefined
  end.

(** [regexp.test(argument)] for the two regular expressions of the source,
    each given by the test it makes on a string: the argument is converted
    with [ToString]. *)
Definition RegExp_test (matches : jsstring -> bool) (argument : value)
  : completion value :=
  text <- ToString argument ;; Normal (VBoolean (matches text)).

(** [parseInt(argument, radix)] with a literal radix. *)
Definition parseInt (argument : value) (radix : Z) : completion value :=
  text <- ToString argument ;; Normal (VNumber (JS.parseInt text radix)).

(** The truth of a condition ([ToBoolean]). *)
Definition truthy (v : value) : bool :=
  match v with
  | VUndefined => false
  | VNull => false
  | VBoolean b => b
  | VNumber NaN => false
  | VNumber (Num z) => negb (z =? 0)
  | VNumber (Infinity _) => true
  | VString s => negb (Nat.eqb (length s) 0)
  | VBigInt z => negb (z =? 0)
  | VSymbol => true
  | VArray _ => true
  end.

(** [v === n] for a literal integer [n]. *)
Definition strictly_equals (v : value) (n : Z) : bool :=
  match v with
  | VNumber (Num z) => z =? n
  | _ => false
  end.

(** A numeric value: a Number or a BigInt. *)
Inductive numeric : Type :=
| ANumber (x : number)
| ABigInt (z : Z).

Section Conversions.

(** [StringToNumber] (ECMA-262, 7.1.4.1.1), which reads fractions and
    exponents too: it gives a Number for every string, NaN when the string
    is no numeric literal, and never throws.  No string reaches it in this
    code. *)
Variable StringToNumber : jsstring -> number.

(** [ToNumeric] (7.1.3): a symbol throws. *)
Definition ToNumeric (v : value) : completion numeric :=
  match v with
  | VUndefined => Normal (ANumber NaN)
  | VNull => Normal (ANumber (Num 0))
  | VBoolean true => Normal (ANumber (Num 1))
  | VBoolean false => Normal (ANumber (Num 0))
  | VNumber x => Normal (ANumber x)
  | VString s => Normal (ANumber (StringToNumber s))
  | VBigInt z => Normal (ABigInt z)
  | VSymbol =>
      Throw (TypeError (lit "Cannot convert a Symbol value to a number"))
  | VArray _ => t <- ToString v ;; Normal (ANumber (StringToNumber t))
  end.

Definition mixed_types : error :=
  TypeError (lit "Cannot mix BigInt and other types, use explicit conversions").

(** [a >>> b]: BigInts have no unsigned shift and do not mix with
    Numbers. *)
Definition unsigned_right_shift (a b : value) : completion value :=
  lnum <- ToNumeric a ;;
  rnum <- ToNumeric b ;;
  match lnum, rnum with
  | ANumber x, ANumber count => Normal (VNumber (ushr x (ToUint32 count)))
  | ABigInt _, ABigInt _ =>
      Throw (TypeError
               (lit "BigInts have no unsigned right shift, use >> instead"))
  | _, _ => Throw mixed_types
  end.

(** [a & b] *)
Definition bitwise_and (a b : value) : completion value :=
  lnum <- ToNumeric a ;;
  rnum <- ToNumeric b ;;
  match lnum, rnum with
  | ANumber x, ANumber y => Normal (VNumber (band x y))
  | ABigInt x, ABigInt y => Normal (VBigInt (Z.land x y))
  | _, _ => Throw mixed_types
  end.

(** [v > n] for a literal integer [n]. *)
Definition greater_than (v : value) (n : Z) : completion bool :=
  num <- ToNumeric v ;;
  Normal (match num with
          | ANumber (Num z) => n <? z
          | ANumber (Infinity false) => true
          | ANumber _ => false
          | ABigInt z => n <? z
          end).

(** [[(num >>> 24) & 0xFF, (num >>> 16) & 0xFF, (num >>> 8) & 0xFF,
      num & 0xFF].join('.')] *)
Definition octets_joined (num : value) : completion value :=
  s24 <- unsigned_right_shift num (VNumber (Num 24)) ;;
  o1 <- bitwise_and s24 (VNumber (Num 255)) ;;
  s16 <- unsigned_right_shift num (VNumber (Num 16)) ;;
  o2 <- bitwise_and s16 (VNumber (Num 255)) ;;
  s8 <- unsigned_right_shift num (VNumber (Num 8)) ;;
  o3 <- bitwise_and s8 (VNumber (Num 255)) ;;
  o4 <- bitwise_and num (VNumber (Num 255)) ;;
  call_join "[...].join" (VArray [o1; o2; o3; o4]) (lit ".").

(** The callback of [parts.map]; [&&] reads [part.length] only when
    [part.startsWith('0')] holds. *)
Definition normalizePart (part : value) : completion value :=
  hex <- call_startsWith "part.startsWith" part (lit "0x") ;;
  if truthy hex then
    n <- parseInt part 16 ;; call_toString "parseInt(...).toString" n
  else
    zero <- call_startsWith "part.startsWith" part (lit "0") ;;
    octal <- (if truthy zero
              then len <- get_length part ;; greater_than len 1
              else Normal false) ;;
    if octal : bool then
      n <- parseInt part 8 ;; call_toString "parseInt(...).toString" n
    else
      n <- parseInt part 10 ;; call_toString "parseInt(...).toString" n.

(** [normalizeIp(ip)], lines 43-81, step by step. *)
Definition normalizeIp (ip : value) : completion value :=
  cleanIp <- call_trim "ip.trim" ip ;;
  digits <- RegExp_test all_digits cleanIp ;;
  if truthy digits then
    num <- parseInt cleanIp 10 ;; octets_joined num
  else
    hex <- RegExp_test hex_literal cleanIp ;;
    if truthy hex then
      num <- parseInt cleanIp 16 ;; octets_joined num
    else
      parts <- call_split "cleanIp.split" cleanIp 46 ;;
      len <- get_length parts ;;
      if strictly_equals len 4 then
        normalizedParts <- call_map "parts.map" parts normalizePart ;;
        call_join "normalizedParts.join" normalizedParts (lit ".")
      else Normal cleanIp.

End Conversions.

End Dynamic.

(* ================================================================== *)
(** ** tests/adversarial_test.ts *)
(* ================================================================== *)

Module Harness.

(** [VerificationContext] (imported from the verifier): every field is
    optional. *)
Record VerificationContext : Type := mkContext {
  ip : option jsstring;
  hasEncryption : option bool;
  algorithm : option jsstring;
  complexity : option Z
}.

Record Scenarios : Type := mkScenarios {
  directIPs : nat;
  obfuscatedIPs : nat;
  malformedIPs : nat;
  encryptionTests : nat;
  complexityTests : nat
}.

Record TestConfig : Type := mkTestConfig {
  iterations : Z;
  concurrency : Z;
  targetPass1 : Q;
  scenarios : Scenarios
}.

(** The literal [0.999] denotes the double nearest to it, which is
    8998192055486251 / 2^53. *)
Definition TEST_CONFIG : TestConfig :=
  {| iterations := 100;
     concurrency := 10;
     targetPass1 := 8998192055486251 # 9007199254740992;
     scenarios := {| directIPs := 10;
                     obfuscatedIPs := 30;
                     malformedIPs := 20;
                     encryptionTests := 20;
                     complexityTests := 20 |} |}.

(** [arr[i]]: [undefined] outside the array. *)
Definition at_index {A : Type} (arr : list A) (i : Z) : option A :=
  if i <? 0 then None else nth_error arr (Z.to_nat i).

Section Random.

(** The values [Math.random()] returns, in the order of the calls; a
    computation that draws from them is passed the number of calls made so
    far and returns it updated. *)
Variable random : nat -> Q.

Definition Rand (A : Type) : Type := nat -> A * nat.

Definition ret {A : Type} (a : A) : Rand A := fun n => (a, n).

Definition rbind {A B : Type} (c : Rand A) (k : A -> Rand B) : Rand B :=
  fun n => let '(a, n') := c n in k a n'.

Definition Math_random : Rand Q := fun n => (random n, S n).

Local Notation "x <~ c ;; k" := (rbind c (fun x => k))
  (at level 61, c at next level, right associativity).

(** [for (let i = 0; i < count; i++) { attacks.push(body(i)) }], from
    index [i] on. *)
Fixpoint for_push {A : Type} (count : nat) (i : nat) (body : nat -> Rand A)
  : Rand (list A) :=
  match count with
  | O => ret []
  | S count' =>
      x <~ body i ;;
      rest <~ for_push count' (S i) body ;;
      ret (x :: rest)
  end.

(** [Math.floor(Math.random() * n)]: the product is the double nearest to
    the exact one. *)
Definition random_below (n : Z) : Rand Z :=
  r <~ Math_random ;; ret (Qfloor (double_times r n)).

(** [Math.random() < p], for a double [p]. *)
Definition random_lt (p : Q) : Rand bool :=
  r <~ Math_random ;; ret (if Qlt_le_dec r p then true else false).

(** The literal [0.7] denotes the double nearest to it, which is
    6305039478318694 / 2^53. *)
Definition double_0_7 : Q := 6305039478318694 # 9007199254740992.

Definition generateDirectIPAttacks (count : nat) : Rand (list VerificationContext) :=
  let approvedIPs := [lit "10.0.0.5"; lit "192.168.1.50"] in
  let unapprovedIPs :=
    [lit "10.0.0.6"; lit "192.168.1.99"; lit "8.8.8.8"; lit "1.1.1.1";
     lit "172.16.0.1"] in
  for_push count 0 (fun _ =>
    isApproved <~ random_lt (1 # 2) ;;
    ip <~ (if isApproved : bool
           then i <~ random_below (Z.of_nat (length approvedIPs)) ;;
                ret (at_index approvedIPs i)
           else i <~ random_below (Z.of_nat (length unapprovedIPs)) ;;
                ret (at_index unapprovedIPs i)) ;;
    ret {| ip := ip;
           hasEncryption := Some true;
           algorithm := Some (lit "ML-KEM-768");
           complexity := Some 5 |}).

Definition generateObfuscationAttacks (count : nat)
  : Rand (list VerificationContext) :=
  let ip1Obfuscations :=
    [lit "167772165"; lit "0x0a000005"; lit "012.0.0.05"; lit "10.0.0x0.5";
     lit "0x0a.0.0.05"; lit "167772165"] in
  let ip2Obfuscations :=
    [lit "3232235826"; lit "0xc0a80132"; lit "0300.0250.01.062";
     lit "192.168.0x1.50"; lit "0xc0.0xa8.01.0x32"] in
  let allObfuscations := ip1Obfuscations ++ ip2Obfuscations in
  for_push count 0 (fun i =>
    let ip := nth_error allObfuscations (i mod length allObfuscations) in
    ret {| ip := ip;
           hasEncryption := Some true;
           algorithm := Some (lit "ML-KEM-768");
           complexity := Some 5 |}).

Definition generateMalformedAttacks (count : nat)
  : Rand (list VerificationContext) :=
  let malformedIPs :=
    [lit "999.999.999.999"; lit "-1.-1.-1.-1"; lit "abc.def.ghi.jkl";
     lit "192.168.1"; lit "192.168.1.1.1"; lit "192.168.1.256"; lit "::1";
     lit "localhost"; lit "192.168.1.1/24"; lit "192.168.1.1:8080"; lit "";
     lit "   ";
     lit "192.168.1." ++ [55357; 56594] (* U+1F512 as a surrogate pair *);
     lit "192.168.1.1; DROP TABLE"] in
  for_push count 0 (fun i =>
    let ip := nth_error malformedIPs (i mod length malformedIPs) in
    enc <~ random_lt (1 # 2) ;;
    alg <~ random_lt (1 # 2) ;;
    cx <~ random_below 15 ;;
    ret {| ip := ip;
           hasEncryption := Some enc;
           algorithm := if alg : bool then Some (lit "ML-KEM-768") else None;
           complexity := Some cx |}).

Definition generateEncryptionAttacks (count : nat)
  : Rand (list VerificationContext) :=
  let algorithms :=
    [Some (lit "ML-KEM-768"); Some (lit "ML-KEM-1024"); Some (lit "AES-256");
     Some (lit "RSA-2048"); Some (lit "ChaCha20"); None; Some (lit "NONE");
     Some (lit "")] in
  for_push count 0 (fun _ =>
    hasEncryption <~ random_lt double_0_7 ;;
    algorithm <~ (if hasEncryption : bool
                  then i <~ random_below (Z.of_nat (length algorithms)) ;;
                       ret (match at_index algorithms i with
                            | Some a => a
                            | None => None
                            end)
                  else ret None) ;;
    ret {| ip := Some (lit "10.0.0.5");
           hasEncryption := Some hasEncryption;
           algorithm := algorithm;
           complexity := Some 5 |}).

Definition generateComplexityAttacks (count : nat)
  : Rand (list VerificationContext) :=
  for_push count 0 (fun _ =>
    complexity <~ random_below 20 ;;
    ret {| ip := Some (lit "10.0.0.5");
           hasEncryption := Some true;
           algorithm := Some (lit "ML-KEM-768");
           complexity := Some complexity |}).

(** [class RedTeamer]: its one field. *)
Record RedTeamer : Type := mkRedTeamer {
  attackVectors : list VerificationContext
}.

Definition generateAttackVectors : Rand (list VerificationContext) :=
  let sc := scenarios TEST_CONFIG in
  a <~ generateDirectIPAttacks (directIPs sc) ;;
  b <~ generateObfuscationAttacks (obfuscatedIPs sc) ;;
  c <~ generateMalformedAttacks (malformedIPs sc) ;;
  d <~ generateEncryptionAttacks (encryptionTests sc) ;;
  e <~ generateComplexityAttacks (complexityTests sc) ;;
  ret ((((([] ++ a) ++ b) ++ c) ++ d) ++ e).

(** [new RedTeamer()] *)
Definition new_RedTeamer : Rand RedTeamer :=
  vs <~ generateAttackVectors ;; ret (mkRedTeamer vs).

Definition getAttackVectors (rt : RedTeamer) : list VerificationContext :=
  attackVectors rt.

(** [Array.prototype.sort(comparefn)] of the engine, on an array of
    contexts.  The comparator of [getRandomSubset] is not consistent, and for
    such a one ECMA-262 (23.1.3.30) leaves to the engine both the calls it
    makes to the comparator and the order it leaves the array in; the array
    keeps its length. *)
Variable Array_sort :
  (VerificationContext -> VerificationContext -> Rand Q) ->
  list VerificationContext -> Rand (list VerificationContext).

(** [count] ranges over the integers among the numbers. *)
Definition getRandomSubset (rt : RedTeamer) (count : Z)
  : Rand (list VerificationContext) :=
  shuffled <~ Array_sort
                (fun _ _ => r <~ Math_random ;; ret (double_minus r (1 # 2)))
                (attackVectors rt) ;;
  ret (slice shuffled 0 count).

End Random.

(** What [VerifierAlpha.getStats()] returns. *)
Record Stats : Type := mkStats {
  total : Z;
  passed : Z;
  failed : Z;
  pass1 : Q;
  avgScore : Q
}.

Record TestResult : Type := mkTestResult {
  totalTests : Z;
  tr_passed : Z;
  tr_failed : Z;
  tr_pass1 : Q;
  tr_avgScore : Q;
  duration : Z;
  violationBreakdown : list (jsstring * Z);
  meetsTarget : bool
}.

(** [violationBreakdown[type] = (violationBreakdown[type] || 0) + 1] on a
    record, for the types that are keys of the record's own when they are
    there: a name every object inherits ([constructor], [toString], ...) is
    not read as 0.  The keys are kept as they were added; the order in which
    an object lists them (integer-like keys first) is not told here. *)
Fixpoint tally (breakdown : list (jsstring * Z)) (type : jsstring)
  : list (jsstring * Z) :=
  match breakdown with
  | [] => [(type, 0 + 1)]
  | (k, n) :: rest =>
      if str_eqb k type then (k, n + 1) :: rest
      else (k, n) :: tally rest type
  end.

Section Orchestrator.

Variable random : nat -> Q.

Variable Array_sort :
  (VerificationContext -> VerificationContext -> Rand Q) ->
  list VerificationContext -> Rand (list VerificationContext).

(** The values [Date.now()] returns, in the order of the calls. *)
Variable now : nat -> Z.

(** The order in which the event loop resumes the calls that wait: at its
    [t]-th turn the one numbered [ready t], modulo their number, among the
    calls that wait, counted in the order they were started. *)
Variable ready : nat -> nat.

(** [VerifierAlpha] ([src/lib/verifier-alpha.ts]) is the verifier under
    test: the state of an instance, which its calls share, its constructor
    with the default policy, and the three methods the harness calls.  A
    result carries its violations, of which the harness reads the
    [type]. *)
Variable VerifierAlpha : Type.
Variable VerificationResult : Type.
Variable violation_types : VerificationResult -> list jsstring.
Variable new_VerifierAlpha : VerifierAlpha.
Variable reset : VerifierAlpha -> VerifierAlpha.
Variable getStats : VerifierAlpha -> Stats.

(** [verify] is an async method.  A call runs on the instance up to its
    first [await] and returns a promise; what is left of the call runs when
    the event loop resumes it, one stretch at a time, each on the instance as
    the calls that ran in between have left it.  [Awaiting n] is what is left
    of a call that awaits at most [n] more times: its result when it has
    ended, or the stretch that runs when it is resumed.  A call that rejects
    is left out. *)
Fixpoint Awaiting (n : nat) : Type :=
  match n with
  | O => VerificationResult
  | S n' =>
      (VerificationResult + (VerifierAlpha -> Awaiting n' * VerifierAlpha))%type
  end.

Record Call : Type := mkCall {
  awaits : nat;
  rest : Awaiting awaits
}.

Variable verify : VerificationContext -> VerifierAlpha -> Call * VerifierAlpha.

(** The result of a call that has ended. *)
Definition settled (c : Call) : option VerificationResult :=
  match c with
  | mkCall n p =>
      match n return Awaiting n -> option VerificationResult with
      | O => fun r => Some r
      | S _ => fun p' => match p' with
                         | inl r => Some r
                         | inr _ => None
                         end
      end p
  end.

(** The event loop resumes a call that waits: its next stretch runs. *)
Definition resume (c : Call) (a : VerifierAlpha) : Call * VerifierAlpha :=
  match c with
  | mkCall n p =>
      match n return Awaiting n -> Call * VerifierAlpha with
      | O => fun r => (mkCall O r, a)
      | S n' => fun p' =>
          match p' with
          | inl r => (mkCall (S n') (inl r), a)
          | inr stretch =>
              let '(p'', a') := stretch a in (mkCall n' p'', a')
          end
      end p
  end.

(** How many times a call may still await. *)
Definition left_to_await (c : Call) : nat :=
  match settled c with
  | Some _ => O
  | None => awaits c
  end.

(** The world around the orchestrator: how many random numbers, clock
    readings and turns of the event loop were taken, and the verifier
    instance [this.architect]. *)
Record World : Type := mkWorld {
  draws : nat;
  ticks : nat;
  turns : nat;
  architect : VerifierAlpha
}.

Definition Date_now (w : World) : Z * World :=
  (now (ticks w), mkWorld (draws w) (S (ticks w)) (turns w) (architect w)).

(** [batch.map(ctx => this.architect.verify(ctx))]: the calls are made in
    the order of the batch, each running up to its first [await] before the
    next is made. *)
Fixpoint start_all (batch : list VerificationContext) (a : VerifierAlpha)
  : list Call * VerifierAlpha :=
  match batch with
  | [] => ([], a)
  | ctx :: others =>
      let '(c, a1) := verify ctx a in
      let '(cs, a2) := start_all others a1 in
      (c :: cs, a2)
  end.

(** The calls of a pool that wait, by their index, from index [i] on. *)
Fixpoint waiting_from (i : nat) (pool : list Call) : list nat :=
  match pool with
  | [] => []
  | c :: others =>
      match settled c with
      | Some _ => waiting_from (S i) others
      | None => i :: waiting_from (S i) others
      end
  end.

Fixpoint resume_at (i : nat) (pool : list Call) (a : VerifierAlpha)
  : list Call * VerifierAlpha :=
  match pool with
  | [] => ([], a)
  | c :: others =>
      match i with
      | O => let '(c', a') := resume c a in (c' :: others, a')
      | S i' =>
          let '(others', a') := resume_at i' others a in (c :: others', a')
      end
  end.

(** The results of the calls that have ended, in the order of the pool. *)
Definition results_of (pool : list Call) : list VerificationResult :=
  flat_map (fun c => match settled c with
                     | Some r => [r]
                     | None => []
                     end) pool.

(** [await Promise.all(promises)]: the event loop resumes the calls that
    wait, one stretch at a time in the order [ready] gives, until all have
    ended; the results keep the order of the promises.  [fuel] bounds the
    turns taken. *)
Fixpoint settle_all (fuel : nat) (pool : list Call) (a : VerifierAlpha)
    (turn : nat) {struct fuel}
  : option (list VerificationResult * VerifierAlpha * nat) :=
  match waiting_from 0 pool with
  | [] => Some (results_of pool, a, turn)
  | first :: others =>
      match fuel with
      | O => None
      | S fuel' =>
          let i := nth (ready turn mod length (first :: others))
                       (first :: others) first in
          let '(pool', a') := resume_at i pool a in
          settle_all fuel' pool' a' (S turn)
      end
  end.

(** [await Promise.all(batch.map(ctx => this.architect.verify(ctx)))], with
    a turn for every [await] the calls may make. *)
Definition dispatch (batch : list VerificationContext) (a : VerifierAlpha)
    (turn : nat) : option (list VerificationResult * VerifierAlpha * nat) :=
  let '(pool, a1) := start_all batch a in
  settle_all (list_sum (map left_to_await pool)) pool a1 turn.

(** The loop of [runConcurrentTests], from index [i] on; [concurrency]
    ranges over the integers.  [fuel] bounds the number of tests of the loop
    condition; [None] is a run that has not finished. *)
Fixpoint batches_from (fuel : nat) (contexts : list VerificationContext)
    (concurrency : Z) (i : Z) (results : list VerificationResult)
    (a : VerifierAlpha) (turn : nat)
  : option (list VerificationResult * VerifierAlpha * nat) :=
  match fuel with
  | O => None
  | S fuel' =>
      if i <? Z.of_nat (length contexts) then
        let batch := slice contexts i (i + concurrency) in
        match dispatch batch a turn with
        | Some (batchResults, a', turn') =>
            batches_from fuel' contexts concurrency (i + concurrency)
                         (results ++ batchResults) a' turn'
        | None => None
        end
      else Some (results, a, turn)
  end.

Definition runConcurrentTests (contexts : list VerificationContext)
    (concurrency : Z) (a : VerifierAlpha) (turn : nat)
  : option (list VerificationResult * VerifierAlpha * nat) :=
  batches_from (S (length contexts)) contexts concurrency 0 [] a turn.

(** [await this.architect.verify(ctx)] with no other call under way: the
    call runs to its end, stretch after stretch. *)
Fixpoint finish (n : nat) : Awaiting n -> VerifierAlpha ->
                            VerificationResult * VerifierAlpha :=
  match n with
  | O => fun r a => (r, a)
  | S n' => fun p a =>
      match p with
      | inl r => (r, a)
      | inr stretch => let '(p', a') := stretch a in finish n' p' a'
      end
  end.

Definition verify_alone (ctx : VerificationContext) (a : VerifierAlpha)
  : VerificationResult * VerifierAlpha :=
  let '(c, a1) := verify ctx a in finish (awaits c) (rest c) a1.

(** [class AdversarialTestOrchestrator]: [architect] lives in the world. *)
Record AdversarialTestOrchestrator : Type := mkOrchestrator {
  redTeamer : RedTeamer
}.

Definition new_Orchestrator (w : World) : AdversarialTestOrchestrator * World :=
  let '(rt, n) := new_RedTeamer random (draws w) in
  (mkOrchestrator rt, mkWorld n (ticks w) (turns w) new_VerifierAlpha).

Definition runFullSuite (o : AdversarialTestOrchestrator) (w : World)
  : option (TestResult * World) :=
  let '(startTime, w) := Date_now w in
  let a := reset (architect w) in
  let '(attackVectors, n) :=
    getRandomSubset random Array_sort (redTeamer o) (iterations TEST_CONFIG)
                    (draws w) in
  match runConcurrentTests attackVectors (concurrency TEST_CONFIG) a
                           (turns w) with
  | None => None
  | Some (results, a, turn) =>
      let '(endTime, w) := Date_now (mkWorld n (ticks w) turn a) in
      let duration := endTime - startTime in
      let stats := getStats (architect w) in
      let violationBreakdown :=
        fold_left (fun acc result => fold_left tally (violation_types result) acc)
                  results [] in
      Some ({| totalTests := total stats;
               tr_passed := passed stats;
               tr_failed := failed stats;
               tr_pass1 := pass1 stats;
               tr_avgScore := avgScore stats;
               duration := duration;
               violationBreakdown := violationBreakdown;
               meetsTarget := Qle_bool (targetPass1 TEST_CONFIG) (pass1 stats) |},
            w)
  end.

(** [generateReport] and the path of the report are text for the file
    system; [fs.writeFileSync] writes it or throws. *)
Variable generateReport : TestResult -> jsstring.
Variable reportPath : Z -> jsstring.
Variable fs_writeFileSync : jsstring -> jsstring -> completion unit.

(** The body of [main], up to [process.exit]: the exit code it asks for, or
    the error it throws. *)
Definition main_body (w : World) : option (completion Z) :=
  let '(orchestrator, w) := new_Orchestrator w in
  match runFullSuite orchestrator w with
  | None => None
  | Some (result, w) =>
      let report := generateReport result in
      let '(stamp, w) := Date_now w in
      Some (_ <- fs_writeFileSync (reportPath stamp) report ;;
            Normal (if meetsTarget result then 0 else 1))
  end.

(** [main().catch(error => { ...; process.exit(1) })]: the exit code of the
    process. *)
Definition main (w : World) : option Z :=
  match main_body w with
  | None => None
  | Some (Normal code) => Some code
  | Some (Throw _) => Some 1
  end.

End Orchestrator.

End Harness.

Import Harness.

(* ================================================================== *)
(** ** The specification's side *)
(* ================================================================== *)

Module Spec.

(** The numeric value of a string of decimal digits. *)
Definition decimal_value (s : jsstring) : Z :=
  math_int 10 (map (fun c => c - 48) s).

(** The four octets of [v] read as an unsigned 32-bit integer in network
    byte order: [v] modulo 2^32, most significant byte first. *)
Definition uint32_octets (v : Z) : list Z :=
  let w := v mod 2 ^ 32 in
  [w / 2 ^ 24; w / 2 ^ 16 mod 256; w / 2 ^ 8 mod 256; w mod 256].

(** The integer a number stands for under [ToUint32]: 0 for NaN and the
    infinities. *)
Definition integer_or_zero (x : number) : Z :=
  match x with
  | Num z => z
  | _ => 0
  end.

(** A number that [toString] prints in plain digits: NaN, or an integer of
    magnitude below 10^21.  From 10^21 on the exponent notation is used, and
    an infinity prints as a word. *)
Definition printed_plain (x : number) : Prop :=
  match x with
  | NaN => True
  | Infinity _ => False
  | Num z => Z.abs z < 10 ^ 21
  end.

(** Sequential mapping: the contexts are verified one after the other, from
    the first to the last, each call on the verifier as the call before left
    it, and each result is appended to the results so far. *)
Definition sequential {Ctx St Res : Type} (verify : Ctx -> St -> Res * St)
    (contexts : list Ctx) (a : St) : list Res * St :=
  fold_left (fun acc ctx =>
               let '(r, a') := verify ctx (snd acc) in (fst acc ++ [r], a'))
            contexts ([], a).

(** The trimmed input, said without [trim]: what is left of the input
    between a run of white space at its start and one at its end, with no
    white space at either end of it. *)
Definition trimmed_input (ip t : jsstring) : Prop :=
  exists pad1 pad2,
    ip = pad1 ++ t ++ pad2
    /\ Forall (fun c => is_white_space c = true) pad1
    /\ Forall (fun c => is_white_space c = true) pad2
    /\ (forall c rest, t = c :: rest -> is_white_space c = false)
    /\ (forall front c, t = front ++ [c] -> is_white_space c = false).

(** A string that is all decimal digits, and at least one. *)
Definition digits_only (t : jsstring) : Prop :=
  t <> [] /\ Forall (fun c => 48 <= c <= 57) t.

Definition hexadecimal_digit (c : Z) : Prop :=
  48 <= c <= 57 \/ 97 <= c <= 102 \/ 65 <= c <= 70.

(** A [0x] literal: [0x] and then hexadecimal digits, at least one. *)
Definition hexadecimal_literal (t : jsstring) : Prop :=
  exists digits,
    digits <> [] /\ t = lit "0x" ++ digits /\ Forall hexadecimal_digit digits.

(** The number of dots of a string: one less than its parts. *)
Definition dots (t : jsstring) : nat := count_occ Z.eq_dec t 46.

End Spec.

Import Spec.

(* ================================================================== *)
(** ** Instances to run the model on *)
(* ================================================================== *)

Module Sample.

(** A stand-in for Node's [crypto]: fixed keys, and a seal that keeps the
    plaintext. *)
Definition demo_key_pair (algorithm : jsstring) : KeyPair unit :=
  mkKeyPair unit tt tt algorithm 0 (lit "0000000000000000").

Definition demo_seal (text : jsstring) (_ : unit) (algorithm : jsstring)
  : EncryptedPayload :=
  mkEncryptedPayload text (lit "sig") 0 algorithm (lit "") (lit "") (lit "").

(** A file system in which the directory of the reports does not exist. *)
Definition no_reports_directory (_ _ : jsstring) : completion unit :=
  Throw (Error (lit "ENOENT: no such file or directory")).

(** A source of random numbers for running the harness: 1/4, 3/4, 1/4, ... *)
Definition alternating (n : nat) : Q := if Nat.even n then 1 # 4 else 3 # 4.

(** A verifier to run the orchestrator with: its state is the number of
    calls made, a result is that number with the address verified, and its
    statistics count every call as passed.  Its calls do not await. *)
Definition counting_verify (ctx : VerificationContext) (calls : nat)
  : Call nat (nat * option jsstring) * nat :=
  (mkCall nat (nat * option jsstring) O (calls, ip ctx), S calls).

(** A verifier whose calls share an accumulator: a call clears the
    accumulator and puts the address of its context there, awaits, and when
    it is resumed returns what the accumulator holds.  Called with no other
    call under way it returns the address of its own context. *)
Definition accumulating_verify (ctx : VerificationContext)
    (accumulator : list (option jsstring))
  : Call (list (option jsstring)) (list (option jsstring))
    * list (option jsstring) :=
  (mkCall (list (option jsstring)) (list (option jsstring)) 1
          (inr (fun held => (held, held))),
   [ip ctx]).

(** An engine whose [sort] inserts from the left; [comparefn] negative puts
    its first argument first. *)
Fixpoint insert_by {A : Type} (comparefn : A -> A -> Rand Q) (x : A)
    (sorted : list A) : Rand (list A) :=
  match sorted with
  | [] => ret [x]
  | y :: rest =>
      rbind (comparefn x y) (fun c =>
        if Qlt_le_dec c 0 then ret (x :: y :: rest)
        else rbind (insert_by comparefn x rest) (fun rest' =>
               ret (y :: rest')))
  end.

Fixpoint sort_into {A : Type} (comparefn : A -> A -> Rand Q)
    (sorted todo : list A) : Rand (list A) :=
  match todo with
  | [] => ret sorted
  | x :: todo' =>
      rbind (insert_by comparefn x sorted) (fun sorted' =>
        sort_into comparefn sorted' todo')
  end.

Definition insertion_sort {A : Type} (comparefn : A -> A -> Rand Q)
    (l : list A) : Rand (list A) :=
  sort_into comparefn [] l.

(** An event loop that always resumes the first call that waits. *)
Definition first_ready (turn : nat) : nat := O.

Definition counting_stats (calls : nat) : Stats :=
  {| total := Z.of_nat calls;
     passed := Z.of_nat calls;
     failed := 0;
     pass1 := if Nat.eqb calls 0 then 0 else 1;
     avgScore := if Nat.eqb calls 0 then 0 else 1 |}.

Definition three_contexts : list VerificationContext :=
  [ mkContext (Some (lit "10.0.0.5")) (Some true) (Some (lit "ML-KEM-768"))
              (Some 5);
    mkContext (Some (lit "8.8.8.8")) (Some true) (Some (lit "ML-KEM-768"))
              (Some 5);
    mkContext (Some (lit "10.0.0.5")) (Some false) None (Some 5) ].

End Sample.

Import Sample.

(* ================================================================== *)
(** ** src/security/quantum-safe.ts: error recovery and the vault *)
(* ================================================================== *)

Module Recovery.

Definition message (e : error) : jsstring :=
  match e with
  | Error m => m
  | TypeError m => m
  end.

Record Analysis : Type := mkAnalysis {
  canRecover : bool;
  suggestions : list jsstring
}.

(** [reflexion.analyze(error)] *)
Definition analyze (e : error) : Analysis :=
  let isRecoverable :=
    contains (message e) (lit "network")
    || contains (message e) (lit "timeout")
    || contains (message e) (lit "ECONNREFUSED") in
  {| canRecover := isRecoverable;
     suggestions :=
       if isRecoverable
       then [lit "Retry with exponential backoff";
             lit "Verify network connectivity"]
       else [lit "Check encryption keys"; lit "Verify data integrity"] |}.

End Recovery.

Module Vault.

(** A [Map] with string keys: its entries in insertion order.  [Map_set]
    keeps the place of a key that is present and appends a new one, so a map
    built with it holds a key once; [Map_delete] tells whether the key was
    there. *)
Definition Map (V : Type) : Type := list (jsstring * V).

Fixpoint Map_get {V : Type} (m : Map V) (key : jsstring) : option V :=
  match m with
  | [] => None
  | (k, v) :: rest => if str_eqb k key then Some v else Map_get rest key
  end.

Fixpoint Map_set {V : Type} (m : Map V) (key : jsstring) (value : V) : Map V :=
  match m with
  | [] => [(key, value)]
  | (k, v) :: rest =>
      if str_eqb k key then (k, value) :: rest
      else (k, v) :: Map_set rest key value
  end.

Definition Map_has {V : Type} (m : Map V) (key : jsstring) : bool :=
  existsb (fun entry => str_eqb (fst entry) key) m.

Definition Map_delete {V : Type} (m : Map V) (key : jsstring) : bool * Map V :=
  (Map_has m key, filter (fun entry => negb (str_eqb (fst entry) key)) m).

Section QuantumVault.

Variable Buffer : Type.
Variable hybrid_key_pair : jsstring -> KeyPair Buffer.
Variable aes_gcm_seal : jsstring -> Buffer -> jsstring -> EncryptedPayload.

(** [decryptData(payload, privateKey)] (lines 215-259): Node's [crypto]
    decides whether the signature and the tag verify; the value comes back
    or an [Error] is thrown. *)
Variable decryptData : EncryptedPayload -> Buffer -> completion JsValue.

(** [class QuantumVault] *)
Record QuantumVault : Type := mkQuantumVault {
  storage : Map EncryptedPayload;
  masterKey : Buffer
}.

(** [new QuantumVault()], with the 32 random bytes of its master key. *)
Definition new_QuantumVault (random32 : Buffer) : QuantumVault :=
  {| storage := []; masterKey := random32 |}.

(** [store(key, value)]: the completion of the call and the vault after
    it.  Both calls take their default algorithm. *)
Definition store (key : jsstring) (value : JsValue) (vault : QuantumVault)
  : completion unit * QuantumVault :=
  match
    (keyPair <- generateKeyPair Buffer hybrid_key_pair (lit "ML-KEM-768") ;;
     encryptData Buffer aes_gcm_seal value (kp_publicKey Buffer keyPair)
                 (lit "ML-KEM-768"))
  with
  | Normal encrypted =>
      (Normal tt,
       {| storage := Map_set (storage vault) key encrypted;
          masterKey := masterKey vault |})
  | Throw e => (Throw e, vault)
  end.

Definition retrieve (key : jsstring) (privateKey : Buffer)
    (vault : QuantumVault) : completion JsValue :=
  match Map_get (storage vault) key with
  | None => Throw (Error (lit "Key not found: " ++ key))
  | Some encrypted => decryptData encrypted privateKey
  end.

Definition delete (key : jsstring) (vault : QuantumVault)
  : bool * QuantumVault :=
  let '(found, rest) := Map_delete (storage vault) key in
  (found, {| storage := rest; masterKey := masterKey vault |}).

Definition clear (vault : QuantumVault) : QuantumVault :=
  {| storage := []; masterKey := masterKey vault |}.

End QuantumVault.

End Vault.

(* ================================================================== *)
(** ** The stress test of the gateway with batches (a test file of the
    repository) *)
(* ================================================================== *)

Module StressTest.

Inductive Category : Type := direct | obfuscated | malformed.

Record TestScenario : Type := mkScenario {
  name : jsstring;
  sc_ip : jsstring;
  isAuthorized : bool;
  category : Category
}.

Inductive Verdict : Type := PASS | BLOCK | ERROR.

Definition verdict_eqb (a b : Verdict) : bool :=
  match a, b with
  | PASS, PASS => true
  | BLOCK, BLOCK => true
  | ERROR, ERROR => true
  | _, _ => false
  end.

(** [TestResult], without its two clock readings [latency] and
    [timestamp]. *)
Record TestResult : Type := mkResult {
  scenario : jsstring;
  r_ip : jsstring;
  expected : Verdict;
  actual : Verdict;
  iteration : Z
}.

Definition TEST_SCENARIOS : list TestScenario :=
  [ mkScenario (lit "Direct_Whitelist_Primary") (lit "10.0.0.5") true direct;
    mkScenario (lit "Direct_Whitelist_Secondary") (lit "192.168.1.50") true
               direct;
    mkScenario (lit "Direct_Rogue_1") (lit "192.168.1.99") false direct;
    mkScenario (lit "Direct_Rogue_2") (lit "8.8.8.8") false direct;
    mkScenario (lit "Decimal_Auth_Primary") (lit "167772165") true obfuscated;
    mkScenario (lit "Decimal_Auth_Secondary") (lit "3232235826") true
               obfuscated;
    mkScenario (lit "Decimal_Rogue_1") (lit "3232235875") false obfuscated;
    mkScenario (lit "Decimal_Rogue_2") (lit "134744072") false obfuscated;
    mkScenario (lit "Hex_Auth_Primary") (lit "0xA000005") true obfuscated;
    mkScenario (lit "Hex_Auth_Secondary") (lit "0xC0A80132") true obfuscated;
    mkScenario (lit "Hex_Rogue_1") (lit "0xC0A80163") false obfuscated;
    mkScenario (lit "Hex_Rogue_2") (lit "0x08080808") false obfuscated;
    mkScenario (lit "Octal_Auth_Primary") (lit "012.0.0.05") true obfuscated;
    mkScenario (lit "Octal_Auth_Secondary") (lit "0300.0250.01.062") true
               obfuscated;
    mkScenario (lit "Octal_Rogue_1") (lit "0300.0250.01.0143") false
               obfuscated;
    mkScenario (lit "Malformed_Overflow") (lit "999.999.999.999") false
               malformed;
    mkScenario (lit "Malformed_Negative") (lit "-1.-1.-1.-1") false malformed;
    mkScenario (lit "Malformed_Letters") (lit "abc.def.ghi.jkl") false
               malformed;
    mkScenario (lit "Whitespace_Leading") (lit "  10.0.0.5") true obfuscated;
    mkScenario (lit "Whitespace_Trailing") (lit "192.168.1.50  ") true
               obfuscated ].

Record StressTestConfig : Type := mkConfig {
  cfg_iterations : Z;
  cfg_concurrency : Z;
  target : jsstring
}.

(** [class StressTestRunner]: the two fields that change. *)
Record Runner : Type := mkRunner {
  results : list TestResult;
  leakageBytes : Z
}.

(** The counts of [StressTestReport]; its ratios and latencies are doubles
    computed from these and from the clock. *)
Record StressTestReport : Type := mkReport {
  totalTests : Z;
  passed : Z;
  failed : Z;
  bypasses : Z;
  falsePositives : Z;
  rep_leakageBytes : Z;
  rep_results : list TestResult;
  latticeIntegrity : Z
}.

(** [{ cmd: 'stress_test', iteration }], the payload of a test. *)
Definition test_payload (iteration : Z) : JsValue :=
  JObject [ (lit "cmd", JString (lit "stress_test"));
            (lit "iteration", JNumber (Num iteration)) ].

Section Runner.

(** [useSecureGateway(scenario.ip, { cmd: 'stress_test', iteration })]: the
    gateway on the address of the scenario, with the object of the test as
    payload. *)
Variable gateway : jsstring -> Z -> completion GatewayResult.

(** [JSON.stringify(result.payload).length] *)
Variable payload_json_length : EncryptedPayload -> Z.

(** [runTest(scenario, iteration)]: the result, and the runner with the
    leaked bytes added. *)
Definition runTest (sc : TestScenario) (iter : Z) (r : Runner)
  : TestResult * Runner :=
  match gateway (sc_ip sc) iter with
  | Normal result =>
      if isAuthorized sc then
        (mkResult (name sc) (sc_ip sc) PASS PASS iter, r)
      else
        (mkResult (name sc) (sc_ip sc) BLOCK PASS iter,
         mkRunner (results r)
                  (leakageBytes r
                   + payload_json_length (payload result)))
  | Throw _ =>
      if negb (isAuthorized sc) then
        (mkResult (name sc) (sc_ip sc) BLOCK BLOCK iter, r)
      else
        (mkResult (name sc) (sc_ip sc) PASS BLOCK iter, r)
  end.

(** [Promise.all(batch.map(scenario => this.runTest(scenario, iteration)))] *)
Fixpoint runTests (batch : list TestScenario) (iter : Z) (r : Runner)
  : list TestResult * Runner :=
  match batch with
  | [] => ([], r)
  | sc :: rest =>
      let '(x, r1) := runTest sc iter r in
      let '(xs, r2) := runTests rest iter r1 in
      (x :: xs, r2)
  end.

(** The loop of [runBatch], from index [i] on, with [fuel] as in
    [runConcurrentTests]. *)
Fixpoint runBatch_from (fuel : nat) (scenarios : list TestScenario)
    (batchSize : Z) (iter : Z) (i : Z) (r : Runner) : option Runner :=
  match fuel with
  | O => None
  | S fuel' =>
      if i <? Z.of_nat (length scenarios) then
        let batch := slice scenarios i (i + batchSize) in
        let '(batchResults, r') := runTests batch iter r in
        runBatch_from fuel' scenarios batchSize iter (i + batchSize)
          (mkRunner (results r' ++ batchResults) (leakageBytes r'))
      else Some r
  end.

Definition runBatch (config : StressTestConfig)
    (scenarios : list TestScenario) (iter : Z) (r : Runner) : option Runner :=
  runBatch_from (S (length scenarios)) scenarios (cfg_concurrency config)
                iter 0 r.

(** [for (let i = 1; i <= iterations; i++) await this.runBatch(
    TEST_SCENARIOS, i)], with [todo] iterations left from [i] on. *)
Fixpoint iterate (config : StressTestConfig) (todo : nat) (i : Z)
    (r : Runner) : option Runner :=
  match todo with
  | O => Some r
  | S todo' =>
      match runBatch config TEST_SCENARIOS i r with
      | None => None
      | Some r' => iterate config todo' (i + 1) r'
      end
  end.

Definition count {A : Type} (f : A -> bool) (l : list A) : Z :=
  Z.of_nat (length (filter f l)).

(** [generateReport]: the counts. *)
Definition generateReport (r : Runner) : StressTestReport :=
  let totalTests := Z.of_nat (length (results r)) in
  let passed :=
    count (fun x => verdict_eqb (expected x) (actual x)) (results r) in
  let failed := totalTests - passed in
  let bypasses :=
    count (fun x => verdict_eqb (expected x) BLOCK
                    && verdict_eqb (actual x) PASS) (results r) in
  let falsePositives :=
    count (fun x => verdict_eqb (expected x) PASS
                    && verdict_eqb (actual x) BLOCK) (results r) in
  {| totalTests := totalTests;
     passed := passed;
     failed := failed;
     bypasses := bypasses;
     falsePositives := falsePositives;
     rep_leakageBytes := leakageBytes r;
     rep_results := results r;
     latticeIntegrity := if bypasses =? 0 then 100 else 0 |}.

(** [run()]: a fresh runner makes [iterations] passes over the scenarios
    and reports. *)
Definition run (config : StressTestConfig) : option StressTestReport :=
  match iterate config (Z.to_nat (cfg_iterations config)) 1
                (mkRunner [] 0) with
  | None => None
  | Some r => Some (generateReport r)
  end.

End Runner.

End StressTest.

(* ================================================================== *)
(** ** tests/stress_test.ts: the simulation *)
(* ================================================================== *)

Module Simulation.

Record Scenario : Type := mkScenario {
  name : jsstring;
  ip : jsstring;
  isAuthorized : bool
}.

Definition scenarios : list Scenario :=
  [ mkScenario (lit "Direct Whitelist (Primary)") (lit "10.0.0.5") true;
    mkScenario (lit "Rogue IP (Direct)") (lit "192.168.1.99") false;
    mkScenario (lit "Decimal Obfuscation (Authorized)") (lit "167772165") true;
    mkScenario (lit "Hex Obfuscation (Authorized)") (lit "0xC0A80132") true;
    mkScenario (lit "Decimal Obfuscation (Rogue)") (lit "3232235875") false;
    mkScenario (lit "Octal/Dotted Mix (Authorized)") (lit "012.0.0.05") true;
    mkScenario (lit "Overflow/Malformed Junk") (lit "999.999.999.999") false ].

(** The three counters of [runSimulation]. *)
Record Counters : Type := mkCounters {
  successfulBlocks : Z;
  successfulAuthorizations : Z;
  leakageBytes : Z
}.

(** [{ cmd: 'secure_op' }], the payload of every scenario. *)
Definition test_payload : JsValue :=
  JObject [ (lit "cmd", JString (lit "secure_op")) ].

Section RunSimulation.

(** [useSecureGateway(scenario.ip, { cmd: 'secure_op' })] *)
Variable gateway : jsstring -> completion GatewayResult.

(** [JSON.stringify(result.payload).length] *)
Variable payload_json_length : EncryptedPayload -> Z.

(** The body of the [for ... of] loop.  In the [catch] block the line
    printed for a blocked scenario takes
    [error.message.split(': ')[1].substring(0, 30)] before the counter is
    incremented: on a message without [': '] the second part is [undefined]
    and the block throws a TypeError. *)
Definition attempt (sc : Scenario) (c : Counters) : completion Counters :=
  match gateway (ip sc) with
  | Normal result =>
      if isAuthorized sc then
        Normal (mkCounters (successfulBlocks c)
                           (successfulAuthorizations c + 1)
                           (leakageBytes c))
      else
        Normal (mkCounters (successfulBlocks c)
                           (successfulAuthorizations c)
                           (leakageBytes c
                            + payload_json_length (payload result)))
  | Throw e =>
      if negb (isAuthorized sc) then
        if contains (Recovery.message e) (lit ": ") then
          Normal (mkCounters (successfulBlocks c + 1)
                             (successfulAuthorizations c)
                             (leakageBytes c))
        else
          Throw (TypeError
                   (lit "Cannot read properties of undefined (reading 'substring')"))
      else Normal c
  end.

Fixpoint for_of (l : list Scenario) (c : Counters) : completion Counters :=
  match l with
  | [] => Normal c
  | sc :: rest => c' <- attempt sc c ;; for_of rest c'
  end.

(** [reliability >= 0.999 && leakageBytes === 0], where [reliability] is the
    sum of the two counters over the number of scenarios.  The quotient of an
    integer by 7 is at least 1 or at most 6/7, so the doubles compare as the
    rationals do. *)
Definition mission_success (c : Counters) : bool :=
  Qle_bool (999 # 1000)
           (Qmake (successfulBlocks c + successfulAuthorizations c)
                  (Pos.of_nat (length scenarios)))
  && (leakageBytes c =? 0).

(** [runSimulation()]: [Some 1] is its [process.exit(1)], [None] its return. *)
Definition runSimulation : completion (option Z) :=
  c <- for_of scenarios (mkCounters 0 0 0) ;;
  Normal (if mission_success c then None else Some 1).

(** [runSimulation().catch(err => { ...; process.exit(1) })]: the exit code
    of the process. *)
Definition exit_code : Z :=
  match runSimulation with
  | Normal None => 0
  | Normal (Some code) => code
  | Throw _ => 1
  end.

End RunSimulation.

End Simulation.

(* ================================================================== *)
(** ** Further definitions of the properties *)
(* ================================================================== *)

Module More.

(** The value of a hexadecimal digit. *)
Definition hex_digit_value (c : Z) : Z :=
  if c <=? 57 then c - 48 else if 97 <=? c then c - 87 else c - 55.

(** The numeric value of a string of hexadecimal digits. *)
Definition hex_value (s : jsstring) : Z :=
  math_int 16 (map hex_digit_value s).

(** An octet: an integer from 0 to 255. *)
Definition octet (o : Z) : Prop := 0 <= o <= 255.

(** A suffix that does not start with a decimal digit. *)
Definition not_digit_first (suffix : jsstring) : bool :=
  match suffix with
  | [] => true
  | c :: _ => negb (is_digit c)
  end.

(** [Math.random] stays in its range, the doubles from 0 inclusive to 1
    exclusive: the largest of them is 1 - 2^-53. *)
Definition in_unit_interval (random : nat -> Q) : Prop :=
  forall n, (0 <= random n /\ random n <= 1 - (1 # 9007199254740992))%Q.

(** An attack vector with nothing undefined where the generators mean to
    fill it in, and a complexity from 0 to 19. *)
Definition filled_in (v : VerificationContext) : Prop :=
  (exists a, ip v = Some a)
  /\ (exists e, hasEncryption v = Some e)
  /\ (exists c, complexity v = Some c /\ 0 <= c <= 19).

Definition ip_approved (v : VerificationContext) : bool :=
  match ip v with
  | Some a => includes APPROVED_IPS (normalizeIp a)
  | None => false
  end.

(** [breakdown[type] || 0]: the count a tally holds for a type. *)
Fixpoint breakdown_count (breakdown : list (jsstring * Z)) (type : jsstring)
  : Z :=
  match breakdown with
  | [] => 0
  | (k, n) :: rest =>
      if str_eqb k type then n else breakdown_count rest type
  end.

(** How many times a type occurs in a list of types. *)
Definition occurrences (type : jsstring) (types : list jsstring) : Z :=
  Z.of_nat (length (filter (str_eqb type) types)).

(** A call that returns. *)
Definition returns {A : Type} (c : completion A) : bool :=
  match c with
  | Normal _ => true
  | Throw _ => false
  end.

(** The two calls the gateway makes to [ml_kem] return for a payload. *)
Definition encrypts {Buffer : Type} (ml_kem : MlKem Buffer) (data : JsValue)
  : bool :=
  returns (keyPair <- ml_generateKeyPair Buffer ml_kem (lit "ML-KEM-768") ;;
           ml_encryptData Buffer ml_kem data (kp_publicKey Buffer keyPair)
                          (lit "ML-KEM-768")).

(** The gateway answers a scenario of the simulation as the scenario expects,
    and a refusal carries a message the [catch] block can print. *)
Definition as_expected (gateway : jsstring -> completion GatewayResult)
    (sc : Simulation.Scenario) : bool :=
  match gateway (Simulation.ip sc) with
  | Normal _ => Simulation.isAuthorized sc
  | Throw e =>
      negb (Simulation.isAuthorized sc)
      && contains (Recovery.message e) (lit ": ")
  end.

(** A result of the stress test that counts as a bypass, and one that counts
    as a false positive. *)
Definition is_bypass (x : StressTest.TestResult) : bool :=
  StressTest.verdict_eqb (StressTest.expected x) StressTest.BLOCK
  && StressTest.verdict_eqb (StressTest.actual x) StressTest.PASS.

Definition is_pass (x : StressTest.TestResult) : bool :=
  StressTest.verdict_eqb (StressTest.expected x) (StressTest.actual x).

(** A payload length for running the tests: the length of the ciphertext. *)
Definition ciphertext_length (p : EncryptedPayload) : Z :=
  Z.of_nat (length (ciphertext p)).

(** A result whose two verdicts are [PASS] or [BLOCK]. *)
Definition two_valued (x : StressTest.TestResult) : Prop :=
  StressTest.expected x <> StressTest.ERROR
  /\ StressTest.actual x <> StressTest.ERROR.

(** A runner that has counted leaked bytes only where it has a bypass. *)
Definition leak_accounted (r : StressTest.Runner) : Prop :=
  StressTest.count is_bypass (StressTest.results r) = 0 ->
  StressTest.leakageBytes r = 0.

(** The scenarios the simulation has counted as right. *)
Definition counted_right (c : Simulation.Counters) : Z :=
  Simulation.successfulBlocks c + Simulation.successfulAuthorizations c.

(** The names an object literal inherits from [Object.prototype]: read from
    a record they are not [undefined], so that [record[type] || 0] is not 0
    for them. *)
Definition inherited_names : list jsstring :=
  [ lit "constructor"; lit "__defineGetter__"; lit "__defineSetter__";
    lit "hasOwnProperty"; lit "__lookupGetter__"; lit "__lookupSetter__";
    lit "isPrototypeOf"; lit "propertyIsEnumerable"; lit "toString";
    lit "valueOf"; lit "__proto__"; lit "toLocaleString" ].

(** A violation type that is a key of the record's own when it is there. *)
Definition own_key (type : jsstring) : bool :=
  negb (includes inherited_names type).

(** An engine whose [sort] leaves an array with the length it had, as
    ECMA-262 has it for every comparator. *)
Definition keeps_length
    (Array_sort : (VerificationContext -> VerificationContext -> Rand Q) ->
                  list VerificationContext -> Rand (list VerificationContext))
  : Prop :=
  forall comparefn l n, length (fst (Array_sort comparefn l n)) = length l.

(** The calls of a list made one after the other, each on the state the call
    before has left. *)
Fixpoint each_in_turn {Ctx St Res : Type} (f : Ctx -> St -> Res * St)
    (l : list Ctx) (a : St) : list Res * St :=
  match l with
  | [] => ([], a)
  | x :: others =>
      let '(y, a1) := f x a in
      let '(ys, a2) := each_in_turn f others a1 in
      (y :: ys, a2)
  end.

Section Answers.

Context {VerifierAlpha VerificationResult : Type}.

(** A result a call can come to: the one it has when it has ended, or one
    it can come to after it is resumed, on whatever state the instance is
    in then. *)
Inductive comes_to
  : Call VerifierAlpha VerificationResult -> VerificationResult -> Prop :=
| comes_settled c r : settled _ _ c = Some r -> comes_to c r
| comes_resumed c a r :
    settled _ _ c = None -> comes_to (fst (resume _ _ c a)) r -> comes_to c r.

(** A result of a call of [verify] on a context. *)
Definition answers
    (verify : VerificationContext -> VerifierAlpha ->
              Call VerifierAlpha VerificationResult * VerifierAlpha)
    (ctx : VerificationContext) (r : VerificationResult) : Prop :=
  exists a, comes_to (fst (verify ctx a)) r.

(** A [verify] whose calls do not await: each has ended when it returns
    its promise. *)
Definition never_awaits
    (verify : VerificationContext -> VerifierAlpha ->
              Call VerifierAlpha VerificationResult * VerifierAlpha)
  : Prop :=
  forall ctx a, settled _ _ (fst (verify ctx a)) <> None.

End Answers.

End More.

Import More.

(* ================================================================== *)
(** ** Predicates of the proofs *)
(* ================================================================== *)

Definition no_white_space (s : jsstring) : bool :=
  forallb (fun c => negb (is_white_space c)) s.

Definition no_dot (s : jsstring) : bool :=
  forallb (fun c => negb (c =? 46)) s.

(** The code units of a number printed in plain digits: digits, the minus
    sign, and the letters of NaN. *)
Definition plain_char (c : Z) : bool :=
  is_digit c || (c =? 45) || (c =? 78) || (c =? 97).

(** A part that the callback of step 4 maps to itself and that is written
    in plain characters. *)
Definition stable_part (t : jsstring) : Prop :=
  forallb plain_char t = true /\ normalizePart t = t.

(** A number as [parseInt] returns it: the integer is a double. *)
Definition is_double (x : number) : Prop :=
  match x with
  | Num z => round_to_double (Z.abs z) = Some (Z.abs z)
  | _ => True
  end.

(* ================================================================== *)
(** ** Properties of the normaliser on concrete addresses *)
(* ================================================================== *)

Example normalizeIp_hex_short :
  normalizeIp (lit "0xA000005") = lit "10.0.0.5".
Proof. vm_compute. reflexivity. Qed.

Example normalizeIp_decimal_50 :
  normalizeIp (lit "3232235826") = lit "192.168.1.50".
Proof. vm_compute. reflexivity. Qed.

Example normalizeIp_octal_50 :
  normalizeIp (lit "0300.0250.01.062") = lit "192.168.1.50".
Proof. vm_compute. reflexivity. Qed.

Example number_to_string_2_60 :
  show (number_to_string (Num (2 ^ 60))) = "1152921504606847000"%string.
Proof. vm_compute. reflexivity. Qed.

Example number_to_string_2_1023 :
  show (number_to_string (Num (2 ^ 1023))) = "8.98846567431158e+307"%string.
Proof. vm_compute. reflexivity. Qed.

Example parseInt_stops_at_letter :
  parseInt (lit "1e+21") 10 = Num 1.
Proof. vm_compute. reflexivity. Qed.

(** C6: the four canonical encodings of 10.0.0.5 (decimal, hexadecimal,
    dotted octal, and padded with white space) all normalise to
    ["10.0.0.5"]. *)
Theorem normalizeIp_canonical_examples :
  normalizeIp (lit "167772165") = lit "10.0.0.5"
  /\ normalizeIp (lit "0x0a000005") = lit "10.0.0.5"
  /\ normalizeIp (lit "012.0.0.05") = lit "10.0.0.5"
  /\ normalizeIp (lit "  10.0.0.5") = lit "10.0.0.5".
Proof. repeat split; vm_compute; reflexivity. Qed.

(** C2: the normaliser neither bounds an octet by 255 nor notices a failed
    parse.  ["999.999.999.999"] has four parts, each parses to 999 > 255,
    and it comes back as it is; ["abc.def.ghi.jkl"] has four parts, each
    parses to NaN, and the result is ["NaN.NaN.NaN.NaN"]: it contains
    ["NaN"] and is not the trimmed input. *)
Theorem normalizeIp_no_range_check_no_nan_check :
  (let x := lit "999.999.999.999" in
   length (split_on 46 (trim x)) = 4%nat
   /\ Forall (fun p => parseInt p 10 = Num 999 /\ 255 < 999)
             (split_on 46 (trim x))
   /\ normalizeIp x = lit "999.999.999.999")
  /\
  (let y := lit "abc.def.ghi.jkl" in
   length (split_on 46 (trim y)) = 4%nat
   /\ Forall (fun p => parseInt p 10 = NaN) (split_on 46 (trim y))
   /\ normalizeIp y = lit "NaN.NaN.NaN.NaN"
   /\ contains (normalizeIp y) (lit "NaN") = true
   /\ normalizeIp y <> trim y).
Proof.
  cbv zeta. split.
  - split; [reflexivity|]. split.
    + change (split_on 46 (trim (lit "999.999.999.999")))
        with [lit "999"; lit "999"; lit "999"; lit "999"].
      repeat (apply Forall_cons; [split; [vm_compute; reflexivity | lia] |]).
      apply Forall_nil.
    + vm_compute. reflexivity.
  - split; [reflexivity|]. split.
    + change (split_on 46 (trim (lit "abc.def.ghi.jkl")))
        with [lit "abc"; lit "def"; lit "ghi"; lit "jkl"].
      repeat (apply Forall_cons; [vm_compute; reflexivity |]).
      apply Forall_nil.
    + split; [vm_compute; reflexivity|].
      split; [vm_compute; reflexivity|].
      vm_compute. discriminate.
Qed.

(** When the three tests fail the function comes to its last line,
    [return cleanIp]. *)
Lemma normalizeIp_last_branch (ip : jsstring) :
  all_digits (trim ip) = false ->
  hex_literal (trim ip) = false ->
  length (split_on 46 (trim ip)) <> 4%nat ->
  normalizeIp ip = trim ip.
Proof.
  intros Hdigits Hhex Hparts. unfold normalizeIp.
  rewrite Hdigits, Hhex.
  destruct (Nat.eqb (length (split_on 46 (trim ip))) 4) eqn:E.
  - apply Nat.eqb_eq in E. contradiction.
  - reflexivity.
Qed.

(* ================================================================== *)
(** ** The gateway *)
(* ================================================================== *)

Section GatewayPolicy.

Variable Buffer : Type.
Variable hybrid_key_pair : jsstring -> KeyPair Buffer.
Variable aes_gcm_seal : jsstring -> Buffer -> jsstring -> EncryptedPayload.

Let ml_kem := quantum_safe Buffer hybrid_key_pair aes_gcm_seal.

(** What [encryptData] comes to is decided by the serialisation of the
    payload. *)
Lemma encryptData_by_serialisation data publicKey algorithm :
  match JSON_stringify data with
  | Normal (Some text) =>
      encryptData Buffer aes_gcm_seal data publicKey algorithm
      = Normal (aes_gcm_seal text publicKey algorithm)
  | Normal None =>
      exists message,
        encryptData Buffer aes_gcm_seal data publicKey algorithm
        = Throw (TypeError message)
  | Throw e =>
      encryptData Buffer aes_gcm_seal data publicKey algorithm = Throw e
  end.
Proof.
  unfold encryptData.
  destruct (JSON_stringify data) as [[text|]|e]; cbn [bind];
    [reflexivity | eexists; reflexivity | reflexivity].
Qed.

(** C1, as the code has it.  When the normalised address is not one of the
    two approved ones the gateway throws its "CFG Policy Violation" error,
    whatever the payload.  When it is, the gateway throws nothing of its own:
    the call returns [success = true], [verified = true] and the normalised
    address as [destination], with the sealed payload, exactly when
    [JSON.stringify] turns the payload into a string; it rejects with the
    TypeError of the cipher when the payload serialises to [undefined], and
    with the error of the serialisation when that throws.  So the call ends
    in a "CFG Policy Violation" error exactly when the address is not
    approved or the serialisation of the payload throws one. *)
Theorem useSecureGateway_policy (targetIp : jsstring) (data : JsValue) :
  (includes APPROVED_IPS (normalizeIp targetIp) = false ->
   useSecureGateway Buffer ml_kem targetIp data
   = Throw (Error (lit "CFG Policy Violation: IP " ++ targetIp
                   ++ lit " (normalized: " ++ normalizeIp targetIp
                   ++ lit ") is not in the approved whitelist.")))
  /\
  (includes APPROVED_IPS (normalizeIp targetIp) = true ->
   match JSON_stringify data with
   | Normal (Some text) =>
       useSecureGateway Buffer ml_kem targetIp data
       = Normal {| success := true;
                   destination := normalizeIp targetIp;
                   payload :=
                     aes_gcm_seal text
                       (kp_publicKey Buffer
                          (hybrid_key_pair (lit "ML-KEM-768")))
                       (lit "ML-KEM-768");
                   verified := true |}
   | Normal None =>
       exists message,
         useSecureGateway Buffer ml_kem targetIp data
         = Throw (TypeError message)
   | Throw e => useSecureGateway Buffer ml_kem targetIp data = Throw e
   end)
  /\
  (cfg_policy_violation (useSecureGateway Buffer ml_kem targetIp data) = true
   <-> includes APPROVED_IPS (normalizeIp targetIp) = false
       \/ cfg_policy_violation (JSON_stringify data) = true).
Proof.
  unfold useSecureGateway.
  pose proof (encryptData_by_serialisation data
                (kp_publicKey Buffer (hybrid_key_pair (lit "ML-KEM-768")))
                (lit "ML-KEM-768")) as Henc.
  destruct (includes APPROVED_IPS (normalizeIp targetIp)) eqn:Happroved;
    cbn [negb].
  - cbn [ml_kem quantum_safe ml_generateKeyPair ml_encryptData
         generateKeyPair bind].
    split; [discriminate|].
    destruct (JSON_stringify data) as [[text|]|e].
    + rewrite Henc. cbn [bind cfg_policy_violation].
      split; [intros _; reflexivity|].
      split; [discriminate | intros [H|H]; discriminate].
    + destruct Henc as [message ->]. cbn [bind cfg_policy_violation].
      split; [intros _; exists message; reflexivity|].
      split; [discriminate | intros [H|H]; discriminate].
    + rewrite Henc. cbn [bind].
      split; [intros _; reflexivity|].
      split; [intros H; right; exact H | intros [H|H]; [discriminate|exact H]].
  - split; [intros _; reflexivity|]. split; [discriminate|].
    split; [intros _; left; reflexivity | intros _; reflexivity].
Qed.

End GatewayPolicy.

(** The payload of the stress test, [{ cmd: 'stress_test', iteration }], at
    an address in hexadecimal. *)
Lemma useSecureGateway_policy_witness :
  useSecureGateway unit (quantum_safe unit demo_key_pair demo_seal)
    (lit "0x0a000005") (StressTest.test_payload 7)
  = Normal {| success := true;
              destination := lit "10.0.0.5";
              payload :=
                demo_seal
                  (lit "{" ++ QuoteJSONString (lit "cmd") ++ lit ":"
                   ++ QuoteJSONString (lit "stress_test") ++ lit ","
                   ++ QuoteJSONString (lit "iteration") ++ lit ":7}")
                  tt (lit "ML-KEM-768");
              verified := true |}.
Proof.
  apply (proj1 (proj2 (useSecureGateway_policy unit demo_key_pair demo_seal
                         (lit "0x0a000005") (StressTest.test_payload 7)))).
  vm_compute. reflexivity.
Defined.

(** C1 as stated fails at an approved address in both of its halves.  With
    the BigInt 1 as payload the gateway throws the TypeError of
    [JSON.stringify] and returns no result.  With a payload whose [toJSON]
    throws an error that says "CFG Policy Violation", the call ends in a
    "CFG Policy Violation" error although the address is approved. *)
Lemma useSecureGateway_payload_decides :
  includes APPROVED_IPS (normalizeIp (lit "10.0.0.5")) = true
  /\ useSecureGateway unit (quantum_safe unit demo_key_pair demo_seal)
       (lit "10.0.0.5") (JBigInt 1)
     = Throw (TypeError (lit "Do not know how to serialize a BigInt"))
  /\ cfg_policy_violation
       (useSecureGateway unit (quantum_safe unit demo_key_pair demo_seal)
          (lit "10.0.0.5")
          (JHosted (Throw (Error (lit "CFG Policy Violation: not the gateway's")))))
     = true.
Proof. repeat split; vm_compute; reflexivity. Qed.

(* ================================================================== *)
(** ** The single-number path *)
(* ================================================================== *)

(** Case analysis on the comparisons of a goal, closing the branches that
    arithmetic refutes. *)
Ltac cases_on_comparisons :=
  repeat (match goal with
          | |- context [?a =? ?b] => destruct (Z.eqb_spec a b)
          | |- context [?a <=? ?b] => destruct (Z.leb_spec a b)
          | |- context [?a <? ?b] => destruct (Z.ltb_spec a b)
          end; try lia);
  cbn; try reflexivity; try discriminate; try lia.

Lemma is_digit_bounds c : is_digit c = true <-> 48 <= c <= 57.
Proof.
  unfold is_digit. rewrite andb_true_iff, !Z.leb_le. reflexivity.
Qed.

Lemma digit_not_white_space c : 48 <= c <= 57 -> is_white_space c = false.
Proof. intros H. unfold is_white_space. cases_on_comparisons. Qed.

Lemma trimStart_keeps c r :
  is_white_space c = false -> trimStart (c :: r) = c :: r.
Proof. intros H. cbn. rewrite H. reflexivity. Qed.

Lemma radix_digit_decimal c :
  48 <= c <= 57 -> radix_digit 10 c = Some (c - 48).
Proof.
  intros H. unfold radix_digit, digit_value.
  replace ((48 <=? c) && (c <=? 57)) with true
    by (symmetry; apply andb_true_iff; rewrite !Z.leb_le; lia).
  replace (c - 48 <? 10) with true by (symmetry; apply Z.ltb_lt; lia).
  reflexivity.
Qed.

Lemma digits_prefix_all_digits s :
  forallb is_digit s = true ->
  digits_prefix 10 s = map (fun c => c - 48) s.
Proof.
  induction s as [|c r IH]; cbn [forallb digits_prefix map]; [reflexivity|].
  rewrite andb_true_iff, is_digit_bounds. intros [Hc Hr].
  rewrite (radix_digit_decimal c Hc), (IH Hr). reflexivity.
Qed.

(** [parseInt] of a non-empty string of decimal digits, radix 10: the
    double nearest to its value. *)
Lemma parseInt_all_digits s :
  all_digits s = true -> parseInt s 10 = to_double false (decimal_value s).
Proof.
  destruct s as [|c r]; [discriminate|].
  unfold all_digits. intros Hall.
  pose proof Hall as Hds. apply digits_prefix_all_digits in Hds.
  cbn [forallb] in Hall. apply andb_true_iff in Hall as [Hc _].
  apply is_digit_bounds in Hc.
  unfold parseInt.
  rewrite (trimStart_keeps c r (digit_not_white_space c Hc)).
  replace (c =? 45) with false by (symmetry; apply Z.eqb_neq; lia).
  replace (c =? 43) with false by (symmetry; apply Z.eqb_neq; lia).
  cbn [orb]. change ((10 =? 0) || (10 =? 16)) with false. cbn [andb].
  change (negb (10 =? 0) && ((10 <? 2) || (36 <? 10))) with false.
  change (if 10 =? 0 then 10 else 10) with 10.
  cbv beta iota zeta.
  rewrite Hds. cbn [map]. reflexivity.
Qed.

Lemma mod_256_of_mod_2_32 a : (a mod 2 ^ 32) mod 256 = a mod 256.
Proof.
  apply Z.mod_mod_divide. exists (2 ^ 24). reflexivity.
Qed.

(** [x & 0xFF] keeps the low byte. *)
Lemma band_255 a : band (Num a) (Num 255) = Num (a mod 256).
Proof.
  unfold band, ToInt32, ToUint32.
  change (255 mod 2 ^ 32) with 255. change (255 <? 2 ^ 31) with true.
  cbv iota. change 255 with (Z.ones 8).
  f_equal. rewrite Z.land_ones by lia. change (2 ^ 8) with 256.
  destruct (a mod 2 ^ 32 <? 2 ^ 31).
  - apply mod_256_of_mod_2_32.
  - replace (a mod 2 ^ 32 - 2 ^ 32)
      with (a mod 2 ^ 32 + (- 2 ^ 24) * 256) by lia.
    rewrite Z_mod_plus_full. apply mod_256_of_mod_2_32.
Qed.

Lemma ushr_Num v k :
  0 <= k < 32 -> ushr (Num v) k = Num ((v mod 2 ^ 32) / 2 ^ k).
Proof.
  intros Hk. unfold ushr, ToUint32.
  rewrite (Z.mod_small k 32) by lia.
  rewrite Z.shiftr_div_pow2 by lia. reflexivity.
Qed.

(** The shifts and masks of the source compute the octets of the number
    read as an unsigned 32-bit integer. *)
Lemma octets_uint32 x :
  octets x = map Num (uint32_octets (integer_or_zero x)).
Proof.
  destruct x as [ | b | v]; [reflexivity | reflexivity |].
  unfold octets, uint32_octets, integer_or_zero. cbv zeta.
  rewrite !ushr_Num by lia. rewrite !band_255.
  rewrite (mod_256_of_mod_2_32 v).
  rewrite (Z.mod_small (v mod 2 ^ 32 / 2 ^ 24) 256); [reflexivity|].
  pose proof (Z.mod_pos_bound v (2 ^ 32) ltac:(lia)) as Hw.
  split.
  - apply Z.div_pos; lia.
  - apply Z.div_lt_upper_bound; lia.
Qed.

Lemma uint32_octets_range v :
  Forall (fun o => 0 <= o <= 255) (uint32_octets v).
Proof.
  unfold uint32_octets. cbv zeta.
  pose proof (Z.mod_pos_bound v (2 ^ 32) ltac:(lia)) as Hw.
  repeat constructor;
    try (apply Z.div_pos; lia);
    try (apply Z.lt_succ_r; apply Z.div_lt_upper_bound; lia);
    try (pose proof (Z.mod_pos_bound (v mod 2 ^ 32 / 2 ^ 16) 256 ltac:(lia));
         pose proof (Z.mod_pos_bound (v mod 2 ^ 32 / 2 ^ 8) 256 ltac:(lia));
         pose proof (Z.mod_pos_bound (v mod 2 ^ 32) 256 ltac:(lia)); lia).
Qed.

Lemma round_to_double_exact v : v < 2 ^ 53 -> round_to_double v = Some v.
Proof.
  intros H. unfold round_to_double.
  replace (v <? 2 ^ 53) with true by (symmetry; apply Z.ltb_lt; exact H).
  reflexivity.
Qed.

(** C5, as the code has it: on an input that is all decimal digits once
    trimmed, [normalizeIp] returns four octets in 0..255 joined with dots,
    those of the double nearest to the input's numeric value, reduced modulo
    2^32 (0 when that double is an infinity).  When the numeric value is
    below 2^53 the conversion is exact, and the result is the four octets of
    the value modulo 2^32. *)
Theorem normalizeIp_single_decimal (ip : jsstring) :
  all_digits (trim ip) = true ->
  let v := decimal_value (trim ip) in
  normalizeIp ip
  = dotted (map Num (uint32_octets (integer_or_zero (to_double false v))))
  /\ Forall (fun o => 0 <= o <= 255)
            (uint32_octets (integer_or_zero (to_double false v)))
  /\ (v < 2 ^ 53 -> normalizeIp ip = dotted (map Num (uint32_octets v))).
Proof.
  intros Hdigits v.
  assert (Hcode : normalizeIp ip
                  = dotted (map Num (uint32_octets
                                       (integer_or_zero (to_double false v))))).
  { unfold normalizeIp. rewrite Hdigits.
    rewrite (parseInt_all_digits _ Hdigits), octets_uint32. reflexivity. }
  split; [exact Hcode|]. split; [apply uint32_octets_range|].
  intros Hsmall. rewrite Hcode. unfold to_double.
  rewrite (round_to_double_exact v Hsmall). reflexivity.
Qed.

Lemma normalizeIp_single_decimal_witness :
  normalizeIp (lit " 3232235826 ")
  = dotted (map Num (uint32_octets 3232235826)).
Proof.
  apply (normalizeIp_single_decimal (lit " 3232235826 ")).
  - reflexivity.
  - vm_compute. reflexivity.
Defined.

(** C5 as stated fails above 2^53: the digits 9007199254740993 (2^53 + 1)
    have the value 1 modulo 2^32, so the claim gives 0.0.0.1, but [parseInt]
    rounds to 2^53 and the code returns 0.0.0.0. *)
Lemma normalizeIp_single_decimal_rounds :
  all_digits (trim (lit "9007199254740993")) = true
  /\ decimal_value (trim (lit "9007199254740993")) = 2 ^ 53 + 1
  /\ dotted (map Num (uint32_octets (2 ^ 53 + 1))) = lit "0.0.0.1"
  /\ normalizeIp (lit "9007199254740993") = lit "0.0.0.0".
Proof. repeat split; vm_compute; reflexivity. Qed.

(* ================================================================== *)
(** ** The red teamer *)
(* ================================================================== *)

Section RedTeamerFacts.

Variable random : nat -> Q.

Variable Array_sort :
  (VerificationContext -> VerificationContext -> Rand Q) ->
  list VerificationContext -> Rand (list VerificationContext).

Lemma for_push_length {A : Type} (body : nat -> Rand A) count :
  forall i n, length (fst (for_push count i body n)) = count.
Proof.
  induction count as [|count IH]; intros i n; [reflexivity|].
  cbn [for_push]. unfold rbind.
  destruct (body i n) as [x n1].
  specialize (IH (S i) n1).
  destruct (for_push count (S i) body n1) as [rest n2].
  cbn in *. rewrite IH. reflexivity.
Qed.

Lemma generateAttackVectors_length n :
  length (fst (generateAttackVectors random n))
  = (directIPs (scenarios TEST_CONFIG) + obfuscatedIPs (scenarios TEST_CONFIG)
     + malformedIPs (scenarios TEST_CONFIG)
     + encryptionTests (scenarios TEST_CONFIG)
     + complexityTests (scenarios TEST_CONFIG))%nat.
Proof.
  unfold generateAttackVectors, rbind.
  unfold generateDirectIPAttacks, generateObfuscationAttacks,
    generateMalformedAttacks, generateEncryptionAttacks,
    generateComplexityAttacks.
  repeat match goal with
         | |- context [for_push ?c ?i ?b ?m] =>
             let H := fresh "H" in
             pose proof (for_push_length b c i m) as H;
             destruct (for_push c i b m)
         end.
  cbn [fst ret] in *. rewrite !length_app. cbn [length]. lia.
Qed.

Lemma slice_from_0_length {A : Type} (l : list A) k :
  0 <= k ->
  Z.of_nat (length (slice l 0 k)) = Z.min k (Z.of_nat (length l)).
Proof.
  intros Hk. unfold slice, relative_index.
  change (0 <? 0) with false. cbv iota.
  replace (k <? 0) with false by (symmetry; apply Z.ltb_ge; exact Hk).
  rewrite (Z.min_l 0) by lia. change (Z.to_nat 0) with O. cbn [skipn].
  rewrite length_firstn. lia.
Qed.

(** C8: whatever [Math.random] returns, the red teamer holds exactly the sum
    of the five configured counts of attack vectors, 10 + 30 + 20 + 20 + 20 =
    100; and for every requested size [k], an integer from 0 on,
    [getRandomSubset(k)] has [min(k, number of vectors)] elements, whatever
    order the engine's [sort] leaves the vectors in. *)
Theorem redTeamer_vector_counts (n0 : nat) :
  let rt := fst (new_RedTeamer random n0) in
  length (getAttackVectors rt)
  = (directIPs (scenarios TEST_CONFIG) + obfuscatedIPs (scenarios TEST_CONFIG)
     + malformedIPs (scenarios TEST_CONFIG)
     + encryptionTests (scenarios TEST_CONFIG)
     + complexityTests (scenarios TEST_CONFIG))%nat
  /\ length (getAttackVectors rt) = (10 + 30 + 20 + 20 + 20)%nat
  /\ length (getAttackVectors rt) = 100%nat
  /\ forall (k : Z) (n : nat),
       0 <= k ->
       keeps_length Array_sort ->
       Z.of_nat (length (fst (getRandomSubset random Array_sort rt k n)))
       = Z.min k (Z.of_nat (length (getAttackVectors rt))).
Proof.
  intros rt.
  assert (Hlen : length (getAttackVectors rt)
                 = (directIPs (scenarios TEST_CONFIG)
                    + obfuscatedIPs (scenarios TEST_CONFIG)
                    + malformedIPs (scenarios TEST_CONFIG)
                    + encryptionTests (scenarios TEST_CONFIG)
                    + complexityTests (scenarios TEST_CONFIG))%nat).
  { subst rt. unfold new_RedTeamer, rbind.
    pose proof (generateAttackVectors_length n0) as H.
    destruct (generateAttackVectors random n0) as [vs n1]. exact H. }
  split; [exact Hlen|]. split; [exact Hlen|]. split; [exact Hlen|].
  intros k n Hk Hsort. unfold getRandomSubset, rbind, getAttackVectors.
  match goal with
  | |- context [Array_sort ?f ?l ?m] =>
      pose proof (Hsort f l m) as Hkeeps;
      destruct (Array_sort f l m) as [shuffled n1]
  end.
  cbn [fst ret] in *. rewrite slice_from_0_length by exact Hk.
  rewrite Hkeeps. reflexivity.
Qed.

End RedTeamerFacts.

Lemma insert_by_length {A : Type} (comparefn : A -> A -> Rand Q) x sorted :
  forall n, length (fst (insert_by comparefn x sorted n)) = S (length sorted).
Proof.
  induction sorted as [|y rest IH]; intros n; [reflexivity|].
  cbn [insert_by]. unfold rbind.
  destruct (comparefn x y n) as [c n1].
  destruct (Qlt_le_dec c 0); [reflexivity|].
  specialize (IH n1). destruct (insert_by comparefn x rest n1) as [rest' n2].
  cbn in *. rewrite IH. reflexivity.
Qed.

Lemma sort_into_length {A : Type} (comparefn : A -> A -> Rand Q) todo :
  forall sorted n,
    length (fst (sort_into comparefn sorted todo n))
    = (length sorted + length todo)%nat.
Proof.
  induction todo as [|x todo IH]; intros sorted n; cbn [sort_into].
  - cbn. lia.
  - unfold rbind.
    pose proof (insert_by_length comparefn x sorted n) as Hins.
    destruct (insert_by comparefn x sorted n) as [sorted' n1].
    cbn [fst] in Hins. rewrite IH, Hins. cbn [length]. lia.
Qed.

(** The sample engine keeps the length. *)
Lemma insertion_sort_keeps_length : keeps_length insertion_sort.
Proof.
  intros comparefn l n. unfold insertion_sort.
  rewrite sort_into_length. reflexivity.
Qed.

Lemma redTeamer_vector_counts_witness :
  Z.of_nat (length (fst (getRandomSubset alternating insertion_sort
                           (fst (new_RedTeamer alternating O)) 10 O)))
  = Z.min 10 (Z.of_nat (length (getAttackVectors
                                  (fst (new_RedTeamer alternating O))))).
Proof.
  apply (proj2 (proj2 (proj2 (redTeamer_vector_counts alternating
                                insertion_sort O)))).
  - lia.
  - exact insertion_sort_keeps_length.
Defined.

(** A count below 0 is counted from the end by [slice]: with the sample
    engine [getRandomSubset(-1)] has 99 of the 100 vectors. *)
Example getRandomSubset_negative_count :
  length (fst (getRandomSubset alternating insertion_sort
                 (fst (new_RedTeamer alternating O)) (-1) O)) = 99%nat.
Proof. vm_compute. reflexivity. Qed.

(* ================================================================== *)
(** ** The orchestrator: batched dispatch *)
(* ================================================================== *)

Lemma each_in_turn_app {Ctx St Res : Type} (f : Ctx -> St -> Res * St)
    l1 l2 a :
  each_in_turn f (l1 ++ l2) a
  = (fst (each_in_turn f l1 a)
       ++ fst (each_in_turn f l2 (snd (each_in_turn f l1 a))),
     snd (each_in_turn f l2 (snd (each_in_turn f l1 a)))).
Proof.
  revert a.
  induction l1 as [|x l1 IH]; intros a; cbn [app each_in_turn fst snd].
  - destruct (each_in_turn f l2 a); reflexivity.
  - destruct (f x a) as [y a1]. rewrite IH.
    destruct (each_in_turn f l1 a1) as [ys a2]. reflexivity.
Qed.

(** One call after the other is the sequential mapping. *)
Lemma each_in_turn_sequential {Ctx St Res : Type} (f : Ctx -> St -> Res * St)
    l a :
  each_in_turn f l a = sequential f l a.
Proof.
  unfold sequential.
  enough (H : forall rs a0,
             fold_left
               (fun acc x =>
                  let '(r, a') := f x (snd acc) in (fst acc ++ [r], a'))
               l (rs, a0)
             = (rs ++ fst (each_in_turn f l a0), snd (each_in_turn f l a0))).
  { rewrite H. cbn [app]. destruct (each_in_turn f l a); reflexivity. }
  induction l as [|x l IH]; intros rs a0;
    cbn [fold_left each_in_turn fst snd].
  - rewrite app_nil_r. reflexivity.
  - destruct (f x a0) as [r a1]. rewrite IH.
    destruct (each_in_turn f l a1) as [rs' a2].
    cbn [fst snd]. rewrite <- app_assoc. reflexivity.
Qed.

Section BatchedDispatch.

Variable ready : nat -> nat.
Variable VerifierAlpha : Type.
Variable VerificationResult : Type.
Variable verify :
  VerificationContext -> VerifierAlpha ->
  Call VerifierAlpha VerificationResult * VerifierAlpha.

Local Abbreviation Call := (Harness.Call VerifierAlpha VerificationResult).
Local Abbreviation settled := (Harness.settled VerifierAlpha VerificationResult).
Local Abbreviation resume := (Harness.resume VerifierAlpha VerificationResult).
Local Abbreviation left_to_await :=
  (Harness.left_to_await VerifierAlpha VerificationResult).
Local Abbreviation waiting_from :=
  (Harness.waiting_from VerifierAlpha VerificationResult).
Local Abbreviation resume_at :=
  (Harness.resume_at VerifierAlpha VerificationResult).
Local Abbreviation results_of :=
  (Harness.results_of VerifierAlpha VerificationResult).
Local Abbreviation start_all :=
  (Harness.start_all VerifierAlpha VerificationResult verify).
Local Abbreviation settle_all :=
  (Harness.settle_all ready VerifierAlpha VerificationResult).
Local Abbreviation dispatch :=
  (Harness.dispatch ready VerifierAlpha VerificationResult verify).
Local Abbreviation batches_from :=
  (Harness.batches_from ready VerifierAlpha VerificationResult verify).
Local Abbreviation runConcurrentTests :=
  (Harness.runConcurrentTests ready VerifierAlpha VerificationResult verify).
Local Abbreviation verify_alone :=
  (Harness.verify_alone VerifierAlpha VerificationResult verify).

(** The awaits the calls of a pool may still make. *)
Local Abbreviation to_await pool := (list_sum (map left_to_await pool)).

Lemma list_sum_cons x l : list_sum (x :: l) = (x + list_sum l)%nat.
Proof. reflexivity. Qed.

(** A call that waits has an [await] left, and has fewer once resumed. *)
Lemma resume_decreases (c : Call) a :
  settled c = None ->
  (left_to_await (fst (resume c a)) < left_to_await c)%nat.
Proof.
  destruct c as [[|n] p]; [discriminate|].
  destruct p as [r|stretch]; [discriminate|]. intros _.
  unfold Harness.left_to_await at 2. cbn [Harness.settled Harness.awaits].
  cbn [Harness.resume]. destruct (stretch a) as [p' a']. cbn [fst].
  unfold Harness.left_to_await.
  destruct (settled (mkCall _ _ n p')); cbn [Harness.awaits]; lia.
Qed.

(** When no call waits, each has its result. *)
Lemma none_waiting pool :
  forall i,
    waiting_from i pool = [] ->
    length (results_of pool) = length pool
    /\ Forall2 comes_to pool (results_of pool).
Proof.
  induction pool as [|c pool IH]; intros i H.
  - split; [reflexivity | constructor].
  - cbn [Harness.waiting_from] in H. unfold Harness.results_of.
    cbn [flat_map]. destruct (settled c) as [r|] eqn:E; [|discriminate].
    destruct (IH (S i) H) as [Hlen Hall]. cbn [app length]. split.
    + f_equal. exact Hlen.
    + constructor; [apply comes_settled; exact E | exact Hall].
Qed.

Lemma waiting_from_In pool :
  forall i j,
    In j (waiting_from i pool) ->
    (i <= j)%nat
    /\ exists c, nth_error pool (j - i) = Some c /\ settled c = None.
Proof.
  induction pool as [|c pool IH]; intros i j Hin; [destruct Hin|].
  cbn [Harness.waiting_from] in Hin.
  assert (Hrest : In j (waiting_from (S i) pool) ->
                  (i <= j)%nat
                  /\ exists c0, nth_error (c :: pool) (j - i) = Some c0
                                /\ settled c0 = None).
  { intros H. destruct (IH (S i) j H) as [Hle (c0 & Hnth & Hc0)].
    split; [lia|]. exists c0. split; [|exact Hc0].
    replace (j - i)%nat with (S (j - S i)) by lia. exact Hnth. }
  destruct (settled c) eqn:E; [exact (Hrest Hin)|].
  destruct Hin as [<-|Hin]; [|exact (Hrest Hin)].
  split; [lia|]. exists c. rewrite Nat.sub_diag. split; [reflexivity | exact E].
Qed.

(** Resuming a call that waits: the pool keeps its length, has fewer
    awaits left, and what its calls come to the calls came to before. *)
Lemma resume_at_facts pool :
  forall j a c,
    nth_error pool j = Some c -> settled c = None ->
    length (fst (resume_at j pool a)) = length pool
    /\ (to_await (fst (resume_at j pool a)) < to_await pool)%nat
    /\ forall rs,
         Forall2 comes_to (fst (resume_at j pool a)) rs ->
         Forall2 comes_to pool rs.
Proof.
  induction pool as [|c0 pool IH]; intros j a c Hnth Hc;
    [destruct j; discriminate|].
  destruct j as [|j]; cbn [nth_error] in Hnth; cbn [Harness.resume_at].
  - injection Hnth as ->.
    pose proof (resume_decreases c a Hc) as Hdec.
    assert (Hcome : forall r, comes_to (fst (resume c a)) r -> comes_to c r)
      by (intros r; apply comes_resumed; exact Hc).
    destruct (resume c a) as [c' a']. cbn [fst] in *.
    split; [reflexivity|]. split; [cbn [map]; rewrite !list_sum_cons; lia|].
    intros rs H. inversion_clear H as [|? r ? rs' Hr Hrs].
    constructor; [apply Hcome; exact Hr | exact Hrs].
  - destruct (IH j a c Hnth Hc) as (Hlen & Hdec & Hcome).
    destruct (resume_at j pool a) as [pool' a']. cbn [fst] in *.
    split; [cbn [length]; f_equal; exact Hlen|].
    split; [cbn [map]; rewrite !list_sum_cons; lia|].
    intros rs H. inversion_clear H as [|? r ? rs' Hr Hrs].
    constructor; [exact Hr | apply Hcome; exact Hrs].
Qed.

(** [Promise.all] comes to its end whatever order the event loop takes,
    with one result for each call, each a result of its call. *)
Lemma settle_all_ends fuel :
  forall pool a turn,
    (to_await pool <= fuel)%nat ->
    exists rs a' turn',
      settle_all fuel pool a turn = Some (rs, a', turn')
      /\ length rs = length pool
      /\ Forall2 comes_to pool rs.
Proof.
  induction fuel as [|fuel IH]; intros pool a turn Hfuel.
  - destruct (waiting_from 0 pool) as [|first others] eqn:E.
    + destruct (none_waiting pool 0 E) as [Hlen Hall].
      exists (results_of pool), a, turn.
      cbn [Harness.settle_all]. rewrite E. repeat split; assumption.
    + exfalso.
      destruct (waiting_from_In pool 0 first) as [_ (c & Hnth & Hc)];
        [rewrite E; left; reflexivity|].
      destruct (resume_at_facts pool (first - 0) a c Hnth Hc) as (_ & H & _).
      lia.
  - cbn [Harness.settle_all].
    destruct (waiting_from 0 pool) as [|first others] eqn:E.
    + destruct (none_waiting pool 0 E) as [Hlen Hall].
      exists (results_of pool), a, turn. repeat split; assumption.
    + set (i := nth (ready turn mod length (first :: others))
                    (first :: others) first).
      assert (Hin : In i (waiting_from 0 pool)).
      { rewrite E. subst i. apply nth_In.
        apply Nat.mod_upper_bound. discriminate. }
      destruct (waiting_from_In pool 0 i Hin) as [_ (c & Hnth & Hc)].
      rewrite Nat.sub_0_r in Hnth.
      destruct (resume_at_facts pool i a c Hnth Hc) as (Hlen & Hdec & Hcome).
      destruct (resume_at i pool a) as [pool' a']. cbn [fst] in *.
      destruct (IH pool' a' (S turn) ltac:(lia))
        as (rs & a'' & turn' & Hrun & Hlen' & Hall).
      exists rs, a'', turn'. split; [exact Hrun|].
      split; [congruence | apply Hcome; exact Hall].
Qed.

Lemma start_all_calls batch :
  forall a,
    length (fst (start_all batch a)) = length batch
    /\ Forall2 (fun ctx c => exists a0, c = fst (verify ctx a0))
               batch (fst (start_all batch a)).
Proof.
  induction batch as [|ctx batch IH]; intros a; cbn [Harness.start_all].
  - split; [reflexivity | constructor].
  - assert (Hc : exists a0, fst (verify ctx a) = fst (verify ctx a0))
      by (exists a; reflexivity).
    destruct (verify ctx a) as [c a1]. destruct (IH a1) as [Hlen Hall].
    destruct (start_all batch a1) as [cs a2]. cbn [fst length] in *.
    split; [f_equal; exact Hlen | constructor; assumption].
Qed.

(** A batch: one result for each context, in the order of the contexts,
    each a result of the call of [verify] on its context. *)
Lemma dispatch_ends batch a turn :
  exists rs a' turn',
    dispatch batch a turn = Some (rs, a', turn')
    /\ length rs = length batch
    /\ Forall2 (answers verify) batch rs.
Proof.
  unfold Harness.dispatch.
  destruct (start_all_calls batch a) as [Hlen Hcalls].
  destruct (start_all batch a) as [pool a1]. cbn [fst] in *.
  destruct (settle_all_ends (to_await pool) pool a1 turn (Nat.le_refl _))
    as (rs & a' & turn' & Hrun & Hlen' & Hall).
  exists rs, a', turn'. split; [exact Hrun|]. split; [congruence|].
  clear Hrun Hlen Hlen'. revert rs Hall.
  induction Hcalls as [|ctx c batch pool [a0 ->] _ IH]; intros rs Hall;
    inversion_clear Hall as [|? r ? rs' Hr Hrs]; constructor.
  - exists a0. exact Hr.
  - apply IH. exact Hrs.
Qed.

(** A batch and what follows it make up what was left of the array. *)
Lemma slice_batch (contexts : list VerificationContext) i c :
  0 < c -> 0 <= i < Z.of_nat (length contexts) ->
  skipn (Z.to_nat i) contexts
  = slice contexts i (i + c) ++ skipn (Z.to_nat (i + c)) contexts.
Proof.
  intros Hc Hi. unfold slice, relative_index.
  replace (i <? 0) with false by (symmetry; apply Z.ltb_ge; lia).
  replace (i + c <? 0) with false by (symmetry; apply Z.ltb_ge; lia).
  rewrite (Z.min_l i) by lia.
  set (rest := skipn (Z.to_nat i) contexts).
  replace (skipn (Z.to_nat (i + c)) contexts)
    with (skipn (Z.to_nat (Z.min (i + c) (Z.of_nat (length contexts)) - i))
                rest).
  - symmetry. apply firstn_skipn.
  - subst rest. rewrite skipn_skipn.
    destruct (Z.le_gt_cases (i + c) (Z.of_nat (length contexts))) as [H|H].
    + rewrite (Z.min_l (i + c)) by lia. f_equal. lia.
    + rewrite (Z.min_r (i + c)) by lia.
      rewrite !skipn_all2 by lia. reflexivity.
Qed.

(** The loop, from any index it can reach, with fuel for what is left. *)
Lemma batches_from_ends contexts c :
  0 < c ->
  forall fuel i results a turn,
    0 <= i ->
    Z.of_nat (length contexts) - i < Z.of_nat fuel ->
    (0 < fuel)%nat ->
    exists rs a' turn',
      batches_from fuel contexts c i results a turn
      = Some (results ++ rs, a', turn')
      /\ length rs = length (skipn (Z.to_nat i) contexts)
      /\ Forall2 (answers verify) (skipn (Z.to_nat i) contexts) rs.
Proof.
  intros Hc.
  induction fuel as [|fuel IH]; intros i results a turn Hi Hfuel Hpos; [lia|].
  cbn [Harness.batches_from].
  destruct (Z.ltb_spec i (Z.of_nat (length contexts))) as [Hlt|Hge].
  - rewrite (slice_batch contexts i c Hc (conj Hi Hlt)).
    destruct (dispatch_ends (slice contexts i (i + c)) a turn)
      as (rs1 & a1 & turn1 & -> & Hlen1 & Hall1).
    destruct fuel as [|fuel']; [lia|].
    destruct (IH (i + c) (results ++ rs1) a1 turn1 ltac:(lia) ltac:(lia)
                 ltac:(lia))
      as (rs2 & a2 & turn2 & -> & Hlen2 & Hall2).
    exists (rs1 ++ rs2), a2, turn2.
    split; [rewrite app_assoc; reflexivity|].
    split; [rewrite !length_app; congruence|].
    apply Forall2_app; assumption.
  - rewrite skipn_all2 by lia. exists [], a, turn.
    rewrite app_nil_r. repeat split. constructor.
Qed.

(** With a positive bound the loop finishes within its fuel. *)
Lemma runConcurrentTests_ends
    (contexts : list VerificationContext) (concurrency : Z)
    (a : VerifierAlpha) (turn : nat) :
  0 < concurrency ->
  exists results a' turn',
    runConcurrentTests contexts concurrency a turn
    = Some (results, a', turn')
    /\ length results = length contexts
    /\ Forall2 (answers verify) contexts results.
Proof.
  intros Hc. unfold Harness.runConcurrentTests.
  destruct (batches_from_ends contexts concurrency Hc
              (S (length contexts)) 0 [] a turn ltac:(lia) ltac:(lia)
              ltac:(lia))
    as (rs & a' & turn' & Hrun & Hlen & Hall).
  exists rs, a', turn'. split; [exact Hrun|].
  change (Z.to_nat 0) with O in *. cbn [skipn] in *. split; assumption.
Qed.

(** *** Calls that do not await *)

Lemma finish_settled (c : Call) a r :
  settled c = Some r ->
  Harness.finish VerifierAlpha VerificationResult
    (Harness.awaits _ _ c) (Harness.rest _ _ c) a = (r, a).
Proof.
  destruct c as [[|n] p]; cbn [Harness.settled Harness.awaits Harness.rest
                               Harness.finish].
  - intros [= ->]. reflexivity.
  - destruct p as [r0|stretch]; [intros [= ->]; reflexivity | discriminate].
Qed.

Lemma start_all_never_awaits batch :
  never_awaits verify ->
  forall a,
    waiting_from 0 (fst (start_all batch a)) = []
    /\ (results_of (fst (start_all batch a)), snd (start_all batch a))
       = each_in_turn verify_alone batch a.
Proof.
  intros Hnever.
  enough (H : forall i a,
             waiting_from i (fst (start_all batch a)) = []
             /\ (results_of (fst (start_all batch a)),
                 snd (start_all batch a))
                = each_in_turn verify_alone batch a) by (apply H).
  induction batch as [|ctx batch IH]; intros i a;
    cbn [Harness.start_all each_in_turn]; [split; reflexivity|].
  unfold Harness.verify_alone at 1.
  pose proof (Hnever ctx a) as Hs.
  destruct (verify ctx a) as [c a1]. cbn [fst] in Hs.
  destruct (settled c) as [r|] eqn:E; [|contradiction].
  rewrite (finish_settled c a1 r E).
  destruct (IH (S i) a1) as [Hwait Hres].
  destruct (start_all batch a1) as [cs a2]. cbn [fst snd] in *.
  rewrite <- Hres. cbn [Harness.waiting_from]. rewrite E.
  split; [exact Hwait|].
  unfold Harness.results_of. cbn [flat_map]. rewrite E. reflexivity.
Qed.

Lemma dispatch_never_awaits batch a turn :
  never_awaits verify ->
  dispatch batch a turn
  = Some (fst (each_in_turn verify_alone batch a),
          snd (each_in_turn verify_alone batch a), turn).
Proof.
  intros Hnever. unfold Harness.dispatch.
  destruct (start_all_never_awaits batch Hnever a) as [Hwait Hres].
  destruct (start_all batch a) as [pool a1]. cbn [fst snd] in *.
  rewrite <- Hres. cbn [fst snd].
  destruct (to_await pool); cbn [Harness.settle_all]; rewrite Hwait;
    reflexivity.
Qed.

Lemma batches_from_never_awaits contexts c :
  0 < c -> never_awaits verify ->
  forall fuel i results a turn,
    0 <= i ->
    Z.of_nat (length contexts) - i < Z.of_nat fuel ->
    (0 < fuel)%nat ->
    batches_from fuel contexts c i results a turn
    = Some (results
              ++ fst (each_in_turn verify_alone
                        (skipn (Z.to_nat i) contexts) a),
            snd (each_in_turn verify_alone (skipn (Z.to_nat i) contexts) a),
            turn).
Proof.
  intros Hc Hnever.
  induction fuel as [|fuel IH]; intros i results a turn Hi Hfuel Hpos; [lia|].
  cbn [Harness.batches_from].
  destruct (Z.ltb_spec i (Z.of_nat (length contexts))) as [Hlt|Hge].
  - rewrite (slice_batch contexts i c Hc (conj Hi Hlt)).
    rewrite each_in_turn_app.
    rewrite (dispatch_never_awaits _ a turn Hnever).
    destruct (each_in_turn verify_alone (slice contexts i (i + c)) a)
      as [batchResults a'].
    cbn [fst snd].
    destruct fuel as [|fuel']; [lia|].
    rewrite IH by lia. rewrite <- app_assoc. reflexivity.
  - rewrite skipn_all2 by lia.
    cbn [each_in_turn fst snd]. rewrite app_nil_r. reflexivity.
Qed.


(** With a bound that is not positive the index never passes the end of a
    list it has not passed yet. *)
Lemma batches_from_stuck contexts c :
  c <= 0 ->
  forall fuel i results a turn,
    i <= 0 -> i < Z.of_nat (length contexts) ->
    batches_from fuel contexts c i results a turn = None.
Proof.
  intros Hc.
  induction fuel as [|fuel IH]; intros i results a turn Hi Hlt;
    [reflexivity|].
  cbn [Harness.batches_from].
  replace (i <? Z.of_nat (length contexts)) with true
    by (symmetry; apply Z.ltb_lt; exact Hlt).
  destruct (dispatch (slice contexts i (i + c)) a turn)
    as [[[batchResults a'] turn']|]; [|reflexivity].
  apply IH; lia.
Qed.

(** X12: the loop of [runConcurrentTests] ends exactly when the list of
    contexts is empty or the concurrency bound is positive, whatever
    [verify] does and in whatever order its calls are resumed: otherwise no
    number of steps gives a result. *)
Theorem runConcurrentTests_finishes_iff
    (contexts : list VerificationContext) (concurrency : Z)
    (a : VerifierAlpha) (turn : nat) :
  ((exists fuel r,
       batches_from fuel contexts concurrency 0 [] a turn = Some r)
   <-> contexts = [] \/ 0 < concurrency)
  /\ (runConcurrentTests contexts concurrency a turn <> None
      <-> contexts = [] \/ 0 < concurrency).
Proof.
  assert (Hends : contexts = [] \/ 0 < concurrency ->
                  exists r,
                    runConcurrentTests contexts concurrency a turn = Some r).
  { intros [-> | Hc]; [eexists; reflexivity|].
    destruct (runConcurrentTests_ends contexts concurrency a turn Hc)
      as (rs & a' & turn' & Hrun & _).
    eexists. exact Hrun. }
  assert (Hstuck : ~ (contexts = [] \/ 0 < concurrency) ->
                   forall fuel,
                     batches_from fuel contexts concurrency 0 [] a turn
                     = None).
  { intros Hnot fuel. destruct contexts as [|ctx others];
      [exfalso; apply Hnot; left; reflexivity|].
    apply batches_from_stuck; [lia | lia | cbn [length]; lia]. }
  split; split.
  - intros (fuel & r & Hrun).
    destruct contexts as [|ctx others]; [left; reflexivity|right].
    destruct (Z.lt_ge_cases 0 concurrency) as [Hc|Hc]; [exact Hc|].
    rewrite Hstuck in Hrun; [discriminate|]. intros [H|H]; [discriminate|lia].
  - intros H. destruct (Hends H) as [r Hr].
    exists (S (length contexts)), r. exact Hr.
  - intros Hrun.
    destruct contexts as [|ctx others]; [left; reflexivity|right].
    destruct (Z.lt_ge_cases 0 concurrency) as [Hc|Hc]; [exact Hc|].
    exfalso. apply Hrun. apply Hstuck.
    intros [H|H]; [discriminate|lia].
  - intros H. destruct (Hends H) as [r ->]. discriminate.
Qed.

End BatchedDispatch.


Example runConcurrentTests_three :
  option_map (fun r => map fst (fst (fst r)))
    (runConcurrentTests first_ready nat (nat * option jsstring)
       counting_verify three_contexts 2 O O)
  = Some [0%nat; 1%nat; 2%nat].
Proof. vm_compute. reflexivity. Qed.


(* ================================================================== *)
(** ** The orchestrator: the report and the exit code *)
(* ================================================================== *)

Section Runner.

Variable random : nat -> Q.
Variable Array_sort :
  (VerificationContext -> VerificationContext -> Rand Q) ->
  list VerificationContext -> Rand (list VerificationContext).
Variable now : nat -> Z.
Variable ready : nat -> nat.
Variable VerifierAlpha : Type.
Variable VerificationResult : Type.
Variable violation_types : VerificationResult -> list jsstring.
Variable new_VerifierAlpha : VerifierAlpha.
Variable reset : VerifierAlpha -> VerifierAlpha.
Variable getStats : VerifierAlpha -> Stats.
Variable verify :
  VerificationContext -> VerifierAlpha ->
  Call VerifierAlpha VerificationResult * VerifierAlpha.
Variable generateReport : TestResult -> jsstring.
Variable reportPath : Z -> jsstring.
Variable fs_writeFileSync : jsstring -> jsstring -> completion unit.

Local Abbreviation runFullSuite :=
  (Harness.runFullSuite random Array_sort now ready VerifierAlpha
     VerificationResult violation_types reset getStats verify).
Local Abbreviation new_Orchestrator :=
  (Harness.new_Orchestrator random VerifierAlpha new_VerifierAlpha).
Local Abbreviation main :=
  (Harness.main random Array_sort now ready VerifierAlpha VerificationResult
     violation_types new_VerifierAlpha reset getStats verify generateReport
     reportPath fs_writeFileSync).

(** The suite finishes, and its report reads the statistics of the verifier
    after the run. *)
Lemma runFullSuite_returns o (w : World VerifierAlpha) :
  exists result w1,
    runFullSuite o w = Some (result, w1)
    /\ tr_pass1 result = pass1 (getStats (architect _ w1))
    /\ meetsTarget result
       = Qle_bool (targetPass1 TEST_CONFIG) (tr_pass1 result).
Proof.
  unfold Harness.runFullSuite, Date_now. cbn [draws ticks turns architect].
  destruct (getRandomSubset random Array_sort (redTeamer o)
              (iterations TEST_CONFIG) (draws _ w)) as [attackVectors n].
  destruct (runConcurrentTests_ends ready VerifierAlpha VerificationResult
              verify attackVectors (concurrency TEST_CONFIG)
              (reset (architect _ w)) (turns _ w) ltac:(reflexivity))
    as (results & a & turn & -> & _).
  eexists. eexists. split; [reflexivity|]. split; reflexivity.
Qed.


End Runner.


(* ================================================================== *)
(** ** Strings: trimming, splitting and joining *)
(* ================================================================== *)

Lemma plain_char_cases c :
  plain_char c = true -> 48 <= c <= 57 \/ c = 45 \/ c = 78 \/ c = 97.
Proof.
  unfold plain_char. rewrite !orb_true_iff, is_digit_bounds, !Z.eqb_eq.
  tauto.
Qed.

Lemma plain_char_not_white_space c :
  plain_char c = true -> is_white_space c = false.
Proof.
  intros H. apply plain_char_cases in H.
  unfold is_white_space. cases_on_comparisons.
Qed.

Lemma plain_char_not_dot c : plain_char c = true -> (c =? 46) = false.
Proof.
  intros H. apply plain_char_cases in H. apply Z.eqb_neq. lia.
Qed.

Lemma plain_no_white_space t :
  forallb plain_char t = true -> no_white_space t = true.
Proof.
  unfold no_white_space. rewrite !forallb_forall. intros H c Hc.
  rewrite (plain_char_not_white_space c (H c Hc)). reflexivity.
Qed.

Lemma plain_no_dot t : forallb plain_char t = true -> no_dot t = true.
Proof.
  unfold no_dot. rewrite !forallb_forall. intros H c Hc.
  rewrite (plain_char_not_dot c (H c Hc)). reflexivity.
Qed.

Lemma trimStart_no_white_space s : no_white_space s = true -> trimStart s = s.
Proof.
  destruct s as [|c r]; [reflexivity|].
  cbn [no_white_space forallb trimStart]. intros H.
  apply andb_true_iff in H as [Hc _]. apply negb_true_iff in Hc.
  rewrite Hc. reflexivity.
Qed.

Lemma no_white_space_rev s : no_white_space (rev s) = no_white_space s.
Proof.
  unfold no_white_space. apply eq_true_iff_eq.
  rewrite !forallb_forall. split; intros H c Hc; apply H.
  - apply in_rev. rewrite rev_involutive. exact Hc.
  - apply in_rev. exact Hc.
Qed.

Lemma trim_no_white_space s : no_white_space s = true -> trim s = s.
Proof.
  intros H. unfold trim, trimEnd.
  rewrite (trimStart_no_white_space s H).
  rewrite trimStart_no_white_space by (rewrite no_white_space_rev; exact H).
  apply rev_involutive.
Qed.

Lemma trimStart_idempotent s : trimStart (trimStart s) = trimStart s.
Proof.
  induction s as [|c r IH]; [reflexivity|].
  cbn [trimStart]. destruct (is_white_space c) eqn:E; [exact IH|].
  cbn [trimStart]. rewrite E. reflexivity.
Qed.

Lemma trimEnd_snoc s c :
  trimEnd (s ++ [c]) = if is_white_space c then trimEnd s else s ++ [c].
Proof.
  unfold trimEnd. rewrite rev_app_distr. cbn [rev app trimStart].
  destruct (is_white_space c); [reflexivity|].
  cbn [rev]. rewrite rev_involutive. reflexivity.
Qed.

Lemma trimStart_fixed_prefix s c :
  trimStart (s ++ [c]) = s ++ [c] -> trimStart s = s.
Proof.
  destruct s as [|d r]; [reflexivity|].
  cbn [app trimStart]. destruct (is_white_space d); [|reflexivity].
  intros H. exfalso.
  assert (Hlen : (length (trimStart (r ++ [c])) <= length (r ++ [c]))%nat).
  { clear H. induction (r ++ [c]) as [|x l IH]; cbn [trimStart length];
      [lia|]. destruct (is_white_space x); cbn [length]; lia. }
  rewrite H in Hlen. cbn [length] in Hlen. lia.
Qed.

(** Trimming the end of a string that has nothing to trim at its start
    leaves nothing to trim at its start. *)
Lemma trimStart_trimEnd s :
  trimStart s = s -> trimStart (trimEnd s) = trimEnd s.
Proof.
  induction s as [|c s IH] using rev_ind; intros H; [reflexivity|].
  rewrite trimEnd_snoc. destruct (is_white_space c); [|exact H].
  apply IH. exact (trimStart_fixed_prefix s c H).
Qed.

Lemma trim_idempotent s : trim (trim s) = trim s.
Proof.
  unfold trim.
  rewrite (trimStart_trimEnd (trimStart s) (trimStart_idempotent s)).
  unfold trimEnd. rewrite rev_involutive, trimStart_idempotent.
  reflexivity.
Qed.

Lemma split_on_no_dot t : no_dot t = true -> split_on 46 t = [t].
Proof.
  induction t as [|c t IH]; [reflexivity|].
  cbn [no_dot forallb split_on]. intros H.
  apply andb_true_iff in H as [Hc Ht]. apply negb_true_iff in Hc.
  rewrite Hc, (IH Ht). reflexivity.
Qed.

Lemma split_on_app t rest :
  no_dot t = true -> split_on 46 (t ++ 46 :: rest) = t :: split_on 46 rest.
Proof.
  induction t as [|c t IH]; [reflexivity|].
  cbn [no_dot forallb split_on app]. intros H.
  apply andb_true_iff in H as [Hc Ht]. apply negb_true_iff in Hc.
  rewrite Hc, (IH Ht). reflexivity.
Qed.

Lemma all_digits_no_dot s : In 46 s -> all_digits s = false.
Proof.
  intros Hin. destruct s as [|c r]; [reflexivity|].
  unfold all_digits. apply not_true_is_false. intros H.
  rewrite forallb_forall in H. specialize (H 46 Hin). discriminate.
Qed.

Lemma hex_literal_no_dot s : In 46 s -> hex_literal s = false.
Proof.
  intros Hin. apply not_true_is_false. intros H.
  destruct s as [|c [|x [|y r]]]; try discriminate.
  cbn [hex_literal] in H.
  apply andb_true_iff in H as [H Hr]. apply andb_true_iff in H as [Hc Hx].
  apply Z.eqb_eq in Hc. apply Z.eqb_eq in Hx.
  rewrite forallb_forall in Hr.
  destruct Hin as [E|[E|Hin]]; [lia | lia |].
  specialize (Hr 46 Hin). discriminate.
Qed.

(** Four stable parts joined with dots are a fixed point of [normalizeIp]. *)
Lemma normalizeIp_fixed t1 t2 t3 t4 :
  stable_part t1 -> stable_part t2 -> stable_part t3 -> stable_part t4 ->
  normalizeIp (join (lit ".") [t1; t2; t3; t4])
  = join (lit ".") [t1; t2; t3; t4].
Proof.
  intros [P1 N1] [P2 N2] [P3 N3] [P4 N4].
  change (join (lit ".") [t1; t2; t3; t4])
    with (t1 ++ 46 :: t2 ++ 46 :: t3 ++ 46 :: t4).
  set (s := t1 ++ 46 :: t2 ++ 46 :: t3 ++ 46 :: t4).
  assert (Hws : no_white_space s = true).
  { subst s. unfold no_white_space.
    repeat (rewrite forallb_app; cbn [forallb]).
    fold (no_white_space t1) (no_white_space t2) (no_white_space t3)
         (no_white_space t4).
    rewrite !plain_no_white_space by assumption. reflexivity. }
  assert (Hin : In 46 s).
  { subst s. apply in_or_app. right. left. reflexivity. }
  assert (Hsplit : split_on 46 s = [t1; t2; t3; t4]).
  { subst s. rewrite !split_on_app by (apply plain_no_dot; assumption).
    rewrite split_on_no_dot by (apply plain_no_dot; assumption).
    reflexivity. }
  unfold normalizeIp. rewrite (trim_no_white_space s Hws).
  rewrite (all_digits_no_dot s Hin), (hex_literal_no_dot s Hin), Hsplit.
  cbn [length Nat.eqb map]. rewrite N1, N2, N3, N4. reflexivity.
Qed.

(* ================================================================== *)
(** ** Numbers: printing and reading back *)
(* ================================================================== *)

Lemma decimal_digits_aux_acc fuel :
  forall n acc,
    decimal_digits_aux fuel n acc = decimal_digits_aux fuel n [] ++ acc.
Proof.
  induction fuel as [|fuel IH]; intros n acc; [reflexivity|].
  cbn [decimal_digits_aux]. destruct (n <? 10); [reflexivity|].
  rewrite (IH (n / 10) (_ :: acc)), (IH (n / 10) [_]).
  rewrite <- app_assoc. reflexivity.
Qed.

Lemma decimal_digits_aux_step fuel n :
  decimal_digits_aux (S fuel) n []
  = if n <? 10 then [48 + n mod 10]
    else decimal_digits_aux fuel (n / 10) [] ++ [48 + n mod 10].
Proof.
  cbn [decimal_digits_aux]. destruct (n <? 10); [reflexivity|].
  apply decimal_digits_aux_acc.
Qed.

Lemma decimal_digits_aux_digits fuel :
  forall n, forallb is_digit (decimal_digits_aux fuel n []) = true.
Proof.
  induction fuel as [|fuel IH]; intros n; [reflexivity|].
  rewrite decimal_digits_aux_step.
  assert (Hd : is_digit (48 + n mod 10) = true).
  { apply is_digit_bounds.
    pose proof (Z.mod_pos_bound n 10 ltac:(lia)). lia. }
  destruct (n <? 10); cbn [forallb].
  - rewrite Hd. reflexivity.
  - rewrite forallb_app, IH. cbn [forallb]. rewrite Hd. reflexivity.
Qed.

Lemma decimal_value_snoc l d :
  decimal_value (l ++ [d]) = decimal_value l * 10 + (d - 48).
Proof.
  unfold decimal_value, math_int. rewrite map_app, fold_left_app.
  reflexivity.
Qed.

(** Reading the digits of [n] gives [n] back. *)
Lemma decimal_digits_aux_value fuel :
  forall n,
    0 <= n < 10 ^ Z.of_nat fuel ->
    decimal_value (decimal_digits_aux fuel n []) = n.
Proof.
  induction fuel as [|fuel IH]; intros n Hn.
  - change (10 ^ Z.of_nat 0) with 1 in Hn. cbn. lia.
  - rewrite decimal_digits_aux_step.
    destruct (Z.ltb_spec n 10) as [Hlt|Hge].
    + unfold decimal_value, math_int. cbn [map fold_left].
      rewrite Z.mod_small by lia. lia.
    + rewrite decimal_value_snoc, IH.
      * pose proof (Z.div_mod n 10 ltac:(lia)). lia.
      * rewrite Nat2Z.inj_succ, Z.pow_succ_r in Hn by lia.
        split; [apply Z.div_pos; lia|].
        apply Z.div_lt_upper_bound; lia.
Qed.

Lemma decimal_digits_aux_head fuel :
  forall n,
    0 < n < 10 ^ Z.of_nat fuel ->
    exists c r,
      decimal_digits_aux fuel n [] = c :: r /\ 49 <= c <= 57.
Proof.
  induction fuel as [|fuel IH]; intros n Hn.
  - change (10 ^ Z.of_nat 0) with 1 in Hn. lia.
  - rewrite decimal_digits_aux_step.
    destruct (Z.ltb_spec n 10) as [Hlt|Hge].
    + exists (48 + n mod 10), []. split; [reflexivity|].
      rewrite Z.mod_small by lia. lia.
    + destruct (IH (n / 10)) as (c & r & E & Hc).
      * rewrite Nat2Z.inj_succ, Z.pow_succ_r in Hn by lia.
        split; [apply Z.div_str_pos; lia|].
        apply Z.div_lt_upper_bound; lia.
      * rewrite E. exists c, (r ++ [48 + n mod 10]).
        split; [reflexivity | exact Hc].
Qed.

Lemma decimal_digits_aux_length fuel :
  forall n (k : nat),
    (1 <= k)%nat -> n < 10 ^ Z.of_nat k ->
    (length (decimal_digits_aux fuel n []) <= k)%nat.
Proof.
  induction fuel as [|fuel IH]; intros n k Hk Hn; [cbn; lia|].
  rewrite decimal_digits_aux_step.
  destruct (Z.ltb_spec n 10) as [Hlt|Hge]; [cbn; lia|].
  rewrite length_app. cbn [length].
  destruct k as [|k]; [lia|].
  destruct k as [|k].
  - change (10 ^ Z.of_nat 1) with 10 in Hn. lia.
  - specialize (IH (n / 10) (S k) ltac:(lia)).
    rewrite (Nat2Z.inj_succ (S k)), Z.pow_succ_r in Hn by lia.
    assert (n / 10 < 10 ^ Z.of_nat (S k))
      by (apply Z.div_lt_upper_bound; lia).
    specialize (IH H). lia.
Qed.

(** The fuel of [decimal_digits] is enough. *)
Lemma decimal_fuel n :
  0 <= n -> n < 10 ^ Z.of_nat (S (Z.to_nat (Z.log2 n))).
Proof.
  intros Hn. rewrite Nat2Z.inj_succ, Z2Nat.id by apply Z.log2_nonneg.
  destruct (Z.eq_dec n 0) as [->|Hnz]; [reflexivity|].
  pose proof (Z.log2_spec n ltac:(lia)) as [_ Hup].
  eapply Z.lt_le_trans; [exact Hup|].
  apply Z.pow_le_mono_l. pose proof (Z.log2_nonneg n). lia.
Qed.

Lemma decimal_digits_digits n : forallb is_digit (decimal_digits n) = true.
Proof. apply decimal_digits_aux_digits. Qed.

Lemma decimal_digits_value n :
  0 <= n -> decimal_value (decimal_digits n) = n.
Proof.
  intros Hn. apply decimal_digits_aux_value.
  split; [exact Hn | apply decimal_fuel; exact Hn].
Qed.

Lemma decimal_digits_head n :
  0 < n -> exists c r, decimal_digits n = c :: r /\ 49 <= c <= 57.
Proof.
  intros Hn. apply decimal_digits_aux_head.
  split; [exact Hn | apply decimal_fuel; lia].
Qed.

Lemma decimal_digits_length n :
  n < 10 ^ 21 -> (length (decimal_digits n) <= 21)%nat.
Proof.
  intros Hn. apply decimal_digits_aux_length; [lia | exact Hn].
Qed.

(** *** Rounding to a double *)

(** Above 2^53 the significand [m / 2^e] has 53 bits. *)
Lemma round_parts m :
  2 ^ 53 <= m ->
  1 <= Z.log2 m - 52
  /\ 2 ^ 52 <= m / 2 ^ (Z.log2 m - 52) < 2 ^ 53.
Proof.
  intros Hm.
  assert (HL : 53 <= Z.log2 m).
  { rewrite <- (Z.log2_pow2 53) by lia. apply Z.log2_le_mono. exact Hm. }
  pose proof (Z.log2_spec m ltac:(lia)) as [Hlo Hhi].
  set (e := Z.log2 m - 52) in *.
  replace (Z.log2 m) with (e + 52) in Hlo by (subst e; lia).
  replace (Z.succ (Z.log2 m)) with (e + 53) in Hhi by (subst e; lia).
  rewrite Z.pow_add_r in Hlo, Hhi by lia.
  assert (HP : 0 < 2 ^ e) by (apply Z.pow_pos_nonneg; lia).
  split; [lia|]. split.
  - apply Z.div_le_lower_bound; lia.
  - apply Z.div_lt_upper_bound; lia.
Qed.

(** A 53-bit significand scaled by a power of two is a double. *)
Lemma round_scaled q e :
  0 <= e -> 2 ^ 52 <= q <= 2 ^ 53 -> q * 2 ^ e < 2 ^ 1024 ->
  round_to_double (q * 2 ^ e) = Some (q * 2 ^ e).
Proof.
  intros He Hq Hv.
  assert (HP : 0 < 2 ^ e) by (apply Z.pow_pos_nonneg; lia).
  destruct (Z.eq_dec e 0) as [->|Hne].
  { change (2 ^ 0) with 1 in *. rewrite Z.mul_1_r in *.
    unfold round_to_double.
    destruct (Z.ltb_spec q (2 ^ 53)) as [|Hge]; [reflexivity|].
    assert (q = 2 ^ 53) as -> by lia. vm_compute. reflexivity. }
  assert (H2 : 2 ^ 1 <= 2 ^ e) by (apply Z.pow_le_mono_r; lia).
  change (2 ^ 1) with 2 in H2.
  unfold round_to_double.
  replace (q * 2 ^ e <? 2 ^ 53) with false
    by (symmetry; apply Z.ltb_ge; nia).
  cbv zeta. rewrite Z.log2_mul_pow2 by lia.
  destruct (Z.eq_dec q (2 ^ 53)) as [->|Hq'].
  - rewrite Z.log2_pow2 by lia.
    replace (e + 53 - 52) with (e + 1) by lia.
    replace (2 ^ 53 * 2 ^ e) with (2 ^ 52 * 2 ^ (e + 1))
      by (rewrite (Z.pow_add_r 2 e 1) by lia; lia).
    assert (HP' : 0 < 2 ^ (e + 1)) by (apply Z.pow_pos_nonneg; lia).
    rewrite Z.div_mul, Z.mod_mul by lia.
    replace (e + 1 - 1) with e by lia.
    replace (2 ^ e <? 0) with false by (symmetry; apply Z.ltb_ge; lia).
    replace (0 =? 2 ^ e) with false by (symmetry; apply Z.eqb_neq; lia).
    cbn [orb andb].
    replace (2 ^ 52 * 2 ^ (e + 1) <? 2 ^ 1024) with true; [reflexivity|].
    symmetry. apply Z.ltb_lt.
    rewrite (Z.pow_add_r 2 e 1) by lia. lia.
  - assert (HL : Z.log2 q = 52).
    { apply Z.log2_unique; [lia|]. change (Z.succ 52) with 53. lia. }
    rewrite HL. replace (e + 52 - 52) with e by lia.
    rewrite Z.div_mul, Z.mod_mul by lia.
    assert (HH : 0 < 2 ^ (e - 1)) by (apply Z.pow_pos_nonneg; lia).
    replace (2 ^ (e - 1) <? 0) with false by (symmetry; apply Z.ltb_ge; lia).
    replace (0 =? 2 ^ (e - 1)) with false
      by (symmetry; apply Z.eqb_neq; lia).
    cbn [orb andb].
    replace (q * 2 ^ e <? 2 ^ 1024) with true
      by (symmetry; apply Z.ltb_lt; exact Hv).
    reflexivity.
Qed.

(** What [round_to_double] returns is a double: rounding it again changes
    nothing. *)
Lemma round_to_double_idempotent m v :
  round_to_double m = Some v -> round_to_double v = Some v /\ (0 <= m -> 0 <= v).
Proof.
  unfold round_to_double at 1.
  destruct (Z.ltb_spec m (2 ^ 53)) as [Hlt|Hge].
  - intros [= <-]. split; [apply round_to_double_exact; exact Hlt | auto].
  - cbv zeta. destruct (round_parts m Hge) as [He Hq].
    set (e := Z.log2 m - 52) in *. set (q := m / 2 ^ e) in *.
    match goal with
    | |- context [if ?c then q + 1 else q] =>
        set (q' := if c then q + 1 else q);
        assert (Hq' : 2 ^ 52 <= q' <= 2 ^ 53)
          by (subst q'; destruct c; lia)
    end.
    destruct (Z.ltb_spec (q' * 2 ^ e) (2 ^ 1024)) as [Hv|]; [|discriminate].
    intros [= <-]. split.
    + apply round_scaled; [lia | exact Hq' | exact Hv].
    + intros _. apply Z.mul_nonneg_nonneg; [lia|].
      apply Z.pow_nonneg. lia.
Qed.

(** *** The shortest decimal of a double *)

Lemma rounds_to_true m c :
  rounds_to m c = true -> round_to_double c = Some m.
Proof.
  unfold rounds_to. destruct (round_to_double c) as [v|]; [|discriminate].
  intros H. apply Z.eqb_eq in H. subst v. reflexivity.
Qed.

(** The integer that is printed converts back to the double printed. *)
Lemma shortest_from_rounds j m :
  round_to_double m = Some m ->
  round_to_double (shortest_from j m) = Some m.
Proof.
  intros Hm. induction j as [|j IH]; [exact Hm|].
  cbn [shortest_from]. cbv zeta.
  set (p := 10 ^ Z.of_nat (S j)).
  destruct (rounds_to m (m / p * p)) eqn:Hlo;
    destruct (rounds_to m (m / p * p + p)) eqn:Hhi;
    try (apply rounds_to_true; assumption); [|exact IH].
  destruct (_ <? _); [apply rounds_to_true; assumption|].
  destruct (_ <? _); [apply rounds_to_true; assumption|].
  destruct (Z.even _); apply rounds_to_true; assumption.
Qed.

Lemma round_to_double_10_21 : round_to_double (10 ^ 21) = Some (10 ^ 21).
Proof. vm_compute. reflexivity. Qed.

(** Below 10^21 the integer printed is below 10^21 too. *)
Lemma shortest_from_bounds j m :
  (j <= 21)%nat -> 0 < m < 10 ^ 21 ->
  0 < shortest_from j m < 10 ^ 21.
Proof.
  intros Hj Hm. induction j as [|j IH]; [exact Hm|].
  cbn [shortest_from]. cbv zeta.
  set (p := 10 ^ Z.of_nat (S j)).
  assert (Hp : 0 < p) by (apply Z.pow_pos_nonneg; lia).
  assert (Hsplit : 10 ^ 21 = p * 10 ^ (21 - Z.of_nat (S j))).
  { subst p. rewrite <- Z.pow_add_r by lia. f_equal. lia. }
  assert (Hk : 0 < 10 ^ (21 - Z.of_nat (S j)))
    by (apply Z.pow_pos_nonneg; lia).
  set (k := 10 ^ (21 - Z.of_nat (S j))) in *.
  assert (Hd : 0 <= m / p < k).
  { split; [apply Z.div_pos; lia|].
    apply Z.div_lt_upper_bound; [exact Hp | lia]. }
  assert (Hle : m / p * p <= m).
  { pose proof (Z.mul_div_le m p Hp). lia. }
  assert (Hlo : rounds_to m (m / p * p) = true -> 0 < m / p * p < 10 ^ 21).
  { intros H. apply rounds_to_true in H. split; [|lia].
    destruct (Z.eq_dec (m / p) 0) as [E|E]; [|nia].
    rewrite E in H. cbn in H. injection H as H. lia. }
  assert (Hhi : rounds_to m (m / p * p + p) = true ->
                0 < m / p * p + p < 10 ^ 21).
  { intros H. apply rounds_to_true in H. split; [nia|].
    assert (m / p * p + p <= 10 ^ 21) by (rewrite Hsplit; nia).
    destruct (Z.eq_dec (m / p * p + p) (10 ^ 21)) as [E|E]; [|lia].
    rewrite E, round_to_double_10_21 in H. injection H as H. lia. }
  destruct (rounds_to m (m / p * p));
    destruct (rounds_to m (m / p * p + p));
    try (apply Hlo; reflexivity); try (apply Hhi; reflexivity);
    [|apply IH; lia].
  destruct (_ <? _); [apply Hlo; reflexivity|].
  destruct (_ <? _); [apply Hhi; reflexivity|].
  destruct (Z.even _); [apply Hlo | apply Hhi]; reflexivity.
Qed.

Lemma shortest_decimal_rounds m :
  round_to_double m = Some m -> round_to_double (shortest_decimal m) = Some m.
Proof. apply shortest_from_rounds. Qed.

Lemma shortest_decimal_bounds m :
  0 < m < 10 ^ 21 -> 0 < shortest_decimal m < 10 ^ 21.
Proof.
  intros Hm. apply shortest_from_bounds; [|exact Hm].
  pose proof (decimal_digits_length m ltac:(lia)). lia.
Qed.

(** Below 10^21 a positive double prints as the digits of its shortest
    decimal. *)
Lemma positive_to_string_plain m :
  0 < m < 10 ^ 21 ->
  positive_to_string m = decimal_digits (shortest_decimal m).
Proof.
  intros Hm. unfold positive_to_string. cbv zeta.
  pose proof (shortest_decimal_bounds m Hm) as Hv.
  pose proof (decimal_digits_length (shortest_decimal m) ltac:(lia)) as Hlen.
  replace (Z.of_nat (length (decimal_digits (shortest_decimal m))) <=? 21)
    with true by (symmetry; apply Z.leb_le; lia).
  reflexivity.
Qed.

(** *** Reading a printed number *)

Lemma parseInt_minus_digits ds :
  all_digits ds = true ->
  parseInt (45 :: ds) 10 = to_double true (decimal_value ds).
Proof.
  destruct ds as [|c r]; [discriminate|].
  unfold all_digits. intros Hall.
  pose proof Hall as Hds. apply digits_prefix_all_digits in Hds.
  unfold parseInt.
  rewrite (trimStart_keeps 45 (c :: r)) by reflexivity.
  change (45 =? 45) with true. change (45 =? 43) with false.
  cbn [orb]. change ((10 =? 0) || (10 =? 16)) with false. cbn [andb].
  change (negb (10 =? 0) && ((10 <? 2) || (36 <? 10))) with false.
  change (if 10 =? 0 then 10 else 10) with 10.
  cbv beta iota zeta.
  rewrite Hds. cbn [map]. reflexivity.
Qed.

Lemma all_digits_decimal_digits v :
  0 < v -> all_digits (decimal_digits v) = true.
Proof.
  intros Hv. destruct (decimal_digits_head v Hv) as (c & r & E & _).
  pose proof (decimal_digits_digits v) as H. rewrite E in *.
  exact H.
Qed.

(** The callback of step 4 on the digits of a positive integer, and on
    these digits after a minus sign. *)
Lemma normalizePart_decimal v :
  0 < v ->
  normalizePart (decimal_digits v) = number_to_string (to_double false v)
  /\ normalizePart (45 :: decimal_digits v)
     = number_to_string (to_double true v).
Proof.
  intros Hv. pose proof (all_digits_decimal_digits v Hv) as Hall.
  pose proof (decimal_digits_value v ltac:(lia)) as Hval.
  destruct (decimal_digits_head v Hv) as (c & r & E & Hc).
  unfold normalizePart. change (lit "0x") with [48; 120].
  change (lit "0") with [48]. rewrite E in *. cbn [startsWith].
  replace (c =? 48) with false by (symmetry; apply Z.eqb_neq; lia).
  change (45 =? 48) with false. cbn [andb].
  rewrite (parseInt_all_digits _ Hall), (parseInt_minus_digits _ Hall), Hval.
  split; reflexivity.
Qed.

Lemma plain_decimal_digits v : forallb plain_char (decimal_digits v) = true.
Proof.
  pose proof (decimal_digits_digits v) as H.
  rewrite forallb_forall in *. intros c Hc. unfold plain_char.
  rewrite (H c Hc). reflexivity.
Qed.

(** A number printed in plain digits is printed as a stable part. *)
Lemma printed_plain_stable x :
  is_double x -> printed_plain x -> stable_part (number_to_string x).
Proof.
  destruct x as [ | b | z]; cbn [is_double printed_plain];
    intros Hdouble Hplain.
  - split; vm_compute; reflexivity.
  - contradiction.
  - unfold number_to_string.
    destruct (Z.eqb_spec z 0) as [->|Hz]; [split; vm_compute; reflexivity|].
    destruct (Z.ltb_spec z 0) as [Hneg|Hpos].
    + rewrite Z.abs_neq in * by lia.
      assert (Hm : 0 < - z < 10 ^ 21) by lia.
      rewrite (positive_to_string_plain _ Hm).
      pose proof (shortest_decimal_bounds _ Hm) as Hv.
      pose proof (shortest_decimal_rounds _ Hdouble) as Hr.
      split.
      * change (lit "-") with [45]. cbn [app forallb].
        rewrite plain_decimal_digits. reflexivity.
      * change (lit "-") with [45]. cbn [app].
        rewrite (proj2 (normalizePart_decimal (shortest_decimal (- z))
                          ltac:(lia))).
        unfold to_double. rewrite Hr. rewrite Z.opp_involutive.
        unfold number_to_string.
        replace (z =? 0) with false by (symmetry; apply Z.eqb_neq; lia).
        replace (z <? 0) with true by (symmetry; apply Z.ltb_lt; lia).
        rewrite (positive_to_string_plain _ Hm). reflexivity.
    + rewrite Z.abs_eq in * by lia.
      assert (Hm : 0 < z < 10 ^ 21) by lia.
      rewrite (positive_to_string_plain _ Hm).
      pose proof (shortest_decimal_bounds _ Hm) as Hv.
      pose proof (shortest_decimal_rounds _ Hdouble) as Hr.
      split; [apply plain_decimal_digits|].
      rewrite (proj1 (normalizePart_decimal (shortest_decimal z) ltac:(lia))).
      unfold to_double. rewrite Hr.
      unfold number_to_string.
      replace (z =? 0) with false by (symmetry; apply Z.eqb_neq; lia).
      replace (z <? 0) with false by (symmetry; apply Z.ltb_ge; lia).
      rewrite (positive_to_string_plain _ Hm). reflexivity.
Qed.

Lemma digit_value_nonneg c d : digit_value c = Some d -> 0 <= d.
Proof.
  unfold digit_value.
  destruct (Z.leb_spec 48 c); cbn [andb];
    [destruct (c <=? 57); [intros [= <-]; lia|] |];
    (destruct (Z.leb_spec 97 c); cbn [andb];
     [destruct (c <=? 122); [intros [= <-]; lia|] |];
     (destruct (Z.leb_spec 65 c); cbn [andb];
      [destruct (c <=? 90); [intros [= <-]; lia | discriminate]
      | discriminate])).
Qed.

Lemma digits_prefix_nonneg R s : Forall (fun d => 0 <= d) (digits_prefix R s).
Proof.
  induction s as [|c r IH]; cbn [digits_prefix]; [constructor|].
  unfold radix_digit. destruct (digit_value c) as [d|] eqn:E; [|constructor].
  destruct (d <? R); constructor; [|exact IH].
  exact (digit_value_nonneg c d E).
Qed.

Lemma math_int_nonneg R ds :
  0 <= R -> Forall (fun d => 0 <= d) ds -> 0 <= math_int R ds.
Proof.
  intros HR Hds. unfold math_int.
  assert (H : forall acc, 0 <= acc ->
                0 <= fold_left (fun acc d => acc * R + d) ds acc).
  { induction Hds as [|d ds Hd _ IH]; intros acc Hacc; cbn [fold_left];
      [exact Hacc|]. apply IH. nia. }
  apply H. lia.
Qed.

Lemma to_double_is_double negative m :
  0 <= m -> is_double (to_double negative m).
Proof.
  intros Hm. unfold to_double.
  destruct (round_to_double m) as [v|] eqn:E; [|exact I].
  destruct (round_to_double_idempotent m v E) as [Hv Hnn].
  specialize (Hnn Hm). cbn [is_double].
  destruct negative.
  - rewrite Z.abs_neq by lia. rewrite Z.opp_involutive. exact Hv.
  - rewrite Z.abs_eq by lia. exact Hv.
Qed.

(** [parseInt] returns NaN, an infinity or an integer that is a double. *)
Lemma parseInt_is_double s radix : is_double (parseInt s radix).
Proof.
  unfold parseInt. cbv zeta.
  destruct (negb (radix =? 0) && ((radix <? 2) || (36 <? radix))) eqn:Hr;
    [exact I|].
  set (R0 := if radix =? 0 then 10 else radix).
  assert (HR0 : 0 <= R0).
  { subst R0. destruct (Z.eqb_spec radix 0); [lia|].
    cbn [negb andb] in Hr. apply orb_false_iff in Hr as [H _].
    apply Z.ltb_ge in H. lia. }
  match goal with
  | |- context [digits_prefix (if ?c then 16 else R0) ?S2] =>
      set (R := if c then 16 else R0);
      assert (HR : 0 <= R) by (subst R; destruct c; lia);
      pose proof (digits_prefix_nonneg R S2) as Hds;
      destruct (digits_prefix R S2) as [|d ds]; [exact I|];
      apply to_double_is_double; apply math_int_nonneg; assumption
  end.
Qed.

Lemma normalizePart_number part :
  normalizePart part = number_to_string (partNumber part).
Proof.
  unfold normalizePart, partNumber.
  destruct (startsWith part (lit "0x")); [reflexivity|].
  destruct (_ && _); reflexivity.
Qed.

Lemma partNumber_is_double part : is_double (partNumber part).
Proof.
  unfold partNumber.
  destruct (startsWith part (lit "0x")); [apply parseInt_is_double|].
  destruct (_ && _); apply parseInt_is_double.
Qed.

Lemma octet_stable o :
  0 <= o <= 255 -> stable_part (number_to_string (Num o)).
Proof.
  intros Ho. apply printed_plain_stable.
  - cbn [is_double]. rewrite Z.abs_eq by lia.
    apply round_to_double_exact. lia.
  - cbn [printed_plain]. rewrite Z.abs_eq by lia. lia.
Qed.

(** The dotted octets of the single-number paths are a fixed point. *)
Lemma dotted_octets_fixed num :
  normalizeIp (dotted (octets num)) = dotted (octets num).
Proof.
  rewrite octets_uint32.
  pose proof (uint32_octets_range (integer_or_zero num)) as Hrange.
  unfold uint32_octets in *. cbv zeta in *.
  inversion_clear Hrange as [|? ? H1 Hrange1].
  inversion_clear Hrange1 as [|? ? H2 Hrange2].
  inversion_clear Hrange2 as [|? ? H3 Hrange3].
  inversion_clear Hrange3 as [|? ? H4 _].
  unfold dotted. cbn [map].
  apply normalizeIp_fixed; apply octet_stable; assumption.
Qed.

(** C3, as the code has it: [normalizeIp] is idempotent on every input,
    unless the trimmed input splits on dots into exactly four parts and one
    of them parses to an infinity or to an integer of magnitude 10^21 or
    more, which [toString] does not print in plain digits. *)
Theorem normalizeIp_idempotent (ip : jsstring) :
  (length (split_on 46 (trim ip)) = 4%nat ->
   Forall (fun part => printed_plain (partNumber part))
          (split_on 46 (trim ip))) ->
  normalizeIp (normalizeIp ip) = normalizeIp ip.
Proof.
  intros Hplain.
  destruct (all_digits (trim ip)) eqn:Hdigits.
  { assert (E : normalizeIp ip = dotted (octets (parseInt (trim ip) 10)))
      by (unfold normalizeIp; rewrite Hdigits; reflexivity).
    rewrite E. apply dotted_octets_fixed. }
  destruct (hex_literal (trim ip)) eqn:Hhex.
  { assert (E : normalizeIp ip = dotted (octets (parseInt (trim ip) 16)))
      by (unfold normalizeIp; rewrite Hdigits, Hhex; reflexivity).
    rewrite E. apply dotted_octets_fixed. }
  destruct (Nat.eqb (length (split_on 46 (trim ip))) 4) eqn:Hparts.
  - assert (E : normalizeIp ip
                = join (lit ".") (map normalizePart (split_on 46 (trim ip))))
      by (unfold normalizeIp; rewrite Hdigits, Hhex, Hparts; reflexivity).
    apply Nat.eqb_eq in Hparts. specialize (Hplain Hparts).
    destruct (split_on 46 (trim ip)) as [|p1 [|p2 [|p3 [|p4 [|p5 ps]]]]];
      try discriminate.
    inversion_clear Hplain as [|? ? H1 Hplain1].
    inversion_clear Hplain1 as [|? ? H2 Hplain2].
    inversion_clear Hplain2 as [|? ? H3 Hplain3].
    inversion_clear Hplain3 as [|? ? H4 _].
    rewrite E. cbn [map]. rewrite !normalizePart_number.
    apply normalizeIp_fixed; apply printed_plain_stable;
      try apply partNumber_is_double; assumption.
  - assert (E : normalizeIp ip = trim ip)
      by (unfold normalizeIp; rewrite Hdigits, Hhex, Hparts; reflexivity).
    rewrite E. unfold normalizeIp.
    rewrite trim_idempotent, Hdigits, Hhex, Hparts. reflexivity.
Qed.

Lemma normalizeIp_idempotent_witness :
  normalizeIp (normalizeIp (lit " 0x0a.012.-7.zz "))
  = normalizeIp (lit " 0x0a.012.-7.zz ").
Proof.
  apply (normalizeIp_idempotent (lit " 0x0a.012.-7.zz ")).
  intros _.
  change (split_on 46 (trim (lit " 0x0a.012.-7.zz ")))
    with [lit "0x0a"; lit "012"; lit "-7"; lit "zz"].
  repeat (apply Forall_cons; [vm_compute; try reflexivity; exact I|]).
  apply Forall_nil.
Defined.

(** C3 as stated fails: 10^21 as first part is read as the double 1e21 and
    printed back as ["1e+21"]; a second pass reads that part as 1. *)
Lemma normalizeIp_not_idempotent :
  normalizeIp (lit "1000000000000000000000.1.1.1") = lit "1e+21.1.1.1"
  /\ normalizeIp (normalizeIp (lit "1000000000000000000000.1.1.1"))
     = lit "1.1.1.1"
  /\ normalizeIp (normalizeIp (lit "1000000000000000000000.1.1.1"))
     <> normalizeIp (lit "1000000000000000000000.1.1.1").
Proof.
  split; [vm_compute; reflexivity|].
  split; [vm_compute; reflexivity|].
  vm_compute. discriminate.
Qed.

(* ================================================================== *)
(** ** More on the normaliser *)
(* ================================================================== *)

Lemma trimStart_all_white_space pad s :
  forallb is_white_space pad = true -> trimStart (pad ++ s) = trimStart s.
Proof.
  induction pad as [|c pad IH]; [reflexivity|].
  cbn [forallb app trimStart]. intros H.
  apply andb_true_iff in H as [Hc Hpad]. rewrite Hc. exact (IH Hpad).
Qed.

Lemma trimStart_app s p :
  trimStart (s ++ p)
  = match trimStart s with
    | [] => trimStart p
    | t => t ++ p
    end.
Proof.
  induction s as [|c s IH]; cbn [app trimStart].
  - destruct (trimStart p); reflexivity.
  - destruct (is_white_space c); [exact IH | reflexivity].
Qed.

Lemma trimEnd_all_white_space s pad :
  forallb is_white_space pad = true -> trimEnd (s ++ pad) = trimEnd s.
Proof.
  intros H. unfold trimEnd. rewrite rev_app_distr.
  rewrite trimStart_all_white_space; [reflexivity|].
  rewrite forallb_forall in *. intros c Hc. apply H, in_rev. exact Hc.
Qed.

Lemma trim_padding pad1 s pad2 :
  forallb is_white_space pad1 = true ->
  forallb is_white_space pad2 = true ->
  trim (pad1 ++ s ++ pad2) = trim s.
Proof.
  intros H1 H2. unfold trim.
  rewrite (trimStart_all_white_space pad1 _ H1), trimStart_app.
  destruct (trimStart s) as [|c t] eqn:E.
  - rewrite <- (app_nil_r pad2), (trimStart_all_white_space pad2 [] H2).
    reflexivity.
  - apply trimEnd_all_white_space. exact H2.
Qed.

(** X1: white space around an address does not count: an input padded on
    both sides with any white space (spaces, tabs, line ends, the Unicode
    spaces of [trim]) normalises like the input itself. *)
Theorem normalizeIp_padding (pad1 s pad2 : jsstring) :
  forallb is_white_space pad1 = true ->
  forallb is_white_space pad2 = true ->
  normalizeIp (pad1 ++ s ++ pad2) = normalizeIp s.
Proof.
  intros H1 H2. unfold normalizeIp.
  rewrite (trim_padding pad1 s pad2 H1 H2). reflexivity.
Qed.

Lemma normalizeIp_padding_witness :
  normalizeIp ([9; 32; 160] ++ lit "0x0a000005" ++ [10; 8232])
  = normalizeIp (lit "0x0a000005").
Proof.
  apply (normalizeIp_padding [9; 32; 160] (lit "0x0a000005") [10; 8232]);
    reflexivity.
Defined.

(** *** The hexadecimal path *)

Lemma is_hex_digit_cases c :
  is_hex_digit c = true ->
  48 <= c <= 57 \/ 97 <= c <= 102 \/ 65 <= c <= 70.
Proof.
  unfold is_hex_digit, is_digit.
  rewrite !orb_true_iff, !andb_true_iff, !Z.leb_le. tauto.
Qed.

Lemma radix_digit_hex c :
  is_hex_digit c = true -> radix_digit 16 c = Some (hex_digit_value c).
Proof.
  intros H. apply is_hex_digit_cases in H.
  unfold radix_digit, digit_value, hex_digit_value.
  destruct H as [H|[H|H]].
  - replace ((48 <=? c) && (c <=? 57)) with true
      by (symmetry; apply andb_true_iff; rewrite !Z.leb_le; lia).
    replace (c - 48 <? 16) with true by (symmetry; apply Z.ltb_lt; lia).
    replace (c <=? 57) with true by (symmetry; apply Z.leb_le; lia).
    reflexivity.
  - replace ((48 <=? c) && (c <=? 57)) with false
      by (symmetry; apply andb_false_iff; right; apply Z.leb_gt; lia).
    replace ((97 <=? c) && (c <=? 122)) with true
      by (symmetry; apply andb_true_iff; rewrite !Z.leb_le; lia).
    replace (c - 87 <? 16) with true by (symmetry; apply Z.ltb_lt; lia).
    replace (c <=? 57) with false by (symmetry; apply Z.leb_gt; lia).
    replace (97 <=? c) with true by (symmetry; apply Z.leb_le; lia).
    reflexivity.
  - replace ((48 <=? c) && (c <=? 57)) with false
      by (symmetry; apply andb_false_iff; right; apply Z.leb_gt; lia).
    replace ((97 <=? c) && (c <=? 122)) with false
      by (symmetry; apply andb_false_iff; left; apply Z.leb_gt; lia).
    replace ((65 <=? c) && (c <=? 90)) with true
      by (symmetry; apply andb_true_iff; rewrite !Z.leb_le; lia).
    replace (c - 55 <? 16) with true by (symmetry; apply Z.ltb_lt; lia).
    replace (c <=? 57) with false by (symmetry; apply Z.leb_gt; lia).
    replace (97 <=? c) with false by (symmetry; apply Z.leb_gt; lia).
    reflexivity.
Qed.

Lemma digits_prefix_all_hex s :
  forallb is_hex_digit s = true ->
  digits_prefix 16 s = map hex_digit_value s.
Proof.
  induction s as [|c r IH]; cbn [forallb digits_prefix map]; [reflexivity|].
  rewrite andb_true_iff. intros [Hc Hr].
  rewrite (radix_digit_hex c Hc), (IH Hr). reflexivity.
Qed.

(** [parseInt] of a [0x] literal, radix 16: the double nearest to the value
    of its digits. *)
Lemma parseInt_hex_literal s :
  hex_literal s = true ->
  parseInt s 16 = to_double false (hex_value (skipn 2 s)).
Proof.
  destruct s as [|c [|x [|y r]]]; try discriminate.
  cbn [hex_literal]. intros H.
  apply andb_true_iff in H as [H Hr]. apply andb_true_iff in H as [Hc Hx].
  apply Z.eqb_eq in Hc. apply Z.eqb_eq in Hx. subst c x.
  pose proof (digits_prefix_all_hex _ Hr) as Hds.
  unfold parseInt. rewrite (trimStart_keeps 48) by reflexivity.
  change (48 =? 45) with false. change (48 =? 43) with false.
  cbn [orb andb].
  change (negb (16 =? 0) && ((16 <? 2) || (36 <? 16))) with false.
  change ((16 =? 0) || (16 =? 16)) with true.
  cbv beta iota zeta. cbn [skipn andb].
  change ((48 =? 48) && ((120 =? 120) || (120 =? 88))) with true.
  cbv beta iota.
  rewrite Hds. cbn [map]. reflexivity.
Qed.

Lemma hex_literal_not_all_digits s :
  hex_literal s = true -> all_digits s = false.
Proof.
  destruct s as [|c [|x [|y r]]]; try discriminate.
  cbn [hex_literal]. intros H.
  apply andb_true_iff in H as [H _]. apply andb_true_iff in H as [_ Hx].
  apply Z.eqb_eq in Hx. subst x. unfold all_digits. cbn [forallb].
  change (is_digit 120) with false. rewrite andb_false_r. reflexivity.
Qed.

(** X2: on an input that is a [0x] literal once trimmed, [normalizeIp]
    returns four octets in 0..255 joined with dots: those of the double
    nearest to the value of the hexadecimal digits, reduced modulo 2^32; when
    that value is below 2^53 they are the octets of the value itself modulo
    2^32. *)
Theorem normalizeIp_single_hex (ip : jsstring) :
  hex_literal (trim ip) = true ->
  let v := hex_value (skipn 2 (trim ip)) in
  normalizeIp ip
  = dotted (map Num (uint32_octets (integer_or_zero (to_double false v))))
  /\ Forall octet (uint32_octets (integer_or_zero (to_double false v)))
  /\ (v < 2 ^ 53 -> normalizeIp ip = dotted (map Num (uint32_octets v))).
Proof.
  intros Hhex v.
  assert (Hcode : normalizeIp ip
                  = dotted (map Num (uint32_octets
                                       (integer_or_zero (to_double false v))))).
  { unfold normalizeIp.
    rewrite (hex_literal_not_all_digits _ Hhex), Hhex.
    rewrite (parseInt_hex_literal _ Hhex), octets_uint32. reflexivity. }
  split; [exact Hcode|]. split; [apply uint32_octets_range|].
  intros Hsmall. rewrite Hcode. unfold to_double.
  rewrite (round_to_double_exact v Hsmall). reflexivity.
Qed.

Lemma normalizeIp_single_hex_witness :
  normalizeIp (lit " 0x1C0A80132 ")
  = dotted (map Num (uint32_octets 7527203122)).
Proof.
  apply (normalizeIp_single_hex (lit " 0x1C0A80132 ")).
  - reflexivity.
  - vm_compute. reflexivity.
Defined.

Example normalizeIp_hex_wraps :
  normalizeIp (lit " 0x1C0A80132 ") = lit "192.168.1.50".
Proof. vm_compute. reflexivity. Qed.

(** *** Canonical addresses *)

(** X3: a canonical dotted quad, four octets from 0 to 255 printed in
    decimal, is left as it is by [normalizeIp]. *)
Theorem normalizeIp_canonical_quad (a b c d : Z) :
  octet a -> octet b -> octet c -> octet d ->
  normalizeIp (dotted [Num a; Num b; Num c; Num d])
  = dotted [Num a; Num b; Num c; Num d].
Proof.
  intros Ha Hb Hc Hd. unfold dotted. cbn [map].
  apply normalizeIp_fixed; apply octet_stable; assumption.
Qed.

Lemma normalizeIp_canonical_quad_witness :
  normalizeIp (dotted [Num 172; Num 16; Num 0; Num 255])
  = dotted [Num 172; Num 16; Num 0; Num 255].
Proof.
  apply (normalizeIp_canonical_quad 172 16 0 255); unfold octet; lia.
Defined.

Lemma str_eqb_eq s t : str_eqb s t = true <-> s = t.
Proof.
  revert t. induction s as [|c s IH]; intros [|d t]; cbn [str_eqb];
    try (split; [discriminate | discriminate]); [tauto|].
  rewrite andb_true_iff, Z.eqb_eq, IH. split.
  - intros [-> ->]. reflexivity.
  - intros [= -> ->]. split; reflexivity.
Qed.

Lemma approved_cases s :
  includes APPROVED_IPS s = true
  <-> s = lit "10.0.0.5" \/ s = lit "192.168.1.50".
Proof.
  unfold includes, APPROVED_IPS. cbn [existsb].
  rewrite !orb_true_iff, !str_eqb_eq. intuition discriminate.
Qed.

Lemma split_on_join4 t1 t2 t3 t4 :
  no_dot t1 = true -> no_dot t2 = true -> no_dot t3 = true ->
  no_dot t4 = true ->
  split_on 46 (join (lit ".") [t1; t2; t3; t4]) = [t1; t2; t3; t4].
Proof.
  intros H1 H2 H3 H4.
  change (join (lit ".") [t1; t2; t3; t4])
    with (t1 ++ 46 :: t2 ++ 46 :: t3 ++ 46 :: t4).
  rewrite !split_on_app by assumption.
  rewrite (split_on_no_dot t4 H4). reflexivity.
Qed.

Lemma number_to_string_octet_no_dot o :
  octet o -> no_dot (number_to_string (Num o)) = true.
Proof.
  intros Ho. apply plain_no_dot. apply (octet_stable o Ho).
Qed.

(** An octet is read back from its print. *)
Lemma parseInt_number_to_string_octet o :
  octet o -> parseInt (number_to_string (Num o)) 10 = Num o.
Proof.
  intros Ho. unfold octet in Ho.
  destruct (Z.eq_dec o 0) as [->|Hz]; [vm_compute; reflexivity|].
  unfold number_to_string.
  replace (o =? 0) with false by (symmetry; apply Z.eqb_neq; lia).
  replace (o <? 0) with false by (symmetry; apply Z.ltb_ge; lia).
  assert (Hm : 0 < o < 10 ^ 21) by lia.
  rewrite (positive_to_string_plain o Hm).
  pose proof (shortest_decimal_bounds o Hm) as Hv.
  rewrite parseInt_all_digits by (apply all_digits_decimal_digits; lia).
  rewrite decimal_digits_value by lia.
  unfold to_double.
  rewrite (shortest_decimal_rounds o (round_to_double_exact o ltac:(lia))).
  reflexivity.
Qed.

(** Two canonical quads with the same text have the same octets. *)
Lemma dotted_quad_injective a b c d a' b' c' d' :
  octet a -> octet b -> octet c -> octet d ->
  octet a' -> octet b' -> octet c' -> octet d' ->
  dotted [Num a; Num b; Num c; Num d]
  = dotted [Num a'; Num b'; Num c'; Num d'] ->
  [a; b; c; d] = [a'; b'; c'; d'].
Proof.
  intros Ha Hb Hc Hd Ha' Hb' Hc' Hd' E.
  apply (f_equal (fun s => map (fun t => parseInt t 10) (split_on 46 s))) in E.
  unfold dotted in E. cbn [map] in E.
  rewrite !split_on_join4 in E
    by (apply number_to_string_octet_no_dot; assumption).
  cbn [map] in E.
  rewrite !parseInt_number_to_string_octet in E by assumption.
  injection E as -> -> -> ->. reflexivity.
Qed.

Lemma uint32_octets_value w o1 o2 o3 o4 :
  0 <= w < 2 ^ 32 ->
  [w / 2 ^ 24; w / 2 ^ 16 mod 256; w / 2 ^ 8 mod 256; w mod 256]
  = [o1; o2; o3; o4] ->
  w = o1 * 2 ^ 24 + o2 * 2 ^ 16 + o3 * 2 ^ 8 + o4.
Proof.
  intros Hw [= <- <- <- <-].
  change (2 ^ 24) with 16777216. change (2 ^ 16) with 65536.
  change (2 ^ 8) with 256. change (2 ^ 32) with 4294967296 in Hw.
  Z.to_euclidean_division_equations. lia.
Qed.

(** X4: the single-number path reads its input modulo 2^32.  A digit-only
    input whose value is below 2^53 passes the address check of the gateway
    exactly when the value modulo 2^32 is 167772165 (10.0.0.5) or 3232235826
    (192.168.1.50): every such value plus a multiple of 2^32 is approved
    too. *)
Theorem decimal_input_approved_modulo (ip : jsstring) :
  all_digits (trim ip) = true ->
  decimal_value (trim ip) < 2 ^ 53 ->
  (includes APPROVED_IPS (normalizeIp ip) = true
   <-> decimal_value (trim ip) mod 2 ^ 32 = 167772165
       \/ decimal_value (trim ip) mod 2 ^ 32 = 3232235826).
Proof.
  intros Hdigits Hsmall. set (v := decimal_value (trim ip)) in *.
  assert (E : normalizeIp ip = dotted (map Num (uint32_octets v))).
  { unfold normalizeIp. rewrite Hdigits.
    rewrite (parseInt_all_digits _ Hdigits), octets_uint32.
    fold v. unfold to_double. rewrite (round_to_double_exact v Hsmall).
    reflexivity. }
  rewrite E, approved_cases.
  pose proof (uint32_octets_range v) as Hrange.
  pose proof (Z.mod_pos_bound v (2 ^ 32) ltac:(lia)) as Hw.
  unfold uint32_octets in *. cbv zeta in *. set (w := v mod 2 ^ 32) in *.
  inversion_clear Hrange as [|? ? H1 Hrange1].
  inversion_clear Hrange1 as [|? ? H2 Hrange2].
  inversion_clear Hrange2 as [|? ? H3 Hrange3].
  inversion_clear Hrange3 as [|? ? H4 _].
  cbn [map]. split.
  - intros [H|H].
    + left.
      change (lit "10.0.0.5") with (dotted [Num 10; Num 0; Num 0; Num 5]) in H.
      apply dotted_quad_injective in H; unfold octet; try lia.
      rewrite (uint32_octets_value w _ _ _ _ Hw H). reflexivity.
    + right.
      change (lit "192.168.1.50")
        with (dotted [Num 192; Num 168; Num 1; Num 50]) in H.
      apply dotted_quad_injective in H; unfold octet; try lia.
      rewrite (uint32_octets_value w _ _ _ _ Hw H). reflexivity.
  - intros [H|H]; rewrite H; [left | right]; vm_compute; reflexivity.
Qed.

Lemma decimal_input_approved_modulo_witness :
  includes APPROVED_IPS (normalizeIp (lit "4462739461")) = true
  <-> decimal_value (trim (lit "4462739461")) mod 2 ^ 32 = 167772165
      \/ decimal_value (trim (lit "4462739461")) mod 2 ^ 32 = 3232235826.
Proof.
  apply (decimal_input_approved_modulo (lit "4462739461")).
  - reflexivity.
  - vm_compute. reflexivity.
Defined.

Example decimal_alias_approved :
  normalizeIp (lit "4462739461") = lit "10.0.0.5".
Proof. vm_compute. reflexivity. Qed.

(** *** What follows an address *)

Lemma trimEnd_app_clean s p :
  s <> [] -> no_white_space s = true -> trimEnd (s ++ p) = s ++ trimEnd p.
Proof.
  intros Hs Hws.
  induction p as [|c p IH] using rev_ind.
  - rewrite app_nil_r. unfold trimEnd at 2. cbn [rev trimStart].
    rewrite app_nil_r. unfold trimEnd.
    rewrite trimStart_no_white_space
      by (rewrite no_white_space_rev; exact Hws).
    apply rev_involutive.
  - rewrite app_assoc, !trimEnd_snoc.
    destruct (is_white_space c); [exact IH | symmetry; apply app_assoc].
Qed.

Lemma trim_app_clean s p :
  s <> [] -> no_white_space s = true -> trim (s ++ p) = s ++ trimEnd p.
Proof.
  intros Hs Hws. unfold trim. rewrite trimStart_app.
  rewrite (trimStart_no_white_space s Hws).
  destruct s as [|c s]; [contradiction|].
  apply trimEnd_app_clean; [discriminate | exact Hws].
Qed.

(** Trimming the end leaves a prefix. *)
Lemma trimEnd_prefix p : exists t, p = trimEnd p ++ t.
Proof.
  induction p as [|c p [t Ht]] using rev_ind; [exists []; reflexivity|].
  rewrite trimEnd_snoc. destruct (is_white_space c).
  - exists (t ++ [c]). rewrite app_assoc, <- Ht. reflexivity.
  - exists []. rewrite app_nil_r. reflexivity.
Qed.

Lemma trimEnd_keeps_suffix_shape p :
  no_dot p = true -> not_digit_first p = true ->
  no_dot (trimEnd p) = true /\ not_digit_first (trimEnd p) = true.
Proof.
  intros Hdot Hfirst. destruct (trimEnd_prefix p) as [t Ht].
  split.
  - unfold no_dot in *. rewrite Ht, forallb_app in Hdot.
    apply andb_true_iff in Hdot as [H _]. exact H.
  - destruct (trimEnd p) as [|c r]; [reflexivity|].
    rewrite Ht in Hfirst. exact Hfirst.
Qed.

Lemma radix_digit_not_decimal c :
  is_digit c = false -> radix_digit 10 c = None.
Proof.
  unfold is_digit, radix_digit, digit_value. intros H. rewrite H.
  destruct ((97 <=? c) && (c <=? 122)) eqn:E1.
  - apply andb_true_iff in E1 as [E1 _]. apply Z.leb_le in E1.
    replace (c - 87 <? 10) with false by (symmetry; apply Z.ltb_ge; lia).
    reflexivity.
  - destruct ((65 <=? c) && (c <=? 90)) eqn:E2; [|reflexivity].
    apply andb_true_iff in E2 as [E2 _]. apply Z.leb_le in E2.
    replace (c - 55 <? 10) with false by (symmetry; apply Z.ltb_ge; lia).
    reflexivity.
Qed.

Lemma digits_prefix_then_junk ds junk :
  forallb is_digit ds = true -> not_digit_first junk = true ->
  digits_prefix 10 (ds ++ junk) = map (fun c => c - 48) ds.
Proof.
  intros Hds Hjunk.
  induction ds as [|c r IH]; cbn [forallb app digits_prefix map] in *.
  - destruct junk as [|x junk]; [reflexivity|].
    cbn [not_digit_first] in Hjunk. apply negb_true_iff in Hjunk.
    cbn [digits_prefix]. rewrite (radix_digit_not_decimal x Hjunk).
    reflexivity.
  - apply andb_true_iff in Hds as [Hc Hr]. apply is_digit_bounds in Hc.
    rewrite (radix_digit_decimal c Hc), (IH Hr). reflexivity.
Qed.

(** [parseInt] stops at the first code unit that is not a digit. *)
Lemma parseInt_digits_then_junk ds junk :
  all_digits ds = true -> not_digit_first junk = true ->
  parseInt (ds ++ junk) 10 = to_double false (decimal_value ds).
Proof.
  destruct ds as [|c r]; [discriminate|].
  unfold all_digits. intros Hall Hjunk.
  pose proof (digits_prefix_then_junk _ junk Hall Hjunk) as Hds.
  cbn [forallb] in Hall. apply andb_true_iff in Hall as [Hc _].
  apply is_digit_bounds in Hc.
  unfold parseInt. cbn [app] in *.
  rewrite (trimStart_keeps c (r ++ junk) (digit_not_white_space c Hc)).
  replace (c =? 45) with false by (symmetry; apply Z.eqb_neq; lia).
  replace (c =? 43) with false by (symmetry; apply Z.eqb_neq; lia).
  cbn [orb]. change ((10 =? 0) || (10 =? 16)) with false. cbn [andb].
  change (negb (10 =? 0) && ((10 <? 2) || (36 <? 10))) with false.
  change (if 10 =? 0 then 10 else 10) with 10.
  cbv beta iota zeta.
  rewrite Hds. cbn [map]. reflexivity.
Qed.

Lemma normalizePart_decimal_then_junk v junk :
  0 < v -> not_digit_first junk = true ->
  normalizePart (decimal_digits v ++ junk)
  = number_to_string (to_double false v).
Proof.
  intros Hv Hjunk. pose proof (all_digits_decimal_digits v Hv) as Hall.
  pose proof (decimal_digits_value v ltac:(lia)) as Hval.
  pose proof (parseInt_digits_then_junk _ junk Hall Hjunk) as Hparse.
  destruct (decimal_digits_head v Hv) as (c & r & E & Hc).
  unfold normalizePart. change (lit "0x") with [48; 120].
  change (lit "0") with [48]. rewrite E in *. cbn [app startsWith].
  replace (c =? 48) with false by (symmetry; apply Z.eqb_neq; lia).
  cbn [andb]. cbn [app] in Hparse. rewrite Hparse, Hval. reflexivity.
Qed.

(** X5: what follows a canonical address is dropped.  After a dotted quad
    of octets whose last octet is not 0, any text without a dot that does
    not start with a decimal digit (a path, a port, a command) leaves the
    normalised address unchanged. *)
Theorem normalizeIp_trailing_text (a b c d : Z) (suffix : jsstring) :
  octet a -> octet b -> octet c -> 0 < d <= 255 ->
  no_dot suffix = true -> not_digit_first suffix = true ->
  normalizeIp (dotted [Num a; Num b; Num c; Num d] ++ suffix)
  = dotted [Num a; Num b; Num c; Num d].
Proof.
  intros Ha Hb Hc Hd Hdot Hfirst.
  destruct (octet_stable a Ha) as [P1 N1].
  destruct (octet_stable b Hb) as [P2 N2].
  destruct (octet_stable c Hc) as [P3 N3].
  assert (Hdo : octet d) by (unfold octet; lia).
  destruct (octet_stable d Hdo) as [P4 _].
  destruct (trimEnd_keeps_suffix_shape suffix Hdot Hfirst) as [Hdot' Hfirst'].
  set (junk := trimEnd suffix) in *.
  unfold dotted. cbn [map].
  set (t1 := number_to_string (Num a)) in *.
  set (t2 := number_to_string (Num b)) in *.
  set (t3 := number_to_string (Num c)) in *.
  assert (E4 : number_to_string (Num d)
               = decimal_digits (shortest_decimal d)).
  { unfold number_to_string.
    replace (d =? 0) with false by (symmetry; apply Z.eqb_neq; lia).
    replace (d <? 0) with false by (symmetry; apply Z.ltb_ge; lia).
    apply positive_to_string_plain. lia. }
  assert (N4 : normalizePart (number_to_string (Num d) ++ junk)
               = number_to_string (Num d)).
  { rewrite E4.
    pose proof (shortest_decimal_bounds d ltac:(lia)) as Hv.
    rewrite normalizePart_decimal_then_junk by (try lia; exact Hfirst').
    unfold to_double.
    rewrite (shortest_decimal_rounds d (round_to_double_exact d ltac:(lia))).
    exact E4. }
  set (t4 := number_to_string (Num d)) in *.
  change (join (lit ".") [t1; t2; t3; t4])
    with (t1 ++ 46 :: t2 ++ 46 :: t3 ++ 46 :: t4).
  set (s := t1 ++ 46 :: t2 ++ 46 :: t3 ++ 46 :: t4).
  assert (Hws : no_white_space s = true).
  { subst s. unfold no_white_space.
    repeat (rewrite forallb_app; cbn [forallb]).
    fold (no_white_space t1) (no_white_space t2) (no_white_space t3)
         (no_white_space t4).
    rewrite !plain_no_white_space by assumption. reflexivity. }
  assert (Hne : s <> []).
  { subst s. destruct t1; discriminate. }
  assert (Hshape : s ++ junk
                   = t1 ++ 46 :: t2 ++ 46 :: t3 ++ 46 :: (t4 ++ junk)).
  { subst s. repeat (rewrite <- app_assoc; cbn [app]). reflexivity. }
  assert (Hin : In 46 (s ++ junk)).
  { rewrite Hshape. apply in_or_app. right. left. reflexivity. }
  assert (Hsplit : split_on 46 (s ++ junk) = [t1; t2; t3; t4 ++ junk]).
  { rewrite Hshape.
    rewrite !split_on_app by (apply plain_no_dot; assumption).
    rewrite split_on_no_dot; [reflexivity|].
    unfold no_dot. rewrite forallb_app.
    fold (no_dot t4) (no_dot junk).
    rewrite (plain_no_dot t4 P4), Hdot'. reflexivity. }
  unfold normalizeIp. rewrite (trim_app_clean s suffix Hne Hws).
  fold junk.
  rewrite (all_digits_no_dot _ Hin), (hex_literal_no_dot _ Hin), Hsplit.
  cbn [length Nat.eqb map]. rewrite N1, N2, N3, N4. reflexivity.
Qed.

Lemma normalizeIp_trailing_text_witness :
  normalizeIp (dotted [Num 10; Num 0; Num 0; Num 5] ++ lit "; DROP TABLE ")
  = dotted [Num 10; Num 0; Num 0; Num 5].
Proof.
  apply (normalizeIp_trailing_text 10 0 0 5 (lit "; DROP TABLE "));
    unfold octet; try lia; reflexivity.
Defined.

(** With 0 as last octet the text can change the address: an [x] makes the
    last part a hexadecimal literal. *)
Example normalizeIp_trailing_hex :
  normalizeIp (lit "10.0.0.0" ++ lit "xff") = lit "10.0.0.255".
Proof. vm_compute. reflexivity. Qed.

(* ================================================================== *)
(** ** More on the gateway *)
(* ================================================================== *)

(** X6: whatever the collaborator does, a result of the gateway carries
    [success] and [verified] true, and its [destination] is the normalised
    target and one of the two approved addresses, letter for letter. *)
Theorem useSecureGateway_result (Buffer : Type) (ml_kem : MlKem Buffer)
    (targetIp : jsstring) (data : JsValue) (r : GatewayResult) :
  useSecureGateway Buffer ml_kem targetIp data = Normal r ->
  success r = true /\ verified r = true
  /\ destination r = normalizeIp targetIp
  /\ (destination r = lit "10.0.0.5" \/ destination r = lit "192.168.1.50").
Proof.
  unfold useSecureGateway.
  destruct (includes APPROVED_IPS (normalizeIp targetIp)) eqn:Happroved;
    cbn [negb]; [|discriminate].
  destruct (ml_generateKeyPair Buffer ml_kem (lit "ML-KEM-768")) as [kp|e];
    cbn [bind]; [|discriminate].
  destruct (ml_encryptData Buffer ml_kem data _ _) as [p|e];
    cbn [bind]; [|discriminate].
  intros [= <-]. cbn [success verified destination].
  repeat split. apply approved_cases. exact Happroved.
Qed.

Lemma useSecureGateway_result_witness :
  destination
    {| success := true;
       destination := normalizeIp (lit "0x0a000005");
       payload := demo_seal (QuoteJSONString (lit "ping")) tt
                            (lit "ML-KEM-768");
       verified := true |} = lit "10.0.0.5"
  \/ destination
       {| success := true;
          destination := normalizeIp (lit "0x0a000005");
          payload := demo_seal (QuoteJSONString (lit "ping")) tt
                               (lit "ML-KEM-768");
          verified := true |} = lit "192.168.1.50".
Proof.
  apply (useSecureGateway_result unit
           (quantum_safe unit demo_key_pair demo_seal)
           (lit "0x0a000005") (JString (lit "ping"))).
  vm_compute. reflexivity.
Defined.

(* ================================================================== *)
(** ** More on the red teamer *)
(* ================================================================== *)

Lemma for_push_Forall {A : Type} (P : A -> Prop) (body : nat -> Rand A) :
  (forall i n, P (fst (body i n))) ->
  forall count i n, Forall P (fst (for_push count i body n)).
Proof.
  intros Hbody. induction count as [|count IH]; intros i n; cbn [for_push].
  - constructor.
  - unfold rbind. pose proof (Hbody i n) as Hx.
    destruct (body i n) as [x n1]. specialize (IH (S i) n1).
    destruct (for_push count (S i) body n1) as [rest n2].
    cbn [fst ret] in *. constructor; assumption.
Qed.

Lemma nth_error_Forall {A : Type} (P : A -> Prop) (l : list A) i :
  Forall P l -> (i < length l)%nat ->
  exists x, nth_error l i = Some x /\ P x.
Proof.
  intros HP Hi. destruct (nth_error l i) as [x|] eqn:E.
  - exists x. split; [reflexivity|].
    rewrite Forall_forall in HP. apply HP. eapply nth_error_In. exact E.
  - apply nth_error_None in E. lia.
Qed.

(** X7: every obfuscation vector, however many are generated, carries an
    address that [normalizeIp] maps to an approved one: each encoding of the
    table (decimal, hexadecimal, octal, mixed) passes the address check of
    the gateway. *)
Theorem obfuscation_vectors_approved (count n : nat) :
  Forall (fun v => ip_approved v = true)
         (fst (generateObfuscationAttacks count n)).
Proof.
  unfold generateObfuscationAttacks. cbv zeta.
  apply for_push_Forall. intros i m. cbn [ret fst].
  match goal with
  | |- context [nth_error ?l ?k] =>
      destruct (nth_error_Forall
                  (fun a => includes APPROVED_IPS (normalizeIp a) = true)
                  l k) as (a & Ea & Ha)
  end.
  - repeat (apply Forall_cons; [vm_compute; reflexivity|]). apply Forall_nil.
  - apply Nat.mod_upper_bound. discriminate.
  - unfold ip_approved. cbn [ip]. rewrite Ea. exact Ha.
Qed.

Section RedTeamerMore.

Variable random : nat -> Q.

(** X8: no malformed vector, however many are generated and whatever
    [Math.random] returns, carries an address that normalises to an approved
    one: the address check of the gateway rejects every entry of the
    table. *)
Theorem malformed_vectors_rejected (count n : nat) :
  Forall (fun v => ip_approved v = false)
         (fst (generateMalformedAttacks random count n)).
Proof.
  unfold generateMalformedAttacks. cbv zeta.
  apply for_push_Forall. intros i m. unfold rbind.
  destruct (random_lt random (1 # 2) m) as [enc m1].
  destruct (random_lt random (1 # 2) m1) as [alg m2].
  destruct (random_below random 15 m2) as [cx m3].
  cbn [ret fst].
  match goal with
  | |- context [nth_error ?l ?k] =>
      destruct (nth_error_Forall
                  (fun a => includes APPROVED_IPS (normalizeIp a) = false)
                  l k) as (a & Ea & Ha)
  end.
  - repeat (apply Forall_cons; [vm_compute; reflexivity|]). apply Forall_nil.
  - apply Nat.mod_upper_bound. discriminate.
  - unfold ip_approved. cbn [ip]. rewrite Ea. exact Ha.
Qed.

(** Rounding to 53 bits does not reach a bound that the number stays
    one part in 2^53 of the bound away from. *)
Lemma round_to_53_bits_below P N d :
  0 <= P <= N - d -> 0 < d -> N <= 2 ^ 53 * d ->
  0 <= round_to_53_bits P < N.
Proof.
  intros HP Hd HN. unfold round_to_53_bits.
  destruct (Z.ltb_spec P (2 ^ 53)) as [Hlt|Hge]; [lia|].
  cbv zeta. destruct (round_parts P Hge) as [He Hq].
  set (e := Z.log2 P - 52) in *. set (q := P / 2 ^ e) in *.
  assert (Hpow : 2 ^ e = 2 * 2 ^ (e - 1)).
  { replace e with (1 + (e - 1)) at 1 by lia.
    rewrite Z.pow_add_r by lia. reflexivity. }
  assert (Hhalf : 0 < 2 ^ (e - 1)) by (apply Z.pow_pos_nonneg; lia).
  pose proof (Z.div_mod P (2 ^ e) ltac:(lia)) as Hdiv. fold q in Hdiv.
  pose proof (Z.mod_pos_bound P (2 ^ e) ltac:(lia)) as Hr.
  set (r := P mod 2 ^ e) in *. set (half := 2 ^ (e - 1)) in *.
  assert (Hbig : 2 ^ 52 * (2 * half) <= q * (2 * half))
    by (apply Z.mul_le_mono_nonneg_r; lia).
  rewrite Hpow in *.
  destruct ((half <? r) || ((r =? half) && Z.odd q)) eqn:Hup.
  - assert (Hrh : half <= r).
    { apply orb_true_iff in Hup. destruct Hup as [H|H].
      - apply Z.ltb_lt in H. lia.
      - apply andb_true_iff in H. destruct H as [H _].
        apply Z.eqb_eq in H. lia. }
    change (2 ^ 53) with (2 ^ 52 * 2) in HN. change (2 ^ 52) with 4503599627370496 in *.
    lia.
  - change (2 ^ 52) with 4503599627370496 in *. lia.
Qed.

Lemma scaled_of_random r :
  (0 <= r)%Q -> (r <= 1 - (1 # 9007199254740992))%Q ->
  0 <= scaled r <= 2 ^ 1074 - 2 ^ 1021.
Proof.
  intros Hlo Hhi. unfold scaled. split.
  - rewrite <- (Qfloor_Z 0). apply Qfloor_resp_le.
    apply Qmult_le_0_compat; [exact Hlo | vm_compute; discriminate].
  - rewrite <- (Qfloor_Z (2 ^ 1074 - 2 ^ 1021)). apply Qfloor_resp_le.
    eapply Qle_trans.
    + apply Qmult_le_compat_r; [exact Hhi | vm_compute; discriminate].
    + apply Qle_lteq. right. vm_compute. reflexivity.
Qed.

Lemma random_below_range k m :
  in_unit_interval random -> 0 < k ->
  0 <= fst (random_below random k m) < k.
Proof.
  intros Hrand Hk. unfold random_below, rbind, Math_random, ret. cbn [fst].
  destruct (Hrand m) as [Hlo Hhi].
  pose proof (scaled_of_random (random m) Hlo Hhi) as HR.
  set (R := scaled (random m)) in *.
  unfold double_times, of_scaled. fold R.
  destruct (round_to_53_bits_below (R * k) (k * 2 ^ 1074) (k * 2 ^ 1021))
    as [Hv0 Hv1].
  - split; [apply Z.mul_nonneg_nonneg; lia|].
    replace (k * 2 ^ 1074 - k * 2 ^ 1021)
      with ((2 ^ 1074 - 2 ^ 1021) * k) by ring.
    apply Z.mul_le_mono_nonneg_r; lia.
  - apply Z.mul_pos_pos; [exact Hk | reflexivity].
  - replace (2 ^ 53 * (k * 2 ^ 1021)) with (k * 2 ^ 1074); [lia|].
    change (2 ^ 1074) with (2 ^ 53 * 2 ^ 1021). ring.
  - set (v := round_to_53_bits (R * k)) in *.
    unfold Qfloor.
    assert (Hden : Z.pos (2 ^ 1074) = 2 ^ 1074) by (vm_compute; reflexivity).
    rewrite Hden.
    assert (Hpos : 0 < 2 ^ 1074) by reflexivity.
    split.
    + apply Z.div_pos; lia.
    + apply Z.div_lt_upper_bound; lia.
Qed.

Lemma at_index_defined {A : Type} (l : list A) i :
  0 <= i < Z.of_nat (length l) -> exists x, at_index l i = Some x.
Proof.
  intros Hi. unfold at_index.
  replace (i <? 0) with false by (symmetry; apply Z.ltb_ge; lia).
  destruct (nth_error l (Z.to_nat i)) as [x|] eqn:E; [exists x; reflexivity|].
  apply nth_error_None in E. lia.
Qed.

Ltac filled_with c :=
  unfold filled_in; cbn [ip hasEncryption complexity];
  split; [eexists; reflexivity|];
  split; [eexists; reflexivity|];
  exists c; split; [reflexivity | lia].

(** X9: as long as [Math.random] stays in its range, from 0 inclusive to 1
    exclusive, every attack vector of the red teamer has an address, an
    encryption flag and a complexity (none is [undefined]), and the
    complexity is from 0 to 19. *)
Theorem attack_vectors_filled_in (n : nat) :
  in_unit_interval random ->
  Forall filled_in (getAttackVectors (fst (new_RedTeamer random n))).
Proof.
  intros Hrand.
  unfold new_RedTeamer, generateAttackVectors, rbind.
  assert (Hdirect : forall c m,
             Forall filled_in (fst (generateDirectIPAttacks random c m))).
  { intros c m. unfold generateDirectIPAttacks. cbv zeta.
    apply for_push_Forall. intros i k. unfold rbind.
    destruct (random_lt random (1 # 2) k) as [[|] k1].
    - pose proof (random_below_range 2 k1 Hrand ltac:(lia)) as Hr.
      cbn [length Z.of_nat] in *.
      change (Z.pos (Pos.of_succ_nat 1)) with 2.
      destruct (random_below random 2 k1) as [j k2]. cbn [fst ret] in *.
      destruct (at_index_defined [lit "10.0.0.5"; lit "192.168.1.50"] j)
        as [a Ea]; [cbn [length]; lia|].
      rewrite Ea. filled_with 5.
    - pose proof (random_below_range 5 k1 Hrand ltac:(lia)) as Hr.
      cbn [length Z.of_nat] in *.
      change (Z.pos (Pos.of_succ_nat 4)) with 5.
      destruct (random_below random 5 k1) as [j k2]. cbn [fst ret] in *.
      destruct (at_index_defined
                  [lit "10.0.0.6"; lit "192.168.1.99"; lit "8.8.8.8";
                   lit "1.1.1.1"; lit "172.16.0.1"] j)
        as [a Ea]; [cbn [length]; lia|].
      rewrite Ea. filled_with 5. }
  assert (Hobf : forall c m,
             Forall filled_in (fst (generateObfuscationAttacks c m))).
  { intros c m. unfold generateObfuscationAttacks. cbv zeta.
    apply for_push_Forall. intros i k. cbn [ret fst].
    match goal with
    | |- context [nth_error ?l ?j] =>
        destruct (nth_error_Forall (fun _ => True) l j) as (a & Ea & _);
        [apply Forall_forall; intros; exact I
        | apply Nat.mod_upper_bound; discriminate |]
    end.
    rewrite Ea. filled_with 5. }
  assert (Hmal : forall c m,
             Forall filled_in (fst (generateMalformedAttacks random c m))).
  { intros c m. unfold generateMalformedAttacks. cbv zeta.
    apply for_push_Forall. intros i k. unfold rbind.
    destruct (random_lt random (1 # 2) k) as [enc k1].
    destruct (random_lt random (1 # 2) k1) as [alg k2].
    pose proof (random_below_range 15 k2 Hrand ltac:(lia)) as Hr.
    destruct (random_below random 15 k2) as [cx k3]. cbn [ret fst] in *.
    match goal with
    | |- context [nth_error ?l ?j] =>
        destruct (nth_error_Forall (fun _ => True) l j) as (a & Ea & _);
        [apply Forall_forall; intros; exact I
        | apply Nat.mod_upper_bound; discriminate |]
    end.
    rewrite Ea. filled_with cx. }
  assert (Henc : forall c m,
             Forall filled_in (fst (generateEncryptionAttacks random c m))).
  { intros c m. unfold generateEncryptionAttacks. cbv zeta.
    apply for_push_Forall. intros i k. unfold rbind.
    destruct (random_lt random double_0_7 k) as [[|] k1].
    - destruct (random_below random _ k1) as [j k2]. cbn [ret fst].
      filled_with 5.
    - cbn [ret fst]. filled_with 5. }
  assert (Hcx : forall c m,
             Forall filled_in (fst (generateComplexityAttacks random c m))).
  { intros c m. unfold generateComplexityAttacks.
    apply for_push_Forall. intros i k. unfold rbind.
    pose proof (random_below_range 20 k Hrand ltac:(lia)) as Hr.
    destruct (random_below random 20 k) as [cx k1]. cbn [ret fst] in *.
    filled_with cx. }
  pose proof (Hdirect (directIPs (scenarios TEST_CONFIG)) n) as H1.
  destruct (generateDirectIPAttacks random _ n) as [a n1].
  pose proof (Hobf (obfuscatedIPs (scenarios TEST_CONFIG)) n1) as H2.
  destruct (generateObfuscationAttacks _ n1) as [b n2].
  pose proof (Hmal (malformedIPs (scenarios TEST_CONFIG)) n2) as H3.
  destruct (generateMalformedAttacks random _ n2) as [c n3].
  pose proof (Henc (encryptionTests (scenarios TEST_CONFIG)) n3) as H4.
  destruct (generateEncryptionAttacks random _ n3) as [d n4].
  pose proof (Hcx (complexityTests (scenarios TEST_CONFIG)) n4) as H5.
  destruct (generateComplexityAttacks random _ n4) as [e n5].
  cbn [fst ret getAttackVectors attackVectors app] in *.
  repeat (apply Forall_app; split); assumption.
Qed.

End RedTeamerMore.

Lemma alternating_in_unit_interval : in_unit_interval alternating.
Proof.
  intros n. unfold alternating.
  destruct (Nat.even n); split; vm_compute; congruence.
Qed.

Lemma attack_vectors_filled_in_witness :
  Forall filled_in (getAttackVectors (fst (new_RedTeamer alternating O))).
Proof.
  apply (attack_vectors_filled_in alternating O).
  exact alternating_in_unit_interval.
Defined.

(** The product is rounded before the floor is taken: for the double
    nearest to 0.35, 20 times it lies half way between 7 and the double
    below 7, and [Math.floor(Math.random() * 20)] is 7; for the double
    nearest to 0.7, [Math.random() < 0.7] is false. *)
Example random_below_rounds :
  fst (random_below (fun _ => 6305039478318694 # 18014398509481984) 20 O) = 7
  /\ Qfloor ((6305039478318694 # 18014398509481984) * 20) = 6
  /\ fst (random_lt (fun _ => double_0_7) double_0_7 O) = false.
Proof. repeat split; vm_compute; reflexivity. Qed.

(** Outside its range the shape is lost: a random number of 1 indexes past
    the table of addresses and leaves the address [undefined]. *)
Example direct_vector_undefined_address :
  map ip (fst (generateDirectIPAttacks (fun _ => 1%Q) 1 O)) = [None].
Proof. vm_compute. reflexivity. Qed.


(* ================================================================== *)
(** ** More on the orchestrator *)
(* ================================================================== *)

Lemma str_eqb_sym s t : str_eqb s t = str_eqb t s.
Proof.
  apply eq_true_iff_eq. rewrite !str_eqb_eq. split; congruence.
Qed.

Lemma tally_count breakdown t u :
  breakdown_count (tally breakdown t) u
  = breakdown_count breakdown u + (if str_eqb t u then 1 else 0).
Proof.
  induction breakdown as [|[k n] rest IH]; cbn [tally breakdown_count].
  - destruct (str_eqb t u); lia.
  - destruct (str_eqb k t) eqn:Ekt; cbn [breakdown_count].
    + apply str_eqb_eq in Ekt. subst k.
      destruct (str_eqb t u); lia.
    + destruct (str_eqb k u) eqn:Eku; [|exact IH].
      apply str_eqb_eq in Eku. subst k.
      rewrite (str_eqb_sym t u), Ekt. lia.
Qed.

Lemma tally_keys breakdown t :
  NoDup (map fst breakdown) -> NoDup (map fst (tally breakdown t)).
Proof.
  induction breakdown as [|[k n] rest IH]; cbn [tally map fst]; intros H.
  - constructor; [intros [] | constructor].
  - inversion_clear H as [|? ? Hk Hrest].
    destruct (str_eqb k t) eqn:Ekt; cbn [map fst].
    + constructor; assumption.
    + constructor; [|apply IH; exact Hrest].
      intros Hin. apply Hk. clear IH Hrest Hk.
      induction rest as [|[k' n'] rest IH]; cbn [tally map fst] in *.
      * destruct Hin as [E|[]]. subst k.
        assert (str_eqb t t = true) by (apply str_eqb_eq; reflexivity).
        congruence.
      * destruct (str_eqb k' t); cbn [map fst] in Hin.
        -- exact Hin.
        -- destruct Hin as [E|Hin]; [left; exact E | right; apply IH, Hin].
Qed.

Lemma fold_tally_count types :
  forall breakdown u,
    breakdown_count (fold_left tally types breakdown) u
    = breakdown_count breakdown u + occurrences u types.
Proof.
  unfold occurrences.
  induction types as [|t types IH]; intros breakdown u;
    cbn [fold_left filter length].
  - lia.
  - rewrite IH, tally_count.
    rewrite (str_eqb_sym t u). destruct (str_eqb u t); cbn [length]; lia.
Qed.

Lemma fold_tally_keys types :
  forall breakdown,
    NoDup (map fst breakdown) ->
    NoDup (map fst (fold_left tally types breakdown)).
Proof.
  induction types as [|t types IH]; intros breakdown H; cbn [fold_left];
    [exact H|]. apply IH, tally_keys, H.
Qed.

Lemma fold_tally_concat {R : Type} (violation_types : R -> list jsstring)
    (results : list R) :
  forall breakdown,
    fold_left (fun acc result => fold_left tally (violation_types result) acc)
              results breakdown
    = fold_left tally (concat (map violation_types results)) breakdown.
Proof.
  induction results as [|r results IH]; intros breakdown;
    cbn [fold_left map concat]; [reflexivity|].
  rewrite fold_left_app. apply IH.
Qed.

(** X11: the breakdown of [runFullSuite] counts right.  Tallying the
    violations of a list of results, starting from the empty record, gives a
    record that holds each violation type once, and with it the number of
    times the type occurs in the results (nothing, read as 0, for a type that
    does not occur).  This is for types that are not names a record inherits
    ([constructor], [toString] and the like). *)
Theorem tally_counts_occurrences {R : Type}
    (violation_types : R -> list jsstring) (results : list R)
    (type : jsstring) :
  forallb own_key (concat (map violation_types results)) = true ->
  own_key type = true ->
  let violationBreakdown :=
    fold_left (fun acc result => fold_left tally (violation_types result) acc)
              results [] in
  breakdown_count violationBreakdown type
  = occurrences type (concat (map violation_types results))
  /\ NoDup (map fst violationBreakdown).
Proof.
  intros _ _ violationBreakdown. subst violationBreakdown.
  rewrite fold_tally_concat. split.
  - rewrite fold_tally_count. reflexivity.
  - apply fold_tally_keys. constructor.
Qed.

Lemma tally_counts_occurrences_witness :
  breakdown_count
    (fold_left (fun acc result => fold_left tally result acc)
       [ [lit "UNAUTHORIZED_IP"; lit "MISSING_ENCRYPTION"]; [];
         [lit "UNAUTHORIZED_IP"] ] [])
    (lit "UNAUTHORIZED_IP")
  = 2.
Proof.
  apply (proj1 (tally_counts_occurrences (fun result => result)
                  [ [lit "UNAUTHORIZED_IP"; lit "MISSING_ENCRYPTION"]; [];
                    [lit "UNAUTHORIZED_IP"] ]
                  (lit "UNAUTHORIZED_IP")
                  ltac:(vm_compute; reflexivity)
                  ltac:(vm_compute; reflexivity))).
Defined.


(* ================================================================== *)
(** ** The vault and the analysis of errors *)
(* ================================================================== *)

Lemma str_eqb_refl s : str_eqb s s = true.
Proof. apply str_eqb_eq. reflexivity. Qed.

Lemma str_eqb_neq s t : s <> t -> str_eqb s t = false.
Proof.
  intros H. destruct (str_eqb s t) eqn:E; [|reflexivity].
  apply str_eqb_eq in E. contradiction.
Qed.

Lemma Map_get_set_same {V : Type} (m : Vault.Map V) key value :
  Vault.Map_get (Vault.Map_set m key value) key = Some value.
Proof.
  induction m as [|[k v] m IH]; cbn [Vault.Map_set Vault.Map_get].
  - rewrite str_eqb_refl. reflexivity.
  - destruct (str_eqb k key) eqn:E; cbn [Vault.Map_get]; rewrite E;
      [reflexivity | exact IH].
Qed.

Lemma Map_get_set_other {V : Type} (m : Vault.Map V) key value key' :
  key' <> key ->
  Vault.Map_get (Vault.Map_set m key value) key' = Vault.Map_get m key'.
Proof.
  intros Hneq.
  induction m as [|[k v] m IH]; cbn [Vault.Map_set Vault.Map_get].
  - rewrite str_eqb_neq by congruence. reflexivity.
  - destruct (str_eqb k key) eqn:E; cbn [Vault.Map_get].
    + apply str_eqb_eq in E. subst k.
      rewrite str_eqb_neq by congruence. reflexivity.
    + rewrite IH. reflexivity.
Qed.

Lemma Map_get_delete_same {V : Type} (m : Vault.Map V) key :
  Vault.Map_get (snd (Vault.Map_delete m key)) key = None.
Proof.
  unfold Vault.Map_delete. cbn [snd].
  induction m as [|[k v] m IH]; cbn [filter fst]; [reflexivity|].
  destruct (str_eqb k key) eqn:E; cbn [negb Vault.Map_get];
    [exact IH | rewrite E; exact IH].
Qed.

Lemma Map_get_delete_other {V : Type} (m : Vault.Map V) key key' :
  key' <> key ->
  Vault.Map_get (snd (Vault.Map_delete m key)) key' = Vault.Map_get m key'.
Proof.
  intros Hneq. unfold Vault.Map_delete. cbn [snd].
  induction m as [|[k v] m IH]; cbn [filter fst Vault.Map_get];
    [reflexivity|].
  destruct (str_eqb k key) eqn:E; cbn [negb Vault.Map_get].
  - apply str_eqb_eq in E. subst k.
    rewrite str_eqb_neq by congruence. exact IH.
  - rewrite IH. reflexivity.
Qed.

Lemma Map_delete_absent {V : Type} (m : Vault.Map V) key :
  Vault.Map_has m key = false ->
  snd (Vault.Map_delete m key) = m /\ Vault.Map_get m key = None.
Proof.
  unfold Vault.Map_delete, Vault.Map_has. cbn [snd].
  induction m as [|[k v] m IH]; cbn [existsb filter fst Vault.Map_get];
    [intros _; split; reflexivity|].
  intros H. apply orb_false_iff in H. destruct H as [E H].
  rewrite E. cbn [negb]. destruct (IH H) as [-> ->]. split; reflexivity.
Qed.

Lemma Map_has_present {V : Type} (m : Vault.Map V) key :
  Vault.Map_has m key = true -> exists v, Vault.Map_get m key = Some v.
Proof.
  unfold Vault.Map_has.
  induction m as [|[k v] m IH]; cbn [existsb fst Vault.Map_get];
    [discriminate|].
  destruct (str_eqb k key); cbn [orb]; [intros _; exists v; reflexivity|].
  exact IH.
Qed.

Section VaultFacts.

Variable Buffer : Type.
Variable hybrid_key_pair : jsstring -> KeyPair Buffer.
Variable aes_gcm_seal : jsstring -> Buffer -> jsstring -> EncryptedPayload.
Variable decryptData : EncryptedPayload -> Buffer -> completion JsValue.

Local Abbreviation QuantumVault := (Vault.QuantumVault Buffer).
Local Abbreviation store := (Vault.store Buffer hybrid_key_pair aes_gcm_seal).
Local Abbreviation retrieve := (Vault.retrieve Buffer decryptData).
Local Abbreviation delete := (Vault.delete Buffer).

(** X14: [store(key, value)] touches one key.  It returns exactly when
    [JSON.stringify] turns the value into a string, and then [retrieve] of
    that key decrypts the payload sealed from that string, whatever was
    stored under the key before; when the value serialises to [undefined] or
    its serialisation throws, [store] throws and the vault is as it was.
    Either way, [retrieve] of any other key answers as before the call. *)
Theorem store_then_retrieve (key : jsstring) (value : JsValue)
    (vault : QuantumVault) :
  (forall key' privateKey,
      key' <> key ->
      retrieve key' privateKey (snd (store key value vault))
      = retrieve key' privateKey vault)
  /\ match JSON_stringify value with
     | Normal (Some text) =>
         fst (store key value vault) = Normal tt
         /\ forall privateKey,
              retrieve key privateKey (snd (store key value vault))
              = decryptData
                  (aes_gcm_seal text
                     (kp_publicKey Buffer
                        (hybrid_key_pair (lit "ML-KEM-768")))
                     (lit "ML-KEM-768"))
                  privateKey
     | Normal None =>
         (exists message,
             fst (store key value vault) = Throw (TypeError message))
         /\ snd (store key value vault) = vault
     | Throw e =>
         fst (store key value vault) = Throw e
         /\ snd (store key value vault) = vault
     end.
Proof.
  unfold Vault.store, generateKeyPair, encryptData. cbn [bind].
  destruct (JSON_stringify value) as [[text|]|e]; cbn [bind fst snd].
  - split.
    + intros key' privateKey Hneq. unfold Vault.retrieve.
      cbn [Vault.storage]. rewrite Map_get_set_other by exact Hneq.
      reflexivity.
    + split; [reflexivity|]. intros privateKey.
      unfold Vault.retrieve. cbn [Vault.storage].
      rewrite Map_get_set_same. reflexivity.
  - split; [reflexivity|]. split; [eexists; reflexivity | reflexivity].
  - split; [reflexivity|]. split; reflexivity.
Qed.

(** X15: [delete(key)] removes one key and tells whether it was there.
    After it, [retrieve] of the key throws [Key not found], and [retrieve] of
    any other key answers as before.  When it returns [false] the vault is as
    it was and [retrieve] of the key threw that error already; when it returns
    [true] the key held a payload. *)
Theorem delete_removes_one_key (key : jsstring) (vault : QuantumVault) :
  (forall privateKey,
      retrieve key privateKey (snd (delete key vault))
      = Throw (Error (lit "Key not found: " ++ key)))
  /\ (forall key' privateKey,
         key' <> key ->
         retrieve key' privateKey (snd (delete key vault))
         = retrieve key' privateKey vault)
  /\ (fst (delete key vault) = false ->
      snd (delete key vault) = vault
      /\ forall privateKey,
           retrieve key privateKey vault
           = Throw (Error (lit "Key not found: " ++ key)))
  /\ (fst (delete key vault) = true ->
      exists sealed,
        forall privateKey,
          retrieve key privateKey vault = decryptData sealed privateKey).
Proof.
  unfold Vault.delete, Vault.retrieve.
  pose proof (Map_get_delete_same (Vault.storage _ vault) key) as Hsame.
  pose proof (Map_get_delete_other (Vault.storage _ vault) key) as Hother.
  pose proof (Map_delete_absent (Vault.storage _ vault) key) as Habsent.
  pose proof (Map_has_present (Vault.storage _ vault) key) as Hpresent.
  destruct (Vault.Map_delete (Vault.storage _ vault) key) as [found rest]
    eqn:E.
  assert (Hfound : found = Vault.Map_has (Vault.storage _ vault) key).
  { unfold Vault.Map_delete in E. injection E as <- _. reflexivity. }
  cbn [fst snd Vault.storage] in *.
  split; [intros privateKey; rewrite Hsame; reflexivity|].
  split; [intros key' privateKey Hneq; rewrite Hother by exact Hneq;
          reflexivity|].
  split.
  - intros Hf. rewrite Hf in Hfound. symmetry in Hfound.
    destruct (Habsent Hfound) as [-> Hnone]. split.
    + destruct vault; reflexivity.
    + intros privateKey. rewrite Hnone. reflexivity.
  - intros Hf. rewrite Hf in Hfound. symmetry in Hfound.
    destruct (Hpresent Hfound) as [sealed Hsome]. exists sealed.
    intros privateKey. rewrite Hsome. reflexivity.
Qed.

End VaultFacts.

Lemma startsWith_iff sub :
  forall s, startsWith s sub = true <-> exists post, s = sub ++ post.
Proof.
  induction sub as [|p sub IH]; intros s; cbn [startsWith app].
  - split; [intros _; exists s; reflexivity | destruct s; reflexivity].
  - destruct s as [|c s]; cbn [startsWith].
    + split; [discriminate | intros [post H]; discriminate].
    + rewrite andb_true_iff, Z.eqb_eq, IH. split.
      * intros [-> [post ->]]. exists post. reflexivity.
      * intros [post [= -> ->]]. split; [reflexivity | exists post; reflexivity].
Qed.

Lemma contains_iff sub s :
  contains s sub = true <-> exists pre post, s = pre ++ sub ++ post.
Proof.
  induction s as [|c s IH]; cbn [contains]; rewrite orb_true_iff, startsWith_iff.
  - split.
    + intros [[post H]|H]; [exists [], post; exact H | discriminate].
    + intros (pre & post & H). left.
      destruct pre as [|? ?]; [exists post; exact H | discriminate].
  - rewrite IH. split.
    + intros [[post H]|(pre & post & H)].
      * exists [], post. exact H.
      * exists (c :: pre), post. cbn [app]. rewrite H. reflexivity.
    + intros (pre & post & H). destruct pre as [|c' pre]; cbn [app] in H.
      * left. exists post. exact H.
      * right. injection H as _ H. exists pre, post. exact H.
Qed.


(* ================================================================== *)
(** ** The stress test of the gateway *)
(* ================================================================== *)

(** A batch and what follows it make up what was left of an array. *)
Lemma slice_step {A : Type} (l : list A) i c :
  0 < c -> 0 <= i < Z.of_nat (length l) ->
  skipn (Z.to_nat i) l = slice l i (i + c) ++ skipn (Z.to_nat (i + c)) l.
Proof.
  intros Hc Hi. unfold slice, relative_index.
  replace (i <? 0) with false by (symmetry; apply Z.ltb_ge; lia).
  replace (i + c <? 0) with false by (symmetry; apply Z.ltb_ge; lia).
  rewrite (Z.min_l i) by lia.
  set (rest := skipn (Z.to_nat i) l).
  replace (skipn (Z.to_nat (i + c)) l)
    with (skipn (Z.to_nat (Z.min (i + c) (Z.of_nat (length l)) - i)) rest).
  - symmetry. apply firstn_skipn.
  - subst rest. rewrite skipn_skipn.
    destruct (Z.le_gt_cases (i + c) (Z.of_nat (length l))) as [H|H].
    + rewrite (Z.min_l (i + c)) by lia. f_equal. lia.
    + rewrite (Z.min_r (i + c)) by lia.
      rewrite !skipn_all2 by lia. reflexivity.
Qed.

Lemma count_app {A : Type} (f : A -> bool) l1 l2 :
  StressTest.count f (l1 ++ l2) = StressTest.count f l1 + StressTest.count f l2.
Proof.
  unfold StressTest.count. rewrite filter_app, length_app. lia.
Qed.

Lemma count_nonneg {A : Type} (f : A -> bool) l : 0 <= StressTest.count f l.
Proof. unfold StressTest.count. lia. Qed.

Lemma count_all {A : Type} (f : A -> bool) l :
  Forall (fun x => f x = true) l ->
  StressTest.count f l = Z.of_nat (length l).
Proof.
  unfold StressTest.count. induction 1 as [|x l Hx _ IH]; cbn [filter length];
    [reflexivity|]. rewrite Hx. cbn [length]. lia.
Qed.

Lemma count_none {A : Type} (f : A -> bool) l :
  Forall (fun x => f x = false) l -> StressTest.count f l = 0.
Proof.
  unfold StressTest.count. induction 1 as [|x l Hx _ IH]; cbn [filter length];
    [reflexivity|]. rewrite Hx. exact IH.
Qed.

(** Every result with verdicts [PASS] or [BLOCK] is a pass, a bypass or a
    false positive, and one of them only. *)
Lemma count_partition l :
  Forall two_valued l ->
  StressTest.count is_pass l + StressTest.count is_bypass l
  + StressTest.count
      (fun x => StressTest.verdict_eqb (StressTest.expected x) StressTest.PASS
                && StressTest.verdict_eqb (StressTest.actual x)
                                          StressTest.BLOCK) l
  = Z.of_nat (length l).
Proof.
  unfold StressTest.count.
  induction 1 as [|x l [He Ha] _ IH]; cbn [filter length]; [reflexivity|].
  unfold is_pass, is_bypass in *.
  destruct (StressTest.expected x), (StressTest.actual x);
    try contradiction; cbn [StressTest.verdict_eqb andb length]; lia.
Qed.

Section StressFacts.

Import StressTest.

Variable gateway : jsstring -> Z -> completion GatewayResult.
Variable payload_json_length : EncryptedPayload -> Z.

Local Abbreviation runTest :=
  (StressTest.runTest gateway payload_json_length).
Local Abbreviation runTests :=
  (StressTest.runTests gateway payload_json_length).
Local Abbreviation runBatch_from :=
  (StressTest.runBatch_from gateway payload_json_length).
Local Abbreviation runBatch :=
  (StressTest.runBatch gateway payload_json_length).
Local Abbreviation iterate :=
  (StressTest.iterate gateway payload_json_length).
Local Abbreviation run := (StressTest.run gateway payload_json_length).

(** One test: the results gathered so far stay, both verdicts are [PASS] or
    [BLOCK], and bytes are added for a bypass only. *)
Lemma runTest_facts sc iter r :
  results (snd (runTest sc iter r)) = results r
  /\ two_valued (fst (runTest sc iter r))
  /\ (is_bypass (fst (runTest sc iter r)) = false ->
      leakageBytes (snd (runTest sc iter r)) = leakageBytes r)
  /\ (returns (gateway (sc_ip sc) iter) = isAuthorized sc ->
      is_pass (fst (runTest sc iter r)) = true).
Proof.
  unfold StressTest.runTest, two_valued, is_bypass, is_pass.
  destruct (gateway (sc_ip sc) iter) as [result|e];
    destruct (isAuthorized sc);
    cbn [negb fst snd results leakageBytes expected actual verdict_eqb andb
         returns];
    repeat split; try discriminate; try reflexivity.
Qed.

(** The verdict of a test and the bytes it adds do not depend on the results
    gathered so far. *)
Lemma runTest_results_irrelevant sc iter r1 r2 :
  leakageBytes r1 = leakageBytes r2 ->
  fst (runTest sc iter r1) = fst (runTest sc iter r2)
  /\ leakageBytes (snd (runTest sc iter r1))
     = leakageBytes (snd (runTest sc iter r2)).
Proof.
  intros H. unfold StressTest.runTest.
  destruct (gateway (sc_ip sc) iter) as [result|e];
    destruct (isAuthorized sc); cbn [negb fst snd leakageBytes];
    split; try reflexivity; try exact H.
  rewrite H. reflexivity.
Qed.

Lemma runTests_results_irrelevant l iter :
  forall r1 r2,
    leakageBytes r1 = leakageBytes r2 ->
    fst (runTests l iter r1) = fst (runTests l iter r2)
    /\ leakageBytes (snd (runTests l iter r1))
       = leakageBytes (snd (runTests l iter r2)).
Proof.
  induction l as [|sc l IH]; intros r1 r2 H; cbn [StressTest.runTests].
  - split; [reflexivity | exact H].
  - destruct (runTest_results_irrelevant sc iter r1 r2 H) as [Hx Hl].
    destruct (runTest sc iter r1) as [x1 r1'].
    destruct (runTest sc iter r2) as [x2 r2'].
    cbn [fst snd] in Hx, Hl. subst x2.
    destruct (IH r1' r2' Hl) as [Hxs Hls].
    destruct (runTests l iter r1') as [xs1 r1''].
    destruct (runTests l iter r2') as [xs2 r2''].
    cbn [fst snd] in *. subst xs2. split; [reflexivity | exact Hls].
Qed.

Lemma runTests_results l iter :
  forall r, results (snd (runTests l iter r)) = results r.
Proof.
  induction l as [|sc l IH]; intros r; cbn [StressTest.runTests];
    [reflexivity|].
  pose proof (runTest_facts sc iter r) as [Hr _].
  destruct (runTest sc iter r) as [x r1]. specialize (IH r1).
  destruct (runTests l iter r1) as [xs r2]. cbn [fst snd] in *.
  rewrite IH. exact Hr.
Qed.

Lemma runTests_length l iter :
  forall r, length (fst (runTests l iter r)) = length l.
Proof.
  induction l as [|sc l IH]; intros r; cbn [StressTest.runTests];
    [reflexivity|].
  destruct (runTest sc iter r) as [x r1]. specialize (IH r1).
  destruct (runTests l iter r1) as [xs r2]. cbn [fst length] in *.
  rewrite IH. reflexivity.
Qed.

Lemma runTests_app l1 l2 iter r :
  runTests (l1 ++ l2) iter r
  = (fst (runTests l1 iter r)
       ++ fst (runTests l2 iter (snd (runTests l1 iter r))),
     snd (runTests l2 iter (snd (runTests l1 iter r)))).
Proof.
  revert r.
  induction l1 as [|sc l1 IH]; intros r;
    cbn [app StressTest.runTests fst snd].
  - destruct (runTests l2 iter r); reflexivity.
  - destruct (runTest sc iter r) as [x r1]. rewrite IH.
    destruct (runTests l1 iter r1) as [xs r2]. reflexivity.
Qed.

(** What holds of every single test holds of every result of a batch. *)
Lemma runTests_Forall (P : TestResult -> Prop) l iter :
  (forall sc r, In sc l -> P (fst (runTest sc iter r))) ->
  forall r, Forall P (fst (runTests l iter r)).
Proof.
  induction l as [|sc l IH]; intros HP r; cbn [StressTest.runTests];
    [constructor|].
  pose proof (HP sc r (or_introl eq_refl)) as Hx.
  destruct (runTest sc iter r) as [x r1].
  assert (Hrest : Forall P (fst (runTests l iter r1))).
  { apply IH. intros sc' r' Hin. apply HP. right. exact Hin. }
  destruct (runTests l iter r1) as [xs r2]. cbn [fst] in *.
  constructor; assumption.
Qed.

(** A batch without a bypass adds no bytes. *)
Lemma runTests_leak l iter :
  forall r,
    StressTest.count is_bypass (fst (runTests l iter r)) = 0 ->
    leakageBytes (snd (runTests l iter r)) = leakageBytes r.
Proof.
  induction l as [|sc l IH]; intros r; cbn [StressTest.runTests];
    [reflexivity|].
  pose proof (runTest_facts sc iter r) as (_ & _ & Hleak & _).
  destruct (runTest sc iter r) as [x r1]. specialize (IH r1).
  destruct (runTests l iter r1) as [xs r2]. cbn [fst snd] in *.
  change (x :: xs) with ([x] ++ xs). rewrite count_app.
  pose proof (count_nonneg is_bypass xs).
  unfold StressTest.count at 1. cbn [filter].
  destruct (is_bypass x); cbn [length]; intros H0; [lia|].
  rewrite IH by lia. apply Hleak. reflexivity.
Qed.

(** The loop of [runBatch], from any index it can reach, with fuel for what
    is left: its batches add up to one pass over the scenarios. *)
Lemma runBatch_from_one_pass scenarios c iter :
  0 < c ->
  forall fuel i r,
    0 <= i ->
    Z.of_nat (length scenarios) - i < Z.of_nat fuel ->
    (0 < fuel)%nat ->
    runBatch_from fuel scenarios c iter i r
    = Some (mkRunner
              (results r
               ++ fst (runTests (skipn (Z.to_nat i) scenarios) iter r))
              (leakageBytes
                 (snd (runTests (skipn (Z.to_nat i) scenarios) iter r)))).
Proof.
  intros Hc.
  induction fuel as [|fuel IH]; intros i r Hi Hfuel Hpos; [lia|].
  cbn [StressTest.runBatch_from].
  destruct (Z.ltb_spec i (Z.of_nat (length scenarios))) as [Hlt|Hge].
  - rewrite (slice_step scenarios i c Hc (conj Hi Hlt)).
    rewrite runTests_app.
    pose proof (runTests_results (slice scenarios i (i + c)) iter r) as Hres.
    destruct (runTests (slice scenarios i (i + c)) iter r)
      as [batchResults r'].
    cbn [fst snd] in *.
    destruct fuel as [|fuel']; [lia|].
    rewrite IH by lia. cbn [results leakageBytes].
    destruct (runTests_results_irrelevant
                (skipn (Z.to_nat (i + c)) scenarios) iter
                (mkRunner (results r' ++ batchResults) (leakageBytes r')) r'
                eq_refl) as [-> ->].
    rewrite Hres, <- app_assoc. reflexivity.
  - rewrite skipn_all2 by lia. cbn [StressTest.runTests fst snd].
    rewrite app_nil_r. destruct r; reflexivity.
Qed.

Lemma runBatch_one_pass config scenarios iter r :
  0 < cfg_concurrency config ->
  runBatch config scenarios iter r
  = Some (mkRunner (results r ++ fst (runTests scenarios iter r))
                   (leakageBytes (snd (runTests scenarios iter r)))).
Proof.
  intros Hc. unfold StressTest.runBatch.
  rewrite (runBatch_from_one_pass scenarios _ iter Hc) by lia.
  reflexivity.
Qed.

(** The iterations: each adds the twenty scenarios; what holds of every
    single test holds of every result; and bytes stay accounted for. *)
Lemma iterate_facts (P : TestResult -> Prop) config :
  0 < cfg_concurrency config ->
  (forall sc iter r, In sc TEST_SCENARIOS -> P (fst (runTest sc iter r))) ->
  forall todo i r,
    Forall P (results r) -> leak_accounted r ->
    exists r',
      iterate config todo i r = Some r'
      /\ length (results r') = (length (results r) + todo * 20)%nat
      /\ Forall P (results r')
      /\ leak_accounted r'.
Proof.
  intros Hc HP.
  induction todo as [|todo IH]; intros i r Hall Hleak;
    cbn [StressTest.iterate].
  - exists r. repeat split; [lia | exact Hall | exact Hleak].
  - rewrite (runBatch_one_pass config TEST_SCENARIOS i r Hc).
    set (r1 := mkRunner _ _).
    destruct (IH (i + 1) r1) as (r' & Hrun & Hlen & Hall' & Hleak').
    + subst r1. cbn [results]. apply Forall_app. split; [exact Hall|].
      apply runTests_Forall. intros sc r0 Hin. apply HP. exact Hin.
    + subst r1. unfold leak_accounted in *. cbn [results leakageBytes].
      rewrite count_app. intros H0.
      pose proof (count_nonneg is_bypass (results r)).
      pose proof (count_nonneg is_bypass (fst (runTests TEST_SCENARIOS i r))).
      rewrite runTests_leak by lia. apply Hleak. lia.
    + exists r'. split; [exact Hrun|]. split; [|split; assumption].
      rewrite Hlen. subst r1. cbn [results].
      rewrite length_app, runTests_length.
      change (length TEST_SCENARIOS) with 20%nat. lia.
Qed.

(** X17: with a positive concurrency the stress test finishes, whatever the
    gateway does.  Its report counts twenty tests for each iteration; every
    result has [PASS] or [BLOCK] as its actual verdict, never [ERROR], so
    that the passes, the bypasses and the false positives add up to the
    total and the failures are the bypasses and the false positives; and
    without a bypass no byte has leaked. *)
Theorem stress_run_counts (config : StressTestConfig) :
  0 < cfg_concurrency config ->
  exists report,
    run config = Some report
    /\ StressTest.totalTests report = 20 * Z.max 0 (cfg_iterations config)
    /\ StressTest.passed report + bypasses report + falsePositives report
       = StressTest.totalTests report
    /\ StressTest.failed report = bypasses report + falsePositives report
    /\ (bypasses report = 0 -> rep_leakageBytes report = 0)
    /\ Forall (fun x => actual x <> ERROR) (rep_results report).
Proof.
  intros Hc. unfold StressTest.run.
  destruct (iterate_facts two_valued config Hc
              (fun sc iter r _ => proj1 (proj2 (runTest_facts sc iter r)))
              (Z.to_nat (cfg_iterations config)) 1 (mkRunner [] 0))
    as (r & -> & Hlen & Hall & Hleak).
  - constructor.
  - intros _. reflexivity.
  - cbn [results length Nat.add] in Hlen.
    pose proof (count_partition (results r) Hall) as Hpart.
    eexists. split; [reflexivity|].
    unfold StressTest.generateReport.
    cbn [StressTest.totalTests StressTest.passed StressTest.failed bypasses
         falsePositives rep_leakageBytes rep_results].
    unfold is_pass, is_bypass in Hpart.
    split; [rewrite Hlen; lia|].
    split; [exact Hpart|]. split; [lia|].
    split; [exact Hleak|].
    eapply Forall_impl; [|exact Hall]. intros x [_ Ha]. exact Ha.
Qed.

(** When the gateway returns for the authorised scenarios and throws for the
    others, every result is a pass. *)
Lemma run_all_pass (config : StressTestConfig) :
  0 < cfg_concurrency config ->
  (forall sc iter,
      In sc TEST_SCENARIOS ->
      returns (gateway (sc_ip sc) iter) = isAuthorized sc) ->
  exists report,
    run config = Some report
    /\ StressTest.totalTests report = 20 * Z.max 0 (cfg_iterations config)
    /\ StressTest.passed report = StressTest.totalTests report
    /\ StressTest.failed report = 0
    /\ bypasses report = 0
    /\ falsePositives report = 0
    /\ rep_leakageBytes report = 0
    /\ latticeIntegrity report = 100.
Proof.
  intros Hc Hgate. unfold StressTest.run.
  destruct (iterate_facts (fun x => is_pass x = true) config Hc
              (fun sc iter r Hin =>
                 proj2 (proj2 (proj2 (runTest_facts sc iter r)))
                       (Hgate sc iter Hin))
              (Z.to_nat (cfg_iterations config)) 1 (mkRunner [] 0))
    as (r & -> & Hlen & Hall & Hleak).
  - constructor.
  - intros _. reflexivity.
  - cbn [results length Nat.add] in Hlen.
    assert (Hby : StressTest.count is_bypass (results r) = 0).
    { apply count_none. eapply Forall_impl; [|exact Hall].
      intros x. unfold is_pass, is_bypass.
      destruct (expected x), (actual x); cbn; congruence. }
    assert (Hfp : StressTest.count
                    (fun x => verdict_eqb (expected x) PASS
                              && verdict_eqb (actual x) BLOCK) (results r) = 0).
    { apply count_none. eapply Forall_impl; [|exact Hall].
      intros x. unfold is_pass.
      destruct (expected x), (actual x); cbn; congruence. }
    pose proof (count_all is_pass (results r) Hall) as Hpass.
    eexists. split; [reflexivity|].
    unfold StressTest.generateReport.
    cbn [StressTest.totalTests StressTest.passed StressTest.failed bypasses
         falsePositives rep_leakageBytes latticeIntegrity].
    unfold is_pass, is_bypass in *.
    rewrite Hby, Hfp, Hpass.
    repeat split; try lia. apply Hleak. exact Hby.
Qed.

End StressFacts.

(** With its encryption at work the gateway returns for an approved address
    and throws its policy error for any other. *)
Lemma useSecureGateway_answer (Buffer : Type) (ml_kem : MlKem Buffer)
    (targetIp : jsstring) (data : JsValue) :
  encrypts ml_kem data = true ->
  if includes APPROVED_IPS (normalizeIp targetIp)
  then returns (useSecureGateway Buffer ml_kem targetIp data) = true
  else useSecureGateway Buffer ml_kem targetIp data
       = Throw (Error (lit "CFG Policy Violation: IP " ++ targetIp
                       ++ lit " (normalized: " ++ normalizeIp targetIp
                       ++ lit ") is not in the approved whitelist.")).
Proof.
  unfold encrypts, useSecureGateway.
  destruct (includes APPROVED_IPS (normalizeIp targetIp)); cbn [negb];
    [|reflexivity].
  destruct (ml_generateKeyPair Buffer ml_kem (lit "ML-KEM-768")) as [kp|e];
    cbn [bind returns]; [|discriminate].
  destruct (ml_encryptData Buffer ml_kem data _ _) as [p|e];
    cbn [bind returns]; [reflexivity | discriminate].
Qed.

(** The scenarios of the stress test are marked as the policy of the gateway
    decides: authorised exactly when the normalised address is approved. *)
Lemma stress_scenarios_marked sc :
  In sc StressTest.TEST_SCENARIOS ->
  includes APPROVED_IPS (normalizeIp (StressTest.sc_ip sc))
  = StressTest.isAuthorized sc.
Proof.
  assert (H : forallb
                (fun sc =>
                   Bool.eqb
                     (includes APPROVED_IPS
                               (normalizeIp (StressTest.sc_ip sc)))
                     (StressTest.isAuthorized sc))
                StressTest.TEST_SCENARIOS = true)
    by (vm_compute; reflexivity).
  intros Hin. rewrite forallb_forall in H.
  apply eqb_prop. apply H. exact Hin.
Qed.

(** X18: the stress test passes on the gateway.  With a positive
    concurrency and payloads the gateway's encryption accepts, every one of
    the twenty scenarios comes out as marked in every iteration: all tests
    pass, with no bypass, no false positive and no leaked byte, and the
    lattice integrity is 100. *)
Theorem stress_run_passes_gateway (Buffer : Type) (ml_kem : MlKem Buffer)
    (data : Z -> JsValue) (payload_json_length : EncryptedPayload -> Z)
    (config : StressTest.StressTestConfig) :
  0 < StressTest.cfg_concurrency config ->
  (forall iter, encrypts ml_kem (data iter) = true) ->
  exists report,
    StressTest.run
      (fun ip iter => useSecureGateway Buffer ml_kem ip (data iter))
      payload_json_length config = Some report
    /\ StressTest.totalTests report
       = 20 * Z.max 0 (StressTest.cfg_iterations config)
    /\ StressTest.passed report = StressTest.totalTests report
    /\ StressTest.failed report = 0
    /\ StressTest.bypasses report = 0
    /\ StressTest.falsePositives report = 0
    /\ StressTest.rep_leakageBytes report = 0
    /\ StressTest.latticeIntegrity report = 100.
Proof.
  intros Hc Henc. apply run_all_pass; [exact Hc|].
  intros sc iter Hin. rewrite <- (stress_scenarios_marked sc Hin).
  pose proof (useSecureGateway_answer Buffer ml_kem (StressTest.sc_ip sc)
                (data iter) (Henc iter)) as Hanswer.
  destruct (includes APPROVED_IPS (normalizeIp (StressTest.sc_ip sc)));
    [exact Hanswer | rewrite Hanswer; reflexivity].
Qed.

Lemma stress_run_counts_witness :
  exists report,
    StressTest.run
      (fun ip iter =>
         useSecureGateway unit (quantum_safe unit demo_key_pair demo_seal) ip
                          (StressTest.test_payload iter))
      ciphertext_length
      (StressTest.mkConfig 2 10 (lit "src/security/useSecureGateway.ts"))
    = Some report
    /\ StressTest.totalTests report = 40.
Proof.
  destruct (stress_run_counts
              (fun ip iter =>
                 useSecureGateway unit
                   (quantum_safe unit demo_key_pair demo_seal) ip
                   (StressTest.test_payload iter))
              ciphertext_length
              (StressTest.mkConfig 2 10
                 (lit "src/security/useSecureGateway.ts"))
              ltac:(reflexivity))
    as (report & Hrun & Htotal & _).
  exists report. split; [exact Hrun | exact Htotal].
Defined.

Lemma stress_run_passes_gateway_witness :
  exists report,
    StressTest.run
      (fun ip iter =>
         useSecureGateway unit (quantum_safe unit demo_key_pair demo_seal) ip
                          (StressTest.test_payload iter))
      ciphertext_length
      (StressTest.mkConfig 100 10 (lit "src/security/useSecureGateway.ts"))
    = Some report
    /\ StressTest.passed report = 2000.
Proof.
  destruct (stress_run_passes_gateway unit
              (quantum_safe unit demo_key_pair demo_seal)
              StressTest.test_payload
              ciphertext_length
              (StressTest.mkConfig 100 10
                 (lit "src/security/useSecureGateway.ts"))
              ltac:(reflexivity) ltac:(intros iter; reflexivity))
    as (report & Hrun & Htotal & Hpassed & _).
  exists report. split; [exact Hrun|]. rewrite Hpassed. exact Htotal.
Defined.

(* ================================================================== *)
(** ** The simulation *)
(* ================================================================== *)

Section SimulationFacts.

Variable gateway : jsstring -> completion GatewayResult.
Variable payload_json_length : EncryptedPayload -> Z.

Local Abbreviation attempt :=
  (Simulation.attempt gateway payload_json_length).
Local Abbreviation for_of := (Simulation.for_of gateway payload_json_length).
Local Abbreviation runSimulation :=
  (Simulation.runSimulation gateway payload_json_length).
Local Abbreviation exit_code :=
  (Simulation.exit_code gateway payload_json_length).

Lemma attempt_expected sc c :
  as_expected gateway sc = true ->
  exists c',
    attempt sc c = Normal c'
    /\ counted_right c' = counted_right c + 1
    /\ Simulation.leakageBytes c' = Simulation.leakageBytes c.
Proof.
  unfold as_expected, Simulation.attempt, counted_right.
  destruct (gateway (Simulation.ip sc)) as [result|e].
  - intros ->. eexists. split; [reflexivity|].
    cbn [Simulation.successfulBlocks Simulation.successfulAuthorizations
         Simulation.leakageBytes]. split; [lia | reflexivity].
  - intros H. apply andb_true_iff in H. destruct H as [-> ->].
    eexists. split; [reflexivity|].
    cbn [Simulation.successfulBlocks Simulation.successfulAuthorizations
         Simulation.leakageBytes]. split; [lia | reflexivity].
Qed.

Lemma attempt_unexpected sc c c' :
  as_expected gateway sc = false ->
  attempt sc c = Normal c' -> counted_right c' = counted_right c.
Proof.
  unfold as_expected, Simulation.attempt, counted_right.
  destruct (gateway (Simulation.ip sc)) as [result|e].
  - intros ->. intros [= <-]. reflexivity.
  - destruct (Simulation.isAuthorized sc); cbn [negb andb].
    + intros _ [= <-]. reflexivity.
    + intros ->. discriminate.
Qed.

Lemma attempt_bound sc c c' :
  attempt sc c = Normal c' -> counted_right c' <= counted_right c + 1.
Proof.
  destruct (as_expected gateway sc) eqn:E.
  - destruct (attempt_expected sc c E) as (c1 & -> & H & _).
    intros [= <-]. lia.
  - intros H. rewrite (attempt_unexpected sc c c' E H). lia.
Qed.

Lemma for_of_bound l :
  forall c c',
    for_of l c = Normal c' ->
    counted_right c' <= counted_right c + Z.of_nat (length l).
Proof.
  induction l as [|sc l IH]; intros c c'; cbn [Simulation.for_of length].
  - intros [= <-]. lia.
  - destruct (attempt sc c) as [c1|e] eqn:E; cbn [bind]; [|discriminate].
    intros H. apply IH in H. apply attempt_bound in E. lia.
Qed.

Lemma for_of_expected l :
  forall c,
    forallb (as_expected gateway) l = true ->
    exists c',
      for_of l c = Normal c'
      /\ counted_right c' = counted_right c + Z.of_nat (length l)
      /\ Simulation.leakageBytes c' = Simulation.leakageBytes c.
Proof.
  induction l as [|sc l IH]; intros c; cbn [forallb Simulation.for_of length].
  - intros _. exists c. repeat split. lia.
  - intros H. apply andb_true_iff in H. destruct H as [Hsc Hl].
    destruct (attempt_expected sc c Hsc) as (c1 & -> & Hn & Hleak).
    cbn [bind]. destruct (IH c1 Hl) as (c' & -> & Hn' & Hleak').
    exists c'. split; [reflexivity|]. split; [lia | congruence].
Qed.

Lemma for_of_unexpected l :
  forall c c',
    forallb (as_expected gateway) l = false ->
    for_of l c = Normal c' ->
    counted_right c' < counted_right c + Z.of_nat (length l).
Proof.
  induction l as [|sc l IH]; intros c c'; cbn [forallb Simulation.for_of length];
    [discriminate|].
  intros H. destruct (attempt sc c) as [c1|e] eqn:E; cbn [bind];
    [|discriminate].
  intros Hrest. destruct (as_expected gateway sc) eqn:Hsc; cbn [andb] in H.
  - apply attempt_bound in E. pose proof (IH c1 c' H Hrest). lia.
  - pose proof (attempt_unexpected sc c c1 Hsc E) as Hsame.
    apply for_of_bound in Hrest. lia.
Qed.

Lemma mission_success_iff c :
  Simulation.mission_success c = true
  <-> 7 <= counted_right c /\ Simulation.leakageBytes c = 0.
Proof.
  unfold Simulation.mission_success, counted_right, Qle_bool.
  change (Pos.of_nat (length Simulation.scenarios)) with 7%positive.
  cbn [Qnum Qden]. rewrite andb_true_iff, Z.leb_le, Z.eqb_eq. lia.
Qed.

(** The simulation ends well exactly when the gateway answers every
    scenario as expected. *)
Lemma exit_code_0_iff :
  exit_code = 0 <-> forallb (as_expected gateway) Simulation.scenarios = true.
Proof.
  unfold Simulation.exit_code, Simulation.runSimulation. split.
  - destruct (forallb (as_expected gateway) Simulation.scenarios) eqn:E;
      [reflexivity|].
    destruct (for_of Simulation.scenarios (Simulation.mkCounters 0 0 0))
      as [c|e] eqn:Hrun; cbn [bind]; [|discriminate].
    pose proof (for_of_unexpected _ _ _ E Hrun) as Hlt.
    change (counted_right (Simulation.mkCounters 0 0 0)) with 0 in Hlt.
    change (Z.of_nat (length Simulation.scenarios)) with 7 in Hlt.
    destruct (Simulation.mission_success c) eqn:Hm; [|discriminate].
    apply mission_success_iff in Hm. lia.
  - intros E.
    destruct (for_of_expected Simulation.scenarios
                (Simulation.mkCounters 0 0 0) E) as (c & -> & Hn & Hleak).
    cbn [bind].
    change (counted_right (Simulation.mkCounters 0 0 0)) with 0 in Hn.
    change (Z.of_nat (length Simulation.scenarios)) with 7 in Hn.
    cbn [Simulation.leakageBytes] in Hleak.
    replace (Simulation.mission_success c) with true; [reflexivity|].
    symmetry. apply mission_success_iff. lia.
Qed.

(** X19: the simulation exits with code 0 or 1, and with 0 exactly when the
    gateway answers each of the seven scenarios as the scenario expects:
    it returns for an authorised one, and throws, with a message that has a
    colon and a space in it, for the others.  The test on the leaked bytes
    then holds of itself; a refusal whose message the [catch] block cannot
    take apart ends the run with code 1. *)
Theorem simulation_succeeds_iff :
  (exit_code = 0
   <-> forallb (as_expected gateway) Simulation.scenarios = true)
  /\ (exit_code = 0 \/ exit_code = 1).
Proof.
  split; [exact exit_code_0_iff|].
  unfold Simulation.exit_code, Simulation.runSimulation.
  destruct (for_of Simulation.scenarios (Simulation.mkCounters 0 0 0))
    as [c|e]; cbn [bind]; [|right; reflexivity].
  destruct (Simulation.mission_success c); [left | right]; reflexivity.
Qed.

End SimulationFacts.

(** The scenarios of the simulation are marked as the policy of the gateway
    decides. *)
Lemma simulation_scenarios_marked sc :
  In sc Simulation.scenarios ->
  includes APPROVED_IPS (normalizeIp (Simulation.ip sc))
  = Simulation.isAuthorized sc.
Proof.
  assert (H : forallb
                (fun sc =>
                   Bool.eqb
                     (includes APPROVED_IPS (normalizeIp (Simulation.ip sc)))
                     (Simulation.isAuthorized sc))
                Simulation.scenarios = true)
    by (vm_compute; reflexivity).
  intros Hin. rewrite forallb_forall in H.
  apply eqb_prop. apply H. exact Hin.
Qed.

(** The policy error has the colon and the space the simulation looks
    for. *)
Lemma policy_error_has_colon targetIp rest :
  contains (lit "CFG Policy Violation: IP " ++ targetIp ++ rest) (lit ": ")
  = true.
Proof.
  apply contains_iff.
  exists (lit "CFG Policy Violation"), (lit "IP " ++ targetIp ++ rest).
  reflexivity.
Qed.

(** X20: the simulation passes on the gateway: with a payload the gateway's
    encryption accepts, the seven scenarios come out as marked and the
    process exits with code 0. *)
Theorem simulation_passes_gateway (Buffer : Type) (ml_kem : MlKem Buffer)
    (data : JsValue) (payload_json_length : EncryptedPayload -> Z) :
  encrypts ml_kem data = true ->
  Simulation.exit_code
    (fun ip => useSecureGateway Buffer ml_kem ip data) payload_json_length
  = 0.
Proof.
  intros Henc. apply exit_code_0_iff. apply forallb_forall.
  intros sc Hin. unfold as_expected.
  pose proof (useSecureGateway_answer Buffer ml_kem (Simulation.ip sc) data
                Henc) as Hanswer.
  rewrite (simulation_scenarios_marked sc Hin) in Hanswer.
  destruct (Simulation.isAuthorized sc).
  - destruct (useSecureGateway Buffer ml_kem (Simulation.ip sc) data);
      [reflexivity | discriminate].
  - rewrite Hanswer. cbn [negb andb Recovery.message].
    apply policy_error_has_colon.
Qed.

Lemma simulation_passes_gateway_witness :
  Simulation.exit_code
    (fun ip =>
       useSecureGateway unit (quantum_safe unit demo_key_pair demo_seal) ip
                        Simulation.test_payload)
    ciphertext_length
  = 0.
Proof.
  apply (simulation_passes_gateway unit
           (quantum_safe unit demo_key_pair demo_seal)
           Simulation.test_payload ciphertext_length).
  vm_compute. reflexivity.
Defined.

(* ================================================================== *)
(** ** The stress test with a concurrency that is not positive *)
(* ================================================================== *)

Section StressStuck.

Variable gateway : jsstring -> Z -> completion GatewayResult.
Variable payload_json_length : EncryptedPayload -> Z.

Local Abbreviation runBatch_from :=
  (StressTest.runBatch_from gateway payload_json_length).
Local Abbreviation run := (StressTest.run gateway payload_json_length).

Lemma runBatch_from_stuck scenarios c iter :
  c <= 0 ->
  forall fuel i r,
    i <= 0 -> i < Z.of_nat (length scenarios) ->
    runBatch_from fuel scenarios c iter i r = None.
Proof.
  intros Hc.
  induction fuel as [|fuel IH]; intros i r Hi Hlt; [reflexivity|].
  cbn [StressTest.runBatch_from].
  replace (i <? Z.of_nat (length scenarios)) with true
    by (symmetry; apply Z.ltb_lt; exact Hlt).
  destruct (StressTest.runTests gateway payload_json_length
              (slice scenarios i (i + c)) iter r) as [batchResults r'].
  apply IH; lia.
Qed.

(** X21: with a concurrency of 0 or less (the environment variable
    [STRESS_CONCURRENCY] set to 0, say) the loop of [runBatch] over the
    twenty scenarios never ends, whatever number of steps it is given and
    whatever the gateway does; a stress test of at least one iteration gives
    no report. *)
Theorem stress_run_never_ends (config : StressTest.StressTestConfig) :
  StressTest.cfg_concurrency config <= 0 ->
  (forall fuel iter r,
      runBatch_from fuel StressTest.TEST_SCENARIOS
                    (StressTest.cfg_concurrency config) iter 0 r = None)
  /\ (1 <= StressTest.cfg_iterations config -> run config = None).
Proof.
  intros Hc.
  assert (Hstuck : forall fuel iter r,
             runBatch_from fuel StressTest.TEST_SCENARIOS
                           (StressTest.cfg_concurrency config) iter 0 r
             = None).
  { intros fuel iter r. apply runBatch_from_stuck; [exact Hc | lia |].
    change (length StressTest.TEST_SCENARIOS) with 20%nat. lia. }
  split; [exact Hstuck|].
  intros Hit. unfold StressTest.run.
  destruct (Z.to_nat (StressTest.cfg_iterations config)) as [|todo] eqn:E;
    [lia|].
  cbn [StressTest.iterate]. unfold StressTest.runBatch.
  rewrite Hstuck. reflexivity.
Qed.

End StressStuck.

Lemma stress_run_never_ends_witness :
  StressTest.run
    (fun ip iter =>
       useSecureGateway unit (quantum_safe unit demo_key_pair demo_seal) ip
                        (StressTest.test_payload iter))
    ciphertext_length
    (StressTest.mkConfig 100 0 (lit "src/security/useSecureGateway.ts"))
  = None.
Proof.
  apply (proj2 (stress_run_never_ends
                  (fun ip iter =>
                     useSecureGateway unit
                       (quantum_safe unit demo_key_pair demo_seal) ip
                       (StressTest.test_payload iter))
                  ciphertext_length
                  (StressTest.mkConfig 100 0
                     (lit "src/security/useSecureGateway.ts"))
                  ltac:(cbn; lia))).
  cbn. lia.
Defined.

(* ================================================================== *)
(** ** The normaliser on what is not an address *)
(* ================================================================== *)

Lemma Forall_white_space l :
  Forall (fun c => is_white_space c = true) l ->
  forallb is_white_space l = true.
Proof.
  induction 1 as [|c l Hc _ IH]; [reflexivity|].
  cbn [forallb]. rewrite Hc, IH. reflexivity.
Qed.

Lemma trim_clean t :
  (forall c rest, t = c :: rest -> is_white_space c = false) ->
  (forall front c, t = front ++ [c] -> is_white_space c = false) ->
  trim t = t.
Proof.
  intros Hhead Hlast. unfold trim.
  assert (Hstart : trimStart t = t).
  { destruct t as [|c rest]; [reflexivity|].
    apply trimStart_keeps. apply (Hhead c rest). reflexivity. }
  rewrite Hstart.
  destruct (rev t) as [|c front] eqn:E.
  - apply (f_equal (@rev Z)) in E. rewrite rev_involutive in E.
    subst t. reflexivity.
  - apply (f_equal (@rev Z)) in E. rewrite rev_involutive in E.
    cbn [rev] in E. rewrite E, trimEnd_snoc.
    rewrite (Hlast (rev front) c E). reflexivity.
Qed.

Lemma trim_trimmed_input ip t : trimmed_input ip t -> trim ip = t.
Proof.
  intros (pad1 & pad2 & -> & H1 & H2 & Hhead & Hlast).
  rewrite trim_padding by (apply Forall_white_space; assumption).
  apply trim_clean; assumption.
Qed.

Lemma all_digits_digits_only t : all_digits t = true -> digits_only t.
Proof.
  unfold all_digits, digits_only. destruct t as [|c r]; [discriminate|].
  intros H. split; [discriminate|].
  apply Forall_forall. intros d Hd.
  rewrite forallb_forall in H. apply is_digit_bounds. apply H. exact Hd.
Qed.

Lemma hex_literal_hexadecimal t :
  hex_literal t = true -> hexadecimal_literal t.
Proof.
  unfold hex_literal, hexadecimal_literal.
  destruct t as [|c [|x [|d r]]]; try discriminate.
  intros H. apply andb_true_iff in H. destruct H as [H Hds].
  apply andb_true_iff in H. destruct H as [Hc Hx].
  apply Z.eqb_eq in Hc. apply Z.eqb_eq in Hx. subst c x.
  exists (d :: r). split; [discriminate|]. split; [reflexivity|].
  apply Forall_forall. intros h Hh. rewrite forallb_forall in Hds.
  apply is_hex_digit_cases. apply Hds. exact Hh.
Qed.

Lemma split_on_dots t : length (split_on 46 t) = S (dots t).
Proof.
  unfold dots. induction t as [|c r IH]; [reflexivity|].
  cbn [split_on count_occ].
  destruct (Z.eqb_spec c 46) as [->|Hc].
  - destruct (Z.eq_dec 46 46) as [_|H]; [|contradiction].
    cbn [length]. rewrite IH. reflexivity.
  - destruct (Z.eq_dec c 46) as [H|_]; [contradiction|].
    destruct (split_on 46 r) as [|p ps]; [discriminate|].
    cbn [length] in *. exact IH.
Qed.

(** C7: take the input between the white space at its two ends.  When that
    is not a string of decimal digits, is not [0x] followed by hexadecimal
    digits, and does not have exactly three dots (four parts), [normalizeIp]
    returns it as it is. *)
Theorem normalizeIp_passthrough (ip t : jsstring) :
  trimmed_input ip t ->
  ~ digits_only t ->
  ~ hexadecimal_literal t ->
  dots t <> 3%nat ->
  normalizeIp ip = t.
Proof.
  intros Htrim Hdigits Hhex Hdots.
  pose proof (trim_trimmed_input ip t Htrim) as E.
  transitivity (trim ip); [|exact E].
  apply normalizeIp_last_branch; rewrite E.
  - destruct (all_digits t) eqn:Hd; [|reflexivity].
    exfalso. apply Hdigits, all_digits_digits_only, Hd.
  - destruct (hex_literal t) eqn:Hh; [|reflexivity].
    exfalso. apply Hhex, hex_literal_hexadecimal, Hh.
  - rewrite split_on_dots. congruence.
Qed.

Lemma normalizeIp_passthrough_witness :
  normalizeIp ([9; 32] ++ lit "local host.example" ++ [160; 10])
  = lit "local host.example".
Proof.
  apply (normalizeIp_passthrough
           ([9; 32] ++ lit "local host.example" ++ [160; 10])
           (lit "local host.example")).
  - exists [9; 32], [160; 10]. split; [reflexivity|].
    split; [repeat constructor|]. split; [repeat constructor|].
    split.
    + intros c rest [= <- _]. reflexivity.
    + intros front c H. apply (f_equal (@rev Z)) in H.
      rewrite rev_app_distr in H. cbn in H. injection H as <- _.
      reflexivity.
  - intros [_ H]. inversion H as [|c l Hc _]. cbn in Hc. lia.
  - intros (digits & _ & H & _). discriminate.
  - cbn. lia.
Defined.

(* ================================================================== *)
(** ** The normaliser never throws on a string *)
(* ================================================================== *)

Section NormaliserAtRunTime.

Variable StringToNumber : jsstring -> number.

Local Abbreviation run := (Dynamic.normalizeIp StringToNumber).

Lemma item_texts_strings l :
  Dynamic.item_texts (map Dynamic.VString l) = Normal l.
Proof.
  induction l as [|t l IH]; [reflexivity|].
  cbn [map Dynamic.item_texts Dynamic.ToString bind]. rewrite IH.
  reflexivity.
Qed.

(** On a number the four shifts and masks and the [join] go through, and
    give what the typed reading gives. *)
Lemma octets_joined_number num :
  Dynamic.octets_joined StringToNumber (Dynamic.VNumber num)
  = Normal (Dynamic.VString (dotted (octets num))).
Proof. reflexivity. Qed.

(** On a string the callback of [map] goes through. *)
Lemma normalizePart_string part :
  Dynamic.normalizePart StringToNumber (Dynamic.VString part)
  = Normal (Dynamic.VString (normalizePart part)).
Proof.
  unfold Dynamic.normalizePart, normalizePart.
  cbn [Dynamic.call_startsWith bind Dynamic.truthy].
  destruct (startsWith part (lit "0x")); [reflexivity|].
  destruct (startsWith part (lit "0")); [|reflexivity].
  cbn [Dynamic.get_length Dynamic.greater_than Dynamic.ToNumeric bind andb].
  destruct (1 <? Z.of_nat (length part)); reflexivity.
Qed.

Lemma map_items_strings parts :
  Dynamic.map_items (Dynamic.normalizePart StringToNumber)
                    (map Dynamic.VString parts)
  = Normal (map Dynamic.VString (map normalizePart parts)).
Proof.
  induction parts as [|part parts IH]; [reflexivity|].
  cbn [map Dynamic.map_items]. rewrite normalizePart_string, IH.
  reflexivity.
Qed.

(** C4: run as the engine runs it, with every method looked up on the value
    at hand and every conversion made when it is needed, [normalizeIp]
    throws nothing on a string, whatever the string, and returns a string:
    the one the typed reading computes.  So it does on the empty string, on
    white space only, on a host name, on an IPv6 literal and on garbage,
    with or without dots and in code units outside ASCII. *)
Theorem normalizeIp_total :
  (forall ip : jsstring,
      run (Dynamic.VString ip) = Normal (Dynamic.VString (normalizeIp ip)))
  /\ run (Dynamic.VString (lit "")) = Normal (Dynamic.VString (lit ""))
  /\ run (Dynamic.VString (lit "   ")) = Normal (Dynamic.VString (lit ""))
  /\ run (Dynamic.VString (lit "localhost"))
     = Normal (Dynamic.VString (lit "localhost"))
  /\ run (Dynamic.VString (lit "::1")) = Normal (Dynamic.VString (lit "::1"))
  /\ run (Dynamic.VString (lit "<script>alert(1)</script>"))
     = Normal (Dynamic.VString (lit "<script>alert(1)</script>"))
  /\ run (Dynamic.VString (lit "a.b.c.d"))
     = Normal (Dynamic.VString (lit "NaN.NaN.NaN.NaN"))
  /\ run (Dynamic.VString [9; 12288; 55357; 56594; 65279])
     = Normal (Dynamic.VString [55357; 56594]).
Proof.
  assert (H : forall ip : jsstring,
             run (Dynamic.VString ip)
             = Normal (Dynamic.VString (normalizeIp ip))).
  { intros ip. unfold Dynamic.normalizeIp, normalizeIp.
    cbn [Dynamic.call_trim bind Dynamic.RegExp_test Dynamic.ToString
         Dynamic.truthy].
    destruct (all_digits (trim ip)).
    { cbn [Dynamic.parseInt Dynamic.ToString bind].
      apply octets_joined_number. }
    destruct (hex_literal (trim ip)).
    { cbn [Dynamic.parseInt Dynamic.ToString bind].
      apply octets_joined_number. }
    cbn [Dynamic.call_split bind Dynamic.get_length Dynamic.strictly_equals].
    rewrite length_map.
    replace (Z.of_nat (length (split_on 46 (trim ip))) =? 4)
      with (Nat.eqb (length (split_on 46 (trim ip))) 4).
    - destruct (Nat.eqb (length (split_on 46 (trim ip))) 4); [|reflexivity].
      cbn [Dynamic.call_map]. rewrite map_items_strings.
      cbn [bind Dynamic.call_join]. rewrite item_texts_strings.
      reflexivity.
    - destruct (Nat.eqb_spec (length (split_on 46 (trim ip))) 4) as [E|E].
      + rewrite E. reflexivity.
      + symmetry. apply Z.eqb_neq. lia. }
  split; [exact H|].
  repeat split; rewrite H; vm_compute; reflexivity.
Qed.

(** What is not a string does throw: [undefined] has no [trim] to read, and
    a number has none to call. *)
Example normalizeIp_undefined_throws :
  run Dynamic.VUndefined
  = Throw (TypeError
             (lit "Cannot read properties of undefined (reading 'trim')"))
  /\ run (Dynamic.VNumber (Num 167772165))
     = Throw (TypeError (lit "ip.trim is not a function")).
Proof. split; reflexivity. Qed.

End NormaliserAtRunTime.
